(** * Lead scoring: cleaning and percentile scoring of company tables

    A shallow embedding of [clean_data], [score_companies] and
    [investigate_company] of [app.py], together with the parts of [main]
    that chain them and build the results table.

    Conventions of the embedding.
    - Text is Latin-1 ([main] reads the file with [encoding='ISO-8859-1']):
      a Python [str] is a [string] whose characters are code points below
      256.
    - A finite [float64] is the rational number it denotes ([Q]), and
      [NaN] is the null cell, as in pandas.  Rounding to binary64 is
      modelled where an outcome of the program hangs on it: in the
      reading of a funding text by [float], and in the sub-scores that
      [idxmax] compares for the Top Quality.  The Score is given by the
      exact value of its formula, which the floats of the program
      approach to within their rounding.
    - A data frame is a list of column labels and a list of rows of cells;
      a cell is null, a number or text.  The dtype of a column is told
      from its cells: text makes a column of objects, and the entries of
      a column of 64-bit unsigned integers are cells of their own, as
      such a column stays unsigned when rows are dropped.
    - Where the program would leave this vocabulary, the embedding answers
      [Unmodelled] instead of inventing a behaviour: a funding text that
      reads as an infinity or as [NaN], labels that coincide after the
      renaming, a Company Name column that mixes text and numbers, a
      Funding Amount column that was not cleaned, a [funding_rounds]
      column that holds nothing but text, which pandas ranks as text,
      and the scoring of a frame without rows. *)

From Stdlib Require Import List Bool Arith ZArith NArith QArith Lia Lqa.
From Stdlib Require Import Qpower Qround Qreduction.
From Stdlib Require Import Ascii String Permutation.
Import ListNotations.

Local Open Scope string_scope.

(** ** Binary64

    The floats of Python and of the columns of a frame are binary64.
    [binary64 x] is the float nearest to the real [x], the one with the
    even significand when two are as near: 53 bits of significand, and the
    exponent that the size of [x] calls for, not below that of the
    subnormal floats.  A result of [2 ^ 1024] or more stands for the
    infinity that such an [x] rounds to. *)
Definition pow2 (e : Z) : Q := (2 ^ e)%Q.

(** The [l] with [2 ^ l <= x < 2 ^ (l + 1)], for a positive [x]. *)
Definition ilog2 (x : Q) : Z :=
  let c := (Z.log2 (Qnum x) - Z.log2 (Zpos (Qden x)))%Z in
  if Qle_bool (pow2 c) x then c else (c - 1)%Z.

(** The integer nearest to [t], the even one of two that are as near. *)
Definition round_half_even (t : Q) : Z :=
  let f := Qfloor t in
  match Qcompare (t - inject_Z f)%Q (1 # 2)%Q with
  | Lt => f
  | Gt => (f + 1)%Z
  | Eq => if Z.even f then f else (f + 1)%Z
  end.

Definition round_positive (x : Q) : Q :=
  let e := Z.max (ilog2 x - 52) (-1074) in
  (inject_Z (round_half_even (x / pow2 e)) * pow2 e)%Q.

Definition binary64 (x : Q) : Q :=
  let x := Qred x in
  match Qnum x with
  | Z0 => 0%Q
  | Zpos _ => Qred (round_positive x)
  | Zneg _ => Qred (- round_positive (- x))%Q
  end.

(** ** Python string operations *)

Module Py.

(** [c.isspace()] for a Latin-1 character: U+0009..U+000D, U+001C..U+001F,
    U+0020, U+0085 and U+00A0. *)
Definition isspace (c : ascii) : bool :=
  let n := nat_of_ascii c in
  ((9 <=? n) && (n <=? 13) || (28 <=? n) && (n <=? 32)
   || (n =? 133) || (n =? 160))%nat.

Fixpoint lstrip (s : string) : string :=
  match s with
  | String c t => if isspace c then lstrip t else s
  | EmptyString => EmptyString
  end.

Fixpoint rev_onto (s acc : string) : string :=
  match s with
  | String c t => rev_onto t (String c acc)
  | EmptyString => acc
  end.

Definition reverse (s : string) : string := rev_onto s EmptyString.

Definition rstrip (s : string) : string := reverse (lstrip (reverse s)).

(** [s.strip()] *)
Definition strip (s : string) : string := rstrip (lstrip s).

(** [s.replace(old, new)] for a non-empty [old]: occurrences are replaced
    from left to right and do not overlap.  [skip] counts the characters
    of a match that are still to be consumed. *)
Fixpoint replace_from (old new : string) (skip : nat) (s : string) : string :=
  match s with
  | EmptyString => EmptyString
  | String c t =>
      match skip with
      | S k => replace_from old new k t
      | O =>
          if String.prefix old s
          then new ++ replace_from old new (String.length old - 1) t
          else String c (replace_from old new 0 t)
      end
  end.

Definition replace (old new s : string) : string := replace_from old new 0 s.

(** [c.lower()] for a Latin-1 character: A..Z, and U+00C0..U+00DE without
    the multiplication sign U+00D7. *)
Definition lower_char (c : ascii) : ascii :=
  let n := nat_of_ascii c in
  if ((65 <=? n) && (n <=? 90)
      || (192 <=? n) && (n <=? 222) && negb (n =? 215))%nat
  then ascii_of_nat (n + 32) else c.

Fixpoint lower (s : string) : string :=
  match s with
  | String c t => String (lower_char c) (lower t)
  | EmptyString => EmptyString
  end.

(** *** [float(s)]

    The grammar of the language reference:
<<
      floatvalue ::= [sign] (floatnumber | "inf" | "infinity" | "nan")
      floatnumber ::= number [exponent]
      number      ::= [digitpart] "." digitpart | digitpart ["."]
      exponent    ::= ("e" | "E") [sign] digitpart
      digitpart   ::= digit (["_"] digit)*
>>
    surrounded by optional white space; the three words are matched
    without regard to case.  The number that is written is rounded to
    binary64, and one too large for a finite float gives an infinity. *)

Inductive float_result :=
| FloatValue (x : Q)     (* a finite float *)
| FloatNonFinite         (* inf, -inf or nan, also by overflow *)
| FloatValueError.       (* raise ValueError *)

Definition isdigit (c : ascii) : bool :=
  let n := nat_of_ascii c in ((48 <=? n) && (n <=? 57))%nat.

Definition digit_value (c : ascii) : N := N.of_nat (nat_of_ascii c - 48).

(** The scan of a [digitpart] after its first digit: [v] is the value read
    so far and [k] the number of digits read; an underscore is consumed
    only when a digit follows it. *)
Fixpoint digitpart_more (v : N) (k : nat) (s : string) : N * nat * string :=
  match s with
  | String c t =>
      if isdigit c then digitpart_more (10 * v + digit_value c) (S k) t
      else if Ascii.eqb c "_" then
        match t with
        | String d t' =>
            if isdigit d
            then digitpart_more (10 * v + digit_value d) (S k) t'
            else (v, k, s)
        | EmptyString => (v, k, s)
        end
      else (v, k, s)
  | EmptyString => (v, k, s)
  end.

(** A [digitpart] continuing the value [v]: [None] when [s] does not start
    with a digit. *)
Definition digitpart (v : N) (s : string) : option (N * nat * string) :=
  match s with
  | String c t =>
      if isdigit c then Some (digitpart_more (10 * v + digit_value c) 1 t)
      else None
  | EmptyString => None
  end.

Definition sign_of (s : string) : bool * string :=
  match s with
  | String "-" t => (true, t)
  | String "+" t => (false, t)
  | _ => (false, s)
  end.

(** [number]: the digits read as one integer, and how many of them stand
    after the point. *)
Definition number (s : string) : option (N * nat * string) :=
  match digitpart 0 s with
  | Some (ip, _, String "." t) =>
      match digitpart ip t with
      | Some (m, fk, rest) => Some (m, fk, rest)
      | None => Some (ip, O, t)
      end
  | Some (ip, _, rest) => Some (ip, O, rest)
  | None =>
      match s with
      | String "." t => digitpart 0 t
      | _ => None
      end
  end.

(** [exponent], when one is there; the text is left untouched otherwise. *)
Definition exponent (s : string) : Z * string :=
  match s with
  | String c t =>
      if Ascii.eqb c "e" || Ascii.eqb c "E" then
        let (neg, t1) := sign_of t in
        match digitpart 0 t1 with
        | Some (e, _, rest) =>
            ((if neg then - Z.of_N e else Z.of_N e)%Z, rest)
        | None => (0%Z, s)
        end
      else (0%Z, s)
  | EmptyString => (0%Z, s)
  end.

(** [m * 10 ^ e] *)
Definition scale10 (m : N) (e : Z) : Q :=
  match e with
  | Zneg p => Qmake (Z.of_N m) (10 ^ p)
  | _ => inject_Z (Z.of_N m * 10 ^ e)
  end.

Definition float (s : string) : float_result :=
  let (neg, body) := sign_of (strip s) in
  let word := lower body in
  if String.eqb word "inf" || String.eqb word "infinity"
     || String.eqb word "nan"
  then FloatNonFinite
  else
    match number body with
    | Some (m, fk, rest) =>
        match exponent rest with
        | (e, EmptyString) =>
            let v := scale10 m (e - Z.of_nat fk) in
            let x := binary64 (if neg then - v else v) in
            if Qle_bool (pow2 1024) x || Qle_bool x (- pow2 1024)
            then FloatNonFinite
            else FloatValue x
        | _ => FloatValueError
        end
    | None => FloatValueError
    end.

End Py.

(** ** Data frames *)

(** A cell: [Null] is pandas' missing value ([NaN] / [None]); [Num] is a
    float, or an integer of a column of 64-bit signed integers; [UInt] is
    an entry of a column of 64-bit unsigned integers, the dtype that
    [read_csv] gives a column of whole numbers from 0 to 2^64 - 1 of which
    one is 2^63 or more. *)
Inductive cell :=
| Null
| Num (x : Q)
| Str (s : string)
| UInt (z : Z).

Record DataFrame := mkDataFrame {
  columns : list string;
  rows : list (list cell)
}.

(** How a call can end other than by returning. *)
Inductive exn :=
| KeyError (labels : list string)
| ValueError
| AttributeError
| TypeError
| Stop.                 (* st.stop(): the script run ends here *)

Inductive outcome (A : Type) :=
| Ok (a : A)
| Raise (e : exn)
| Unmodelled.           (* the input leaves what the embedding represents *)

Arguments Ok {A} a.
Arguments Raise {A} e.
Arguments Unmodelled {A}.

(** [pd.notnull(c)] *)
Definition notnull (c : cell) : bool :=
  match c with Null => false | _ => true end.

Definition is_text (c : cell) : bool :=
  match c with Str _ => true | _ => false end.

Definition is_number (c : cell) : bool :=
  match c with Num _ | UInt _ => true | _ => false end.

Definition is_float (c : cell) : bool :=
  match c with Num _ => true | _ => false end.


Definition mem (name : string) (l : list string) : bool :=
  existsb (String.eqb name) l.

Fixpoint index_of (name : string) (cols : list string) : option nat :=
  match cols with
  | [] => None
  | c :: t => if String.eqb name c then Some O
              else option_map S (index_of name t)
  end.

Definition cell_at (i : nat) (row : list cell) : cell := nth i row Null.

(** [df[name]], [None] standing for the [KeyError] of an absent label. *)
Definition column (df : DataFrame) (name : string) : option (list cell) :=
  option_map (fun i => map (cell_at i) (rows df)) (index_of name (columns df)).

(** [df.empty] *)
Definition empty (df : DataFrame) : bool :=
  match columns df, rows df with
  | _ :: _, _ :: _ => false
  | _, _ => true
  end.

Fixpoint nodup_labels (l : list string) : bool :=
  match l with
  | [] => true
  | c :: t => negb (mem c t) && nodup_labels t
  end.

(** The dtype pandas gives a column read from a file is numeric when the
    column is not empty and holds no text; the cells of any other column
    of a file are text or null. *)
Definition numeric_dtype (cells : list cell) : bool :=
  match cells with
  | [] => false
  | _ => forallb (fun c => negb (is_text c)) cells
  end.

(** Keep the columns that [keep] accepts, given their position and label. *)
Fixpoint kept_positions (keep : nat -> string -> bool) (i : nat)
    (cols : list string) : list nat :=
  match cols with
  | [] => []
  | c :: t => if keep i c then i :: kept_positions keep (S i) t
              else kept_positions keep (S i) t
  end.

Definition select_columns (keep : nat -> string -> bool) (df : DataFrame)
    : DataFrame :=
  let ps := kept_positions keep 0 (columns df) in
  {| columns := map (fun i => nth i (columns df) "") ps;
     rows := map (fun r => map (fun i => cell_at i r) ps) (rows df) |}.

Fixpoint set_at (i : nat) (c : cell) (row : list cell) : list cell :=
  match row, i with
  | [], _ => []
  | _ :: t, O => c :: t
  | x :: t, S k => x :: set_at k c t
  end.

(** ** [clean_data] *)

Definition rename_map : list (string * string) :=
  [("name", "Company Name"); ("category_list", "Category");
   ("city", "City"); ("funding_total_usd", "Funding Amount")].

Fixpoint lookup (k : string) (m : list (string * string)) : option string :=
  match m with
  | [] => None
  | (k', v) :: t => if String.eqb k k' then Some v else lookup k t
  end.

Definition rename (col : string) : string :=
  match lookup col rename_map with Some v => v | None => col end.

Definition mandatory : list string := ["Company Name"; "Category"; "City"].

Definition relevant_cols : list string :=
  ["Company Name"; "Category"; "City"; "Funding Amount"; "funding_rounds";
   "founded_year"].

Definition funding_types : list string := ["seed"; "venture"; "angel"].

(** [dropna(subset=mandatory, how='any')] on the rows. *)
Definition complete (cols : list string) (row : list cell) : bool :=
  forallb (fun name =>
             match index_of name cols with
             | Some i => notnull (cell_at i row)
             | None => false
             end) mandatory.

(** [.str.lower()] of one cell: a cell that is not text becomes null. *)
Definition lower_key (c : cell) : option string :=
  match c with Str s => Some (Py.lower s) | _ => None end.

Definition key_eqb (a b : option string) : bool :=
  match a, b with
  | Some x, Some y => String.eqb x y
  | None, None => true
  | _, _ => false
  end.

(** [drop_duplicates(subset=key)], which keeps the first row of each key. *)
Fixpoint drop_duplicates (key : list cell -> option string)
    (seen : list (option string)) (rs : list (list cell))
    : list (list cell) :=
  match rs with
  | [] => []
  | r :: t =>
      if existsb (key_eqb (key r)) seen
      then drop_duplicates key seen t
      else r :: drop_duplicates key (key r :: seen) t
  end.

(** The text handed to [float] for a funding cell that is a string. *)
Definition funding_text (s : string) : string :=
  Py.strip (Py.replace " - " "0" (Py.replace "," "" (Py.replace "$" "" s))).

(** The lambda applied to every cell of [Funding Amount].  For a number
    [x], [str(x)] holds none of the replaced patterns and [float] reads
    the number that [str] printed: a float is read back as it is, an
    integer is rounded to the nearest float. *)
Definition coerce_funding (c : cell) : Py.float_result :=
  match c with
  | Null => Py.FloatValue 0
  | Num x => Py.FloatValue (binary64 x)
  | Str s => Py.float (funding_text s)
  | UInt z => Py.FloatValue (binary64 (inject_Z z))
  end.

Definition is_value_error (r : Py.float_result) : bool :=
  match r with Py.FloatValueError => true | _ => false end.

Definition is_non_finite (r : Py.float_result) : bool :=
  match r with Py.FloatNonFinite => true | _ => false end.

Definition float_cell (r : Py.float_result) : cell :=
  match r with Py.FloatValue x => Num x | _ => Null end.

(** Lines 33 to 36: [apply] runs over the rows in order, so a cell that
    [float] rejects raises whatever the other cells are. *)
Definition coerce_funding_amount (df : DataFrame) : outcome DataFrame :=
  match index_of "Funding Amount" (columns df) with
  | Some i =>
      let results := map (fun r => coerce_funding (cell_at i r)) (rows df) in
      if existsb is_value_error results then Raise ValueError
      else if existsb is_non_finite results then Unmodelled
      else Ok {| columns := columns df;
                 rows := map (fun r =>
                                set_at i
                                  (float_cell (coerce_funding (cell_at i r))) r)
                             (rows df) |}
  | None =>
      Ok {| columns := (columns df ++ ["Funding Amount"])%list;
            rows := map (fun r => (r ++ [Num 0])%list) (rows df) |}
  end.

(** Lines 24 to 26. *)
Definition normalized_columns (df : DataFrame) : list string :=
  map rename (map Py.strip (columns df)).

(** Lines 27 to 29: the rows that survive the completeness filter and the
    removal of duplicates. *)
Definition surviving_rows (df : DataFrame) : list (list cell) :=
  let cols := normalized_columns df in
  let name_of r :=
    match index_of "Company Name" cols with
    | Some i => lower_key (cell_at i r)
    | None => None
    end in
  drop_duplicates name_of [] (filter (complete cols) (rows df)).

(** Lines 30 to 32. *)
Definition prune_columns (df : DataFrame) : DataFrame :=
  select_columns (fun _ c => mem c relevant_cols || mem c funding_types)
    (select_columns (fun i _ => existsb (fun r => notnull (cell_at i r))
                                  (rows df)) df).

Definition clean_data (df : DataFrame) : outcome DataFrame :=
  let cols := normalized_columns df in
  match filter (fun name => negb (mem name cols)) mandatory with
  | (_ :: _) as missing => Raise (KeyError missing)
  | [] =>
      if negb (nodup_labels cols) then Unmodelled
      else
        let named := {| columns := cols; rows := rows df |} in
        match column named "Company Name" with
        | Some names =>
            if numeric_dtype names then Raise AttributeError
            else if existsb is_number names then Unmodelled
            else
              coerce_funding_amount
                (prune_columns {| columns := cols;
                                  rows := surviving_rows df |})
        | None => Raise (KeyError ["Company Name"])
        end
  end.

(** Lines 83 to 86 of [main]: the cleaning step as the rest of the script
    sees it. *)
Definition clean (df : DataFrame) : outcome DataFrame :=
  match clean_data df with
  | Ok cleaned => if empty cleaned then Raise Stop else Ok cleaned
  | other => other
  end.

(** ** pandas operations on numeric columns *)

Local Open Scope Q_scope.

Definition of_nat (n : nat) : Q := inject_Z (Z.of_nat n).

(** [x < y] on floats *)
Definition Qlt_bool (x y : Q) : bool := negb (Qle_bool y x).

(** Sorting a column, smallest value first. *)
Fixpoint insert_sorted (x : Q) (s : list Q) : list Q :=
  match s with
  | [] => [x]
  | y :: t => if Qle_bool x y then x :: s else y :: insert_sorted x t
  end.

Definition sort_values (xs : list Q) : list Q :=
  fold_right insert_sorted [] xs.

(** The ranks 1, 2, ... that the sorted column gives to the entries equal
    to [x]; [k] is the rank of the head of [s]. *)
Fixpoint tie_ranks (x : Q) (k : nat) (s : list Q) : list nat :=
  match s with
  | [] => []
  | y :: t => if Qeq_bool y x then k :: tie_ranks x (S k) t
              else tie_ranks x (S k) t
  end.

(** [rank(method='average')], the default: the entries that are tied share
    the mean of the ranks they occupy. *)
Definition rank_average (xs : list Q) (x : Q) : Q :=
  let ranks := tie_ranks x 1 (sort_values xs) in
  of_nat (list_sum ranks) / of_nat (List.length ranks).

(** [xs.rank(pct=True)]: the rank divided by the number of entries. *)
Definition rank_pct (xs : list Q) : list Q :=
  map (fun x => rank_average xs x / of_nat (List.length xs)) xs.

(** [xs * w] *)
Definition series_mul (xs : list Q) (w : Q) : list Q := map (fun x => x * w) xs.

(** [xs + ys] for two columns of one frame *)
Fixpoint series_add (xs ys : list Q) : list Q :=
  match xs, ys with
  | x :: xs', y :: ys' => (x + y) :: series_add xs' ys'
  | _, _ => []
  end.

(** [xs.clip(upper=u)] and [xs.clip(lower=l)] *)
Definition cap (u x : Q) : Q := if Qle_bool x u then x else u.

Definition clip_upper (u : Q) (xs : list Q) : list Q := map (cap u) xs.

Definition clip_lower (l : Q) (x : Q) : Q := if Qle_bool l x then x else l.

(** [fillna(0)] on a value that may be [NaN] *)
Definition fillna0 (o : option Q) : Q :=
  match o with Some x => x | None => 0 end.

(** [pd.to_numeric(c, errors='coerce')] on one cell.  How pandas reads a
    number out of text is left to [parse], which answers [None] where
    [errors='coerce'] gives [NaN]. *)
Definition to_numeric (parse : string -> option Q) (c : cell) : option Q :=
  match c with
  | Null => None
  | Num x => Some x
  | Str s => parse s
  | UInt z => Some (inject_Z z)
  end.

(** [idxmax] along a row: the label of the first largest value. *)
Fixpoint idxmax_from (best : string * Q) (l : list (string * Q)) : string :=
  match l with
  | [] => fst best
  | (name, v) :: t =>
      if Qlt_bool (snd best) v then idxmax_from (name, v) t
      else idxmax_from best t
  end.

Definition idxmax (first : string * Q) (others : list (string * Q)) : string :=
  idxmax_from first others.

(** A column of floats out of cells; [None] when a cell is not a number. *)
Fixpoint as_floats (cells : list cell) : option (list Q) :=
  match cells with
  | [] => Some []
  | Num x :: t => option_map (cons x) (as_floats t)
  | UInt z :: t => option_map (cons (inject_Z z)) (as_floats t)
  | _ :: _ => None
  end.

(** ** [score_companies] *)

(** The four raw metrics, one entry per record. *)
Record Metrics := mkMetrics {
  Funding_Amount : list Q;
  Rounds : list Q;
  Age : list Q;
  Funding_Type_Count : list Q
}.

(** Line 43.  [clip(lower=0)] binds to the founded year, before the
    subtraction.  A column of unsigned integers is left as it is by
    [to_numeric], [fillna(0)] and [clip(lower=0)], and the subtraction
    from the current year wraps around at 2^64. *)
Definition age_of (current_year : Z) (parse : string -> option Q) (c : cell)
    : Q :=
  match c with
  | UInt z => inject_Z ((current_year - z) mod 2 ^ 64)
  | _ => inject_Z current_year - clip_lower 0 (fillna0 (to_numeric parse c))
  end.

Definition Age_column (current_year : Z) (parse : string -> option Q)
    (df : DataFrame) : list Q :=
  match column df "founded_year" with
  | Some cells => map (age_of current_year parse) cells
  | None => map (fun _ => 0) (rows df)
  end.

(** Line 45: [pd.notnull(row[col]) and row[col] != 0]. *)
Definition counts_as_funding (c : cell) : bool :=
  match c with
  | Null => false
  | Num x => negb (Qeq_bool x 0)
  | Str _ => true
  | UInt z => negb (Z.eqb z 0)
  end.

Definition funding_type_count (df : DataFrame) (row : list cell) : nat :=
  List.length
    (filter (fun col =>
               match index_of col (columns df) with
               | Some i => counts_as_funding (cell_at i row)
               | None => false
               end) funding_types).

(** Line 46: [fillna(0)] on a cell. *)
Definition fillna_cell (c : cell) : cell :=
  match c with Null => Num 0 | _ => c end.

(** Lines 42 to 46, and the two columns read by lines 49 and 50.  [main]
    calls [score_companies] on frames that are not empty only.  The rank
    of line 50 orders the Rounds: text cannot be compared with the numbers
    of the column, among them the 0 that [fillna(0)] puts for a missing
    value, and [rank] raises [TypeError]; a column that is all text is
    ranked as text, which is not modelled. *)
Definition raw_metrics (current_year : Z) (parse : string -> option Q)
    (df : DataFrame) : outcome Metrics :=
  match rows df with
  | [] => Unmodelled
  | _ :: _ =>
      let age := Age_column current_year parse df in
      let ftc := map (fun r => of_nat (funding_type_count df r)) (rows df) in
      match column df "funding_rounds" with
      | None => Raise (KeyError ["funding_rounds"])
      | Some rounds_cells =>
          match column df "Funding Amount" with
          | None => Raise (KeyError ["Funding Amount"])
          | Some funding_cells =>
              match as_floats funding_cells with
              | None => Unmodelled
              | Some funding =>
                  match as_floats (map fillna_cell rounds_cells) with
                  | Some rounds =>
                      Ok {| Funding_Amount := funding; Rounds := rounds;
                            Age := age; Funding_Type_Count := ftc |}
                  | None =>
                      if existsb is_number (map fillna_cell rounds_cells)
                      then Raise TypeError
                      else Unmodelled
                  end
              end
          end
      end
  end.

(** Lines 49 to 52. *)
Definition Funding_Score (m : Metrics) : list Q :=
  series_mul (rank_pct (Funding_Amount m)) 50.

Definition Rounds_Score (m : Metrics) : list Q :=
  series_mul (rank_pct (Rounds m)) 20.

Definition Age_Score (m : Metrics) : list Q :=
  series_mul (rank_pct (Age m)) 15.

Definition Funding_Type_Score (m : Metrics) : list Q :=
  series_mul (rank_pct (Funding_Type_Count m)) 15.

(** Line 55. *)
Definition Score_column (m : Metrics) : list Q :=
  clip_upper 100
    (series_add
       (series_add (series_add (Funding_Score m) (Rounds_Score m))
          (Age_Score m))
       (Funding_Type_Score m)).

(** Line 56: [idxmax(axis=1)] over the four sub-scores in the order they
    are listed, then [.str.replace(' Score', '')]. *)
Fixpoint Top_Quality_rows (fs rs ags fts : list Q) : list string :=
  match fs, rs, ags, fts with
  | f :: fs', r :: rs', a :: ags', t :: fts' =>
      Py.replace " Score" ""
        (idxmax ("Funding Score", f)
           [("Rounds Score", r); ("Age Score", a);
            ("Funding Type Score", t)])
      :: Top_Quality_rows fs' rs' ags' fts'
  | _, _, _, _ => []
  end.

(** A sub-score as the floats of lines 49 to 52 hold it: [rank(pct=True)]
    divides the mean rank, a whole number of halves, by the number of
    records and rounds the quotient; the product with the weight is
    rounded in turn. *)
Definition float_score (w rank : Q) : Q := binary64 (binary64 rank * w).

(** [idxmax] compares the floats: sub-scores that are equal as fractions
    can differ once rounded. *)
Definition Top_Quality_column (m : Metrics) : list string :=
  Top_Quality_rows
    (map (float_score 50) (rank_pct (Funding_Amount m)))
    (map (float_score 20) (rank_pct (Rounds m)))
    (map (float_score 15) (rank_pct (Age m)))
    (map (float_score 15) (rank_pct (Funding_Type_Count m))).

(** The frame that [score_companies] returns: the columns it was given
    and the two it adds; the intermediate columns are dropped. *)
Record Scored := mkScored {
  frame : DataFrame;
  Score : list Q;
  Top_Quality : list string
}.

Definition score_companies (current_year : Z) (parse : string -> option Q)
    (df : DataFrame) : outcome Scored :=
  match raw_metrics current_year parse df with
  | Ok m => Ok {| frame := df; Score := Score_column m;
                  Top_Quality := Top_Quality_column m |}
  | Raise e => Raise e
  | Unmodelled => Unmodelled
  end.

(** Lines 82 to 87 of [main], from the frame that [read_csv] returned. *)
Definition main (current_year : Z) (parse : string -> option Q)
    (df : DataFrame) : outcome Scored :=
  match clean df with
  | Ok cleaned => score_companies current_year parse cleaned
  | Raise e => Raise e
  | Unmodelled => Unmodelled
  end.

(** ** The results table of [main] *)

(** A row of the scored frame as the rest of [main] reads it. *)
Record Lead := mkLead {
  Company_Name : string;
  Category : string;
  City : string;
  Funding : Q;
  Lead_Score : Q;
  Lead_Top_Quality : string
}.

(** The rows of a scored frame.  [str.contains] and [str.lower] read text,
    and the sort reads numbers: the answer is [None] where a Company Name,
    a Category or a City is not text or a Funding Amount is not a number,
    and where the columns differ in length. *)
Fixpoint leads_of_columns (names categories cities amounts : list cell)
    (scores : list Q) (qualities : list string) : option (list Lead) :=
  match names, categories, cities, amounts, scores, qualities with
  | Str n :: ns, Str c :: cs, Str t :: ts, Num f :: fs, s :: ss, q :: qs =>
      option_map (cons (mkLead n c t f s q))
        (leads_of_columns ns cs ts fs ss qs)
  | [], [], [], [], [], [] => Some []
  | _, _, _, _, _, _ => None
  end.

Definition leads_of (scored : Scored) : option (list Lead) :=
  match column (frame scored) "Company Name",
        column (frame scored) "Category",
        column (frame scored) "City",
        column (frame scored) "Funding Amount" with
  | Some names, Some categories, Some cities, Some amounts =>
      leads_of_columns names categories cities amounts
        (Score scored) (Top_Quality scored)
  | _, _, _, _ => None
  end.

(** Lines 98 to 100: the rows whose Category matches the selected one and
    whose City is the selected one, case being disregarded.  The match of
    [str.contains], which reads the selected category as a regular
    expression, is left to [matches]. *)
Definition selected (matches : string -> string -> bool)
    (selected_category selected_city : string) (lead : Lead) : bool :=
  matches selected_category (Category lead)
  && String.eqb (Py.lower (City lead)) (Py.lower selected_city).

(** [b] comes strictly before [a] in the order of line 101: more funding,
    or the same funding and a larger score. *)
Definition better (b a : Lead) : bool :=
  Qlt_bool (Funding a) (Funding b)
  || Qeq_bool (Funding a) (Funding b)
     && Qlt_bool (Lead_Score a) (Lead_Score b).

(** [sort_values(by=['Funding Amount', 'Score'], ascending=[False, False])]:
    the sort on several keys is stable. *)
Fixpoint insert_lead (a : Lead) (s : list Lead) : list Lead :=
  match s with
  | [] => [a]
  | b :: t => if better b a then b :: insert_lead a t else a :: s
  end.

Definition sort_leads (leads : list Lead) : list Lead :=
  fold_right insert_lead [] leads.

(** Lines 98 to 101: [filtered_df]. *)
Definition filtered (matches : string -> string -> bool)
    (selected_category selected_city : string) (leads : list Lead)
    : list Lead :=
  sort_leads (filter (selected matches selected_category selected_city) leads).

(** Line 122: [filtered_df.head(5)]. *)
Definition top5 (leads : list Lead) : list Lead := firstn 5 leads.

(** Line 149: the first row of the company that was selected. *)
Definition company_data (selected_company : string) (leads : list Lead)
    : option Lead :=
  find (fun lead => String.eqb (Company_Name lead) selected_company) leads.

(** Lines 133 to 141: the advice shown on the card of a suggestion. *)
Inductive advice := HighlyRecommended | MonitorGrowth | ProceedWithCaution.

Definition card (score : Q) : advice :=
  if Qlt_bool 80 score then HighlyRecommended
  else if Qlt_bool 50 score then MonitorGrowth
  else ProceedWithCaution.

(** ** [investigate_company] *)

(** [needle in text] *)
Fixpoint contains (needle text : string) : bool :=
  match text with
  | EmptyString => String.prefix needle text
  | String _ t => String.prefix needle text || contains needle t
  end.

(** The two conditional expressions of lines 65 and 67. *)
Definition growth_potential (score : Q) : string :=
  if Qlt_bool 80 score then "high"
  else if Qlt_bool 50 score then "moderate" else "low".

Definition sales_recommendation (score : Q) : string :=
  if Qlt_bool 80 score then "Prioritize outreach"
  else if Qlt_bool 50 score then "Nurture with follow-ups"
  else "Validate further".

(** [investigate_company].  How a float is printed by [:,.2f] and by
    [:.2f] is left to [money] and to [fixed2]. *)
Definition investigate_company (money fixed2 : Q -> string)
    (company : Lead) (query : string) : string :=
  let query := Py.lower query in
  if contains "funding" query then
    Company_Name company ++ " has a funding amount of $"
    ++ money (Funding company) ++ "."
  else if contains "growth" query then
    "Based on a score of " ++ fixed2 (Lead_Score company) ++ ", "
    ++ Company_Name company ++ " shows "
    ++ growth_potential (Lead_Score company) ++ " growth potential."
  else if contains "recommendation" query then
    "Sales recommendation: " ++ sales_recommendation (Lead_Score company)
    ++ "."
  else
    "I can help with funding, growth potential, or sales recommendations. What would you like to know?".

(** ** Vocabulary of the specification *)

(** How many entries of a column lie below, at or below, and at [x]. *)
Definition count_lt (xs : list Q) (x : Q) : nat :=
  List.length (filter (fun y => Qlt_bool y x) xs).

Definition count_le (xs : list Q) (x : Q) : nat :=
  List.length (filter (fun y => Qle_bool y x) xs).

Definition count_eq (xs : list Q) (x : Q) : nat :=
  List.length (filter (fun y => Qeq_bool y x) xs).

(** A column in ascending order. *)
Inductive sorted : list Q -> Prop :=
| sorted_nil : sorted []
| sorted_cons x s : Forall (Qle x) s -> sorted s -> sorted (x :: s).

(** The four metrics that are ranked, and their columns. *)
Inductive metric := FundingAmount | RoundsMetric | AgeMetric | FundingTypeCount.

Definition metric_column (k : metric) (m : Metrics) : list Q :=
  match k with
  | FundingAmount => Funding_Amount m
  | RoundsMetric => Rounds m
  | AgeMetric => Age m
  | FundingTypeCount => Funding_Type_Count m
  end.

(** The four weighted sub-scores in their order of precedence, with the
    names that [Top Quality] gives them. *)
Inductive quality := QFunding | QRounds | QAge | QFundingType.

Definition quality_name (q : quality) : string :=
  match q with
  | QFunding => "Funding"
  | QRounds => "Rounds"
  | QAge => "Age"
  | QFundingType => "Funding Type"
  end.

Definition precedence (q : quality) : nat :=
  match q with
  | QFunding => 0
  | QRounds => 1
  | QAge => 2
  | QFundingType => 3
  end.

(** The weighted sub-score [q] of record [i]. *)
Definition sub_score (m : Metrics) (i : nat) (q : quality) : Q :=
  match q with
  | QFunding => nth i (Funding_Score m) 0
  | QRounds => nth i (Rounds_Score m) 0
  | QAge => nth i (Age_Score m) 0
  | QFundingType => nth i (Funding_Type_Score m) 0
  end.

Definition sub_score_sum (m : Metrics) (i : nat) : Q :=
  sub_score m i QFunding + sub_score m i QRounds + sub_score m i QAge
  + sub_score m i QFundingType.

(** The weight of a sub-score and the metric that it ranks. *)
Definition weight (q : quality) : Q :=
  match q with
  | QFunding => 50
  | QRounds => 20
  | QAge => 15
  | QFundingType => 15
  end.

Definition metric_of (q : quality) : metric :=
  match q with
  | QFunding => FundingAmount
  | QRounds => RoundsMetric
  | QAge => AgeMetric
  | QFundingType => FundingTypeCount
  end.

(** The percentile rank of [x] in a column, told from the column: with [l]
    entries strictly below [x] and [c] entries at or below it,
    [(l + c + 1) / (2 n)]. *)
Definition percentile (xs : list Q) (x : Q) : Q :=
  (of_nat (count_lt xs x) + of_nat (count_le xs x) + 1)
  / (2 * of_nat (List.length xs)).

(** The percentile rank of record [i] on the metric of [q]. *)
Definition percentile_of (m : Metrics) (i : nat) (q : quality) : Q :=
  let xs := metric_column (metric_of q) m in
  percentile xs (nth i xs 0).

(** The weighted sub-score [q] of record [i] as the floats hold it. *)
Definition computed_sub_score (m : Metrics) (i : nat) (q : quality) : Q :=
  binary64 (binary64 (percentile_of m i q) * weight q).

(** [l] with [f] applied to its entry [i]. *)
Fixpoint update_nth {A : Type} (i : nat) (f : A -> A) (l : list A) : list A :=
  match l, i with
  | [], _ => []
  | a :: t, O => f a :: t
  | a :: t, S k => a :: update_nth k f t
  end.

(** The frame [df] with the Funding Amount of record [i] set to [v], and
    every other cell as it was. *)
Definition with_funding (i : nat) (v : Q) (df : DataFrame) : DataFrame :=
  match index_of "Funding Amount" (columns df) with
  | Some c =>
      {| columns := columns df;
         rows := update_nth i (set_at c (Num v)) (rows df) |}
  | None => df
  end.

(** The Funding Amount cells of a frame as [clean_data] reads them; a
    frame without the column has no value to read anywhere. *)
Definition funding_cells (df : DataFrame) : list cell :=
  match index_of "Funding Amount" (columns df) with
  | Some i => map (cell_at i) (rows df)
  | None => map (fun _ => Null) (rows df)
  end.

(** The same for the rows of a file that survive the cleaning. *)
Definition surviving_funding (df : DataFrame) : list cell :=
  funding_cells {| columns := normalized_columns df;
                   rows := surviving_rows df |}.

(** The key on which line 29 removes duplicates: the Company Name of a row
    of the file in lower case. *)
Definition name_key (df : DataFrame) (r : list cell) : option string :=
  match index_of "Company Name" (normalized_columns df) with
  | Some i => lower_key (cell_at i r)
  | None => None
  end.

(** The [funding_rounds] cells of the rows of a file that survive the
    cleaning; none when the file has no such column. *)
Definition surviving_rounds (df : DataFrame) : list cell :=
  match index_of "funding_rounds" (normalized_columns df) with
  | Some i => map (cell_at i) (surviving_rows df)
  | None => []
  end.

(** The three mandatory fields are found among the renamed labels. *)
Definition resolved (df : DataFrame) : bool :=
  forallb (fun name => mem name (normalized_columns df)) mandatory.

(** The Company Name column of the file has a numeric dtype, to which
    [.str] does not apply. *)
Definition numeric_names (df : DataFrame) : bool :=
  match column {| columns := normalized_columns df; rows := rows df |}
          "Company Name" with
  | Some names => numeric_dtype names
  | None => false
  end.

(** The Company Name column of the file is a column of text: it holds no
    number, and some text unless it is empty. *)
Definition names_are_text (df : DataFrame) : bool :=
  match column {| columns := normalized_columns df; rows := rows df |}
          "Company Name" with
  | Some names => negb (numeric_dtype names) && negb (existsb is_number names)
  | None => true
  end.

(** ** Example tables *)

(** One reading of text as numbers, used in the examples: the finite
    float literals of Python. *)
Definition float_literal (s : string) : option Q :=
  match Py.float s with
  | Py.FloatValue x => Some x
  | _ => None
  end.

(** The two companies of the example of the specification, as read from
    a file. *)
Definition acme_beta_raw : DataFrame :=
  {| columns := ["name"; "category_list"; "city"; "funding_total_usd";
                 "funding_rounds"; "founded_year"];
     rows := [ [Str "Acme"; Str "Tech"; Str "NYC"; Str "$1,000,000";
                Num 3; Num 2010];
               [Str "Beta"; Str "Tech"; Str "NYC"; Str "$500,000";
                Num 1; Num 2020] ] |}.

(** The same table once cleaned. *)
Definition acme_beta : DataFrame :=
  {| columns := ["Company Name"; "Category"; "City"; "Funding Amount";
                 "funding_rounds"; "founded_year"];
     rows := [ [Str "Acme"; Str "Tech"; Str "NYC"; Num 1000000;
                Num 3; Num 2010];
               [Str "Beta"; Str "Tech"; Str "NYC"; Num 500000;
                Num 1; Num 2020] ] |}.

(** Two companies with the same funding. *)
Definition tied_pair : DataFrame :=
  {| columns := ["Company Name"; "Category"; "City"; "Funding Amount";
                 "funding_rounds"; "founded_year"];
     rows := [ [Str "Acme"; Str "Tech"; Str "NYC"; Num 5; Num 3; Num 2010];
               [Str "Beta"; Str "Tech"; Str "NYC"; Num 5; Num 1; Num 2020] ] |}.

(** A company whose founding year lies in the future. *)
Definition founded_later : DataFrame :=
  {| columns := ["Company Name"; "Category"; "City"; "Funding Amount";
                 "funding_rounds"; "founded_year"];
     rows := [ [Str "Acme"; Str "Tech"; Str "NYC"; Num 5; Num 3; Num 3000] ] |}.

(** The two companies again, read from a file that gives no funding round
    for any of them. *)
Definition no_rounds_raw : DataFrame :=
  {| columns := ["name"; "category_list"; "city"; "funding_total_usd";
                 "funding_rounds"; "founded_year"];
     rows := [ [Str "Acme"; Str "Tech"; Str "NYC"; Str "$1,000,000";
                Null; Num 2010];
               [Str "Beta"; Str "Tech"; Str "NYC"; Str "$500,000";
                Null; Num 2020] ] |}.

(** A file with a funding that is not a number. *)
Definition unparsable_raw : DataFrame :=
  {| columns := ["name"; "category_list"; "city"; "funding_total_usd";
                 "funding_rounds"; "founded_year"];
     rows := [ [Str "Acme"; Str "Tech"; Str "NYC"; Str "unknown";
                Num 3; Num 2010] ] |}.

(** A file with the placeholder dash, and with a funding left out. *)
Definition placeholder_raw : DataFrame :=
  {| columns := ["name"; "category_list"; "city"; "funding_total_usd";
                 "funding_rounds"; "founded_year"];
     rows := [ [Str "Acme"; Str "Tech"; Str "NYC"; Str " - "; Num 3; Num 2010];
               [Str "Beta"; Str "Tech"; Str "NYC"; Null; Num 1; Num 2020];
               [Str "Gamma"; Str "Tech"; Str "NYC"; Str "$1,000,000";
                Num 2; Num 2015] ] |}.

(** The two companies with their funding counted in thousands. *)
Definition acme_beta_thousands : DataFrame :=
  {| columns := ["Company Name"; "Category"; "City"; "Funding Amount";
                 "funding_rounds"; "founded_year"];
     rows := [ [Str "Acme"; Str "Tech"; Str "NYC"; Num 1000; Num 3; Num 2010];
               [Str "Beta"; Str "Tech"; Str "NYC"; Num 500; Num 1; Num 2020] ] |}.


(** Three companies of which the first has the least funding and, with
    the second, the most funding rounds. *)
Definition rounded_tie : DataFrame :=
  {| columns := ["Company Name"; "Category"; "City"; "Funding Amount";
                 "funding_rounds"; "founded_year"];
     rows := [ [Str "Acme"; Str "Tech"; Str "NYC"; Num 1; Num 5; Num 2010];
               [Str "Beta"; Str "Tech"; Str "NYC"; Num 2; Num 5; Num 2010];
               [Str "Gamma"; Str "Tech"; Str "NYC"; Num 3; Num 1; Num 2010] ] |}.

(** A file that gives the funding rounds of one company in words and
    those of the other not at all. *)
Definition worded_rounds_raw : DataFrame :=
  {| columns := ["name"; "category_list"; "city"; "funding_total_usd";
                 "funding_rounds"; "founded_year"];
     rows := [ [Str "Acme"; Str "Tech"; Str "NYC"; Str "$1,000,000";
                Str "three"; Num 2010];
               [Str "Beta"; Str "Tech"; Str "NYC"; Str "$500,000";
                Null; Num 2020] ] |}.

(** Two companies whose founded years make a column of unsigned
    integers: 0 and 2^63. *)
Definition unsigned_years : DataFrame :=
  {| columns := ["Company Name"; "Category"; "City"; "Funding Amount";
                 "funding_rounds"; "founded_year"];
     rows := [ [Str "Acme"; Str "Tech"; Str "NYC"; Num 5; Num 3; UInt 0];
               [Str "Beta"; Str "Tech"; Str "NYC"; Num 7; Num 1;
                UInt 9223372036854775808] ] |}.

(** The sum of a column. *)
Definition total (xs : list Q) : Q := fold_right Qplus 0 xs.

(** A map of floats that keeps their order. *)
Definition increasing (f : Q -> Q) : Prop :=
  (forall a b, a == b -> f a == f b) /\ (forall a b, a < b -> f a < f b).

(** [a] may stand before [b] in the results table: [b] has no more
    funding than [a] and, with the same funding, no larger score. *)
Definition in_order (a b : Lead) : Prop :=
  Funding b <= Funding a
  /\ (Funding b == Funding a -> Lead_Score b <= Lead_Score a).

(** One reading of [str.contains(..., case=False)], used in the examples:
    a pattern without special characters, found as it is written. *)
Definition contains_ignoring_case (pattern text : string) : bool :=
  contains (Py.lower pattern) (Py.lower text).

(** Six scored companies of one city. *)
Definition six_leads : list Lead :=
  [ mkLead "Acme" "Tech" "NYC" 300 70 "Funding";
    mkLead "Beta" "Tech" "nyc" 500 90 "Funding";
    mkLead "Gamma" "Biotech" "NYC" 100 40 "Age";
    mkLead "Delta" "FinTech" "NYC" 500 95 "Rounds";
    mkLead "Epsilon" "Tech" "Nyc" 200 55 "Funding";
    mkLead "Zeta" "EdTech" "NYC" 50 30 "Age";
    mkLead "Eta" "Tech" "Boston" 900 99 "Funding";
    mkLead "Theta" "AdTech" "NYC" 400 60 "Funding" ].

(** * Properties *)

(** ** The embedding at work *)

Example float_decimal : Py.float " 12.50 " = Py.FloatValue (25 # 2).
Proof. reflexivity. Qed.

Example float_exponent : Py.float "-1_250.0e-2" = Py.FloatValue (- (25 # 2)).
Proof. reflexivity. Qed.

Example float_separator : Py.float "1,000" = Py.FloatValueError.
Proof. reflexivity. Qed.

Example float_underscores : Py.float "1__0" = Py.FloatValueError.
Proof. reflexivity. Qed.

Example float_word : Py.float "+Infinity" = Py.FloatNonFinite.
Proof. reflexivity. Qed.

Example float_rounded :
  Py.float "0.1" = Py.FloatValue (3602879701896397 # 36028797018963968)
  /\ Py.float "10000000000000001" = Py.FloatValue 10000000000000000.
Proof. split; reflexivity. Qed.

Example float_overflow : Py.float "1e400" = Py.FloatNonFinite.
Proof. reflexivity. Qed.

Example funding_text_currency : funding_text "$1,000,000" = "1000000".
Proof. reflexivity. Qed.

Example funding_text_dash : funding_text " - " = "0".
Proof. reflexivity. Qed.

(** Every mandatory field that is not found is named by the error. *)
Example clean_missing_fields :
  clean_data {| columns := ["name"; "funding_total_usd"];
                rows := [ [Str "Acme"; Str "$5"] ] |}
  = Raise (KeyError ["Category"; "City"]).
Proof. reflexivity. Qed.

Example clean_acme_beta : clean_data acme_beta_raw = Ok acme_beta.
Proof. reflexivity. Qed.

(** [Acme] and [ACME] are one company: the first row is kept. *)
Example clean_duplicate :
  clean_data
    {| columns := [" name "; "category_list"; "city"];
       rows := [ [Str "Acme"; Str "Tech"; Str "NYC"];
                 [Str "ACME"; Str "Media"; Str "Paris"];
                 [Str "Beta"; Null; Str "NYC"] ] |}
  = Ok {| columns := ["Company Name"; "Category"; "City"; "Funding Amount"];
          rows := [ [Str "Acme"; Str "Tech"; Str "NYC"; Num 0] ] |}.
Proof. reflexivity. Qed.

Example score_acme_beta :
  score_companies 2026 float_literal acme_beta
  = Ok {| frame := acme_beta;
          Score := [3080 # 32; 1720 # 32];
          Top_Quality := ["Funding"; "Funding"] |}.
Proof. reflexivity. Qed.

(** A single record is at the top of every metric. *)
Example rank_of_worded_rounds :
  main 2026 float_literal worded_rounds_raw = Raise TypeError.
Proof. vm_compute. reflexivity. Qed.

Example age_of_unsigned_years :
  exists m,
    raw_metrics 2026 float_literal unsigned_years = Ok m
    /\ Age m = [2026; 9223372036854777834].
Proof. eexists. split; vm_compute; reflexivity. Qed.

Example score_single :
  match score_companies 2026 float_literal founded_later with
  | Ok out => Score out = [100 # 1] /\ Top_Quality out = ["Funding"]
  | _ => False
  end.
Proof. split; reflexivity. Qed.

(** ** Counting in [Q] *)

Lemma of_nat_plus (a b : nat) : of_nat (a + b) == of_nat a + of_nat b.
Proof.
  unfold of_nat. rewrite Nat2Z.inj_add, inject_Z_plus. reflexivity.
Qed.

Lemma of_nat_mult (a b : nat) : of_nat (a * b) == of_nat a * of_nat b.
Proof.
  unfold of_nat. rewrite Nat2Z.inj_mul, inject_Z_mult. reflexivity.
Qed.

Lemma of_nat_le (a b : nat) : (a <= b)%nat -> of_nat a <= of_nat b.
Proof.
  intros H. unfold of_nat. rewrite <- Zle_Qle. lia.
Qed.

Lemma of_nat_pos (a : nat) : (0 < a)%nat -> 0 < of_nat a.
Proof.
  intros H. unfold of_nat. change 0 with (inject_Z 0).
  rewrite <- Zlt_Qlt. lia.
Qed.

Lemma of_nat_nonneg (a : nat) : 0 <= of_nat a.
Proof.
  unfold of_nat. change 0 with (inject_Z 0). rewrite <- Zle_Qle. lia.
Qed.

Lemma Qlt_bool_iff (x y : Q) : Qlt_bool x y = true <-> x < y.
Proof.
  unfold Qlt_bool. rewrite negb_true_iff.
  destruct (Qle_bool y x) eqn:E.
  - apply Qle_bool_iff in E. split; [discriminate | intros H; lra].
  - split; [intros _ | reflexivity].
    apply Qnot_le_lt. intros H. apply Qle_bool_iff in H. congruence.
Qed.

Lemma Qle_bool_false (x y : Q) : Qle_bool x y = false <-> y < x.
Proof.
  rewrite <- Qlt_bool_iff. unfold Qlt_bool.
  destruct (Qle_bool x y); simpl; split; congruence.
Qed.

Lemma Qlt_bool_false (x y : Q) : Qlt_bool x y = false <-> y <= x.
Proof.
  unfold Qlt_bool. rewrite negb_false_iff. apply Qle_bool_iff.
Qed.

(** Boolean comparisons among the hypotheses, read as propositions. *)
Ltac reflect_Q :=
  repeat match goal with
    | H : Qle_bool _ _ = true |- _ => apply Qle_bool_iff in H
    | H : Qle_bool _ _ = false |- _ => apply Qle_bool_false in H
    | H : Qlt_bool _ _ = true |- _ => apply Qlt_bool_iff in H
    | H : Qlt_bool _ _ = false |- _ => apply Qlt_bool_false in H
    | H : Qeq_bool _ _ = true |- _ => apply Qeq_bool_iff in H
    | H : Qeq_bool _ _ = false |- _ => apply Qeq_bool_neq in H
    end.

Ltac absurd_Q :=
  exfalso; reflect_Q;
  first [ lra
        | match goal with H : ~ _ == _ |- _ => apply H; lra end ].

(** ** Sorting *)

Lemma insert_sorted_Forall (P : Q -> Prop) x s :
  P x -> Forall P s -> Forall P (insert_sorted x s).
Proof.
  intros Hx Hs. induction Hs as [|y t Hy Ht IH]; simpl.
  - constructor; [exact Hx | constructor].
  - destruct (Qle_bool x y); repeat constructor; assumption.
Qed.

Lemma insert_sorted_sorted x s : sorted s -> sorted (insert_sorted x s).
Proof.
  induction 1 as [|y t Hy Ht IH]; simpl.
  - repeat constructor.
  - destruct (Qle_bool x y) eqn:E.
    + apply Qle_bool_iff in E. constructor.
      * constructor; [exact E |].
        eapply Forall_impl; [| exact Hy]. intros z Hz. lra.
      * constructor; assumption.
    + apply Qle_bool_false in E. constructor.
      * apply insert_sorted_Forall; [lra | exact Hy].
      * exact IH.
Qed.

Lemma sort_values_sorted xs : sorted (sort_values xs).
Proof.
  induction xs as [|x xs IH]; simpl.
  - constructor.
  - apply insert_sorted_sorted, IH.
Qed.

Lemma filter_insert_sorted (f : Q -> bool) x s :
  List.length (filter f (insert_sorted x s)) = List.length (filter f (x :: s)).
Proof.
  induction s as [|y t IH]; simpl; [reflexivity |].
  destruct (Qle_bool x y); simpl; [reflexivity |].
  simpl in IH. destruct (f y), (f x); simpl in *; lia.
Qed.

Lemma filter_sort_values (f : Q -> bool) xs :
  List.length (filter f (sort_values xs)) = List.length (filter f xs).
Proof.
  induction xs as [|x xs IH]; simpl; [reflexivity |].
  rewrite filter_insert_sorted. simpl. destruct (f x); simpl; lia.
Qed.

Lemma count_lt_sort xs x : count_lt (sort_values xs) x = count_lt xs x.
Proof. apply filter_sort_values. Qed.

Lemma count_eq_sort xs x : count_eq (sort_values xs) x = count_eq xs x.
Proof. apply filter_sort_values. Qed.

(** ** Ranks and counts *)

Lemma count_le_split xs x : count_le xs x = (count_lt xs x + count_eq xs x)%nat.
Proof.
  unfold count_le, count_lt, count_eq.
  induction xs as [|y t IH]; simpl; [reflexivity |].
  destruct (Qle_bool y x) eqn:Hle, (Qlt_bool y x) eqn:Hlt,
    (Qeq_bool y x) eqn:Heq; simpl; try lia; absurd_Q.
Qed.

Lemma count_bound xs x : (count_lt xs x + count_eq xs x <= List.length xs)%nat.
Proof.
  rewrite <- count_le_split. unfold count_le. apply filter_length_le.
Qed.

Lemma count_eq_pos xs x : In x xs -> (0 < count_eq xs x)%nat.
Proof.
  unfold count_eq. induction xs as [|y t IH]; simpl; [tauto |].
  intros [-> | H].
  - rewrite (proj2 (Qeq_bool_iff x x) (Qeq_refl x)). simpl. lia.
  - destruct (Qeq_bool y x); simpl; [lia | auto].
Qed.

Lemma filter_length_ext (f g : Q -> bool) xs :
  (forall y, f y = g y) ->
  List.length (filter f xs) = List.length (filter g xs).
Proof.
  intros E. induction xs as [|y t IH]; simpl; [reflexivity |].
  rewrite E. destruct (g y); simpl; congruence.
Qed.

Lemma Qle_bool_compat_l x y z : x == y -> Qle_bool x z = Qle_bool y z.
Proof.
  intros E. destruct (Qle_bool y z) eqn:H.
  - apply Qle_bool_iff in H. apply Qle_bool_iff. lra.
  - apply Qle_bool_false in H. apply Qle_bool_false. lra.
Qed.

Lemma Qeq_bool_compat_r x y z : x == y -> Qeq_bool z x = Qeq_bool z y.
Proof.
  intros E. destruct (Qeq_bool z y) eqn:H.
  - apply Qeq_bool_iff in H. apply Qeq_bool_iff. lra.
  - apply Qeq_bool_neq in H. destruct (Qeq_bool z x) eqn:H'; [| reflexivity].
    apply Qeq_bool_iff in H'. exfalso. apply H. lra.
Qed.

Lemma count_lt_compat xs x y : x == y -> count_lt xs x = count_lt xs y.
Proof.
  intros E. apply filter_length_ext. intros z. unfold Qlt_bool.
  now rewrite (Qle_bool_compat_l x y z E).
Qed.

Lemma count_eq_compat xs x y : x == y -> count_eq xs x = count_eq xs y.
Proof.
  intros E. apply filter_length_ext. intros z. now apply Qeq_bool_compat_r.
Qed.

Lemma count_le_compat xs x y : x == y -> count_le xs x = count_le xs y.
Proof.
  intros E. rewrite !count_le_split.
  now rewrite (count_lt_compat xs x y E), (count_eq_compat xs x y E).
Qed.

(** Above a tie nothing is smaller, and below a larger head nothing ties. *)
Lemma count_lt_above x y s : y == x -> Forall (Qle y) s -> count_lt s x = 0%nat.
Proof.
  intros E H. unfold count_lt. induction H as [|z t Hz Ht IH]; simpl.
  - reflexivity.
  - destruct (Qlt_bool z x) eqn:Hlt; [| exact IH].
    apply Qlt_bool_iff in Hlt. lra.
Qed.

Lemma count_eq_above x y s : x < y -> Forall (Qle y) s -> count_eq s x = 0%nat.
Proof.
  intros E H. unfold count_eq. induction H as [|z t Hz Ht IH]; simpl.
  - reflexivity.
  - destruct (Qeq_bool z x) eqn:Heq; [| exact IH].
    apply Qeq_bool_iff in Heq. lra.
Qed.

Lemma tie_ranks_length x k s : List.length (tie_ranks x k s) = count_eq s x.
Proof.
  unfold count_eq. revert k. induction s as [|y t IH]; intros k; simpl.
  - reflexivity.
  - destruct (Qeq_bool y x); simpl; now rewrite IH.
Qed.

(** In a sorted column the entries tied at [x] occupy the ranks that
    follow the entries below [x]. *)
Lemma tie_ranks_sum x s :
  sorted s ->
  forall k,
    (2 * list_sum (tie_ranks x k s) + count_eq s x
     = count_eq s x * (2 * k + 2 * count_lt s x + count_eq s x))%nat.
Proof.
  induction 1 as [|y t Hy Ht IH]; intros k.
  - reflexivity.
  - specialize (IH (S k)). simpl tie_ranks.
    destruct (Qeq_bool y x) eqn:Heq.
    + apply Qeq_bool_iff in Heq.
      assert (L0 : count_lt t x = 0%nat) by (eapply count_lt_above; eauto).
      assert (L1 : count_lt (y :: t) x = 0%nat).
      { unfold count_lt in *. simpl.
        destruct (Qlt_bool y x) eqn:Hlt; [| exact L0].
        apply Qlt_bool_iff in Hlt. lra. }
      assert (E1 : count_eq (y :: t) x = S (count_eq t x)).
      { unfold count_eq. simpl.
        now rewrite (proj2 (Qeq_bool_iff y x) Heq). }
      rewrite L1, E1. rewrite L0 in IH. simpl list_sum. nia.
    + apply Qeq_bool_neq in Heq.
      assert (E1 : count_eq (y :: t) x = count_eq t x).
      { unfold count_eq. simpl. destruct (Qeq_bool y x) eqn:H'; [| reflexivity].
        apply Qeq_bool_iff in H'. contradiction. }
      rewrite E1.
      destruct (Qlt_bool y x) eqn:Hlt.
      * assert (L1 : count_lt (y :: t) x = S (count_lt t x)).
        { unfold count_lt. simpl. now rewrite Hlt. }
        rewrite L1. nia.
      * assert (Hgt : x < y).
        { unfold Qlt_bool in Hlt. apply negb_false_iff, Qle_bool_iff in Hlt.
          destruct (Qlt_le_dec x y) as [G | G]; [exact G |].
          exfalso. apply Heq. lra. }
        assert (E0 : count_eq t x = 0%nat) by (eapply count_eq_above; eauto).
        rewrite E0 in *. lia.
Qed.

(** The average rank in terms of counts: the entries below [x], plus the
    middle of the block of entries tied at [x]. *)
Lemma rank_average_counts xs x :
  In x xs ->
  rank_average xs x == (of_nat (count_lt xs x) + of_nat (count_le xs x) + 1) / 2.
Proof.
  intros Hin. unfold rank_average.
  rewrite tie_ranks_length, count_eq_sort.
  pose proof (tie_ranks_sum x (sort_values xs) (sort_values_sorted xs) 1%nat)
    as H.
  rewrite count_eq_sort, count_lt_sort in H.
  rewrite count_le_split.
  pose proof (count_eq_pos xs x Hin) as Hpos.
  set (s := list_sum _) in *.
  set (e := count_eq xs x) in *. set (l := count_lt xs x) in *.
  assert (HQ : 2 * of_nat s + of_nat e
               == of_nat e * (2 + 2 * of_nat l + of_nat e)).
  { assert (E2 : of_nat 2 == 2) by reflexivity.
    assert (E1 : of_nat 1 == 1) by reflexivity.
    rewrite <- E2. rewrite <- !of_nat_mult, <- !of_nat_plus, <- of_nat_mult.
    rewrite H. replace (2 * 1)%nat with 2%nat by reflexivity. reflexivity. }
  apply of_nat_pos in Hpos. rewrite of_nat_plus.
  field_simplify_eq; [| lra]. lra.
Qed.

(** ** Columns *)

Lemma length_rank_pct xs : List.length (rank_pct xs) = List.length xs.
Proof. apply length_map. Qed.

Lemma length_series_mul xs w : List.length (series_mul xs w) = List.length xs.
Proof. apply length_map. Qed.

Lemma length_series_add xs ys :
  List.length xs = List.length ys -> List.length (series_add xs ys) = List.length xs.
Proof.
  revert ys. induction xs as [|x t IH]; intros [|y u] H; simpl in *;
    try congruence.
  f_equal. apply IH. congruence.
Qed.

Lemma nth_map_in {A} (f : A -> Q) (l : list A) (d : A) i :
  (i < List.length l)%nat -> nth i (map f l) 0 = f (nth i l d).
Proof.
  intros H. rewrite (nth_indep _ 0 (f d)) by (now rewrite length_map).
  apply map_nth.
Qed.

Lemma nth_series_add xs ys i :
  (i < List.length xs)%nat -> (i < List.length ys)%nat ->
  nth i (series_add xs ys) 0 = nth i xs 0 + nth i ys 0.
Proof.
  revert ys i. induction xs as [|x t IH]; intros [|y u] [|i] Hx Hy;
    simpl in *; try lia; [reflexivity |].
  apply IH; lia.
Qed.

Lemma nth_rank_pct xs i :
  (i < List.length xs)%nat ->
  nth i (rank_pct xs) 0
  = rank_average xs (nth i xs 0) / of_nat (List.length xs).
Proof.
  intros H. unfold rank_pct. now rewrite (nth_map_in _ xs 0 i H).
Qed.

(** The percentile rank of an entry, by counting. *)
Lemma rank_pct_counts xs i :
  (i < List.length xs)%nat ->
  nth i (rank_pct xs) 0
  == (of_nat (count_lt xs (nth i xs 0)) + of_nat (count_le xs (nth i xs 0)) + 1)
     / (2 * of_nat (List.length xs)).
Proof.
  intros H. rewrite nth_rank_pct by exact H.
  rewrite rank_average_counts by (now apply nth_In).
  assert (0 < of_nat (List.length xs)) by (apply of_nat_pos; lia).
  field. lra.
Qed.

Lemma rank_pct_bounds xs i :
  (i < List.length xs)%nat ->
  1 / of_nat (List.length xs) <= nth i (rank_pct xs) 0 <= 1.
Proof.
  intros H. rewrite rank_pct_counts by exact H.
  set (x := nth i xs 0).
  assert (Hin : In x xs) by (now apply nth_In).
  pose proof (count_eq_pos xs x Hin) as He.
  pose proof (count_bound xs x) as Hb.
  rewrite count_le_split, of_nat_plus.
  assert (Hn : 0 < of_nat (List.length xs)) by (apply of_nat_pos; lia).
  assert (H1 : 1 <= of_nat (count_eq xs x)).
  { change 1 with (of_nat 1). apply of_nat_le. lia. }
  assert (H2 : of_nat (count_lt xs x) + of_nat (count_eq xs x)
               <= of_nat (List.length xs)).
  { rewrite <- of_nat_plus. now apply of_nat_le. }
  pose proof (of_nat_nonneg (count_lt xs x)) as H3.
  split.
  - apply Qle_shift_div_l; [lra |].
    setoid_replace (1 / of_nat (List.length xs) * (2 * of_nat (List.length xs)))
      with 2 by (field; lra).
    lra.
  - apply Qle_shift_div_r; lra.
Qed.

Lemma rank_pct_pos xs i :
  (i < List.length xs)%nat -> 0 < nth i (rank_pct xs) 0.
Proof.
  intros H. destruct (rank_pct_bounds xs i H) as [L _].
  assert (Hn : 0 < of_nat (List.length xs)) by (apply of_nat_pos; lia).
  eapply Qlt_le_trans; [| exact L].
  apply Qlt_shift_div_l; lra.
Qed.

Lemma rank_pct_ties xs i j :
  (i < List.length xs)%nat -> (j < List.length xs)%nat ->
  nth j xs 0 == nth i xs 0 ->
  nth j (rank_pct xs) 0 == nth i (rank_pct xs) 0.
Proof.
  intros Hi Hj E. rewrite !rank_pct_counts by assumption.
  now rewrite (count_lt_compat xs _ _ E), (count_le_compat xs _ _ E).
Qed.

Lemma nth_weighted xs w i :
  (i < List.length xs)%nat ->
  nth i (series_mul (rank_pct xs) w) 0 = nth i (rank_pct xs) 0 * w.
Proof.
  intros H. unfold series_mul.
  now rewrite (nth_map_in _ (rank_pct xs) 0 i) by (now rewrite length_rank_pct).
Qed.

Lemma weighted_bounds xs w i :
  (i < List.length xs)%nat -> 0 < w ->
  0 < nth i (series_mul (rank_pct xs) w) 0 <= w.
Proof.
  intros H Hw. rewrite nth_weighted by exact H.
  pose proof (rank_pct_pos xs i H). destruct (rank_pct_bounds xs i H) as [_ U].
  split; nra.
Qed.

(** ** What [raw_metrics] returns *)

Lemma as_floats_length cells l :
  as_floats cells = Some l -> List.length l = List.length cells.
Proof.
  revert l. induction cells as [|c t IH]; simpl; intros l H.
  - now inversion H.
  - destruct c; try discriminate;
      destruct (as_floats t) as [l'|]; simpl in H; inversion H; subst;
      simpl; f_equal; now apply IH.
Qed.

Lemma column_length df name cells :
  column df name = Some cells -> List.length cells = List.length (rows df).
Proof.
  unfold column. destruct (index_of name (columns df)); simpl; intros H;
    inversion H. apply length_map.
Qed.

Lemma Age_column_length y parse df :
  List.length (Age_column y parse df) = List.length (rows df).
Proof.
  unfold Age_column. destruct (column df "founded_year") eqn:E.
  - rewrite length_map. now apply column_length in E.
  - apply length_map.
Qed.

Lemma raw_metrics_lengths y parse df m :
  raw_metrics y parse df = Ok m ->
  forall k, List.length (metric_column k m) = List.length (rows df).
Proof.
  unfold raw_metrics. destruct (rows df) as [|r0 rs] eqn:R; [discriminate |].
  destruct (column df "funding_rounds") as [rc|] eqn:C1; [| discriminate].
  destruct (column df "Funding Amount") as [fc|] eqn:C2; [| discriminate].
  destruct (as_floats fc) as [fl|] eqn:F1; [| discriminate].
  destruct (as_floats (map fillna_cell rc)) as [rl|] eqn:F2;
    [| destruct (existsb _ _); discriminate].
  intros H. inversion H; subst; clear H. rewrite <- R.
  intros [ | | | ]; simpl.
  - apply as_floats_length in F1. apply column_length in C2. congruence.
  - apply as_floats_length in F2. apply column_length in C1.
    rewrite length_map in F2. congruence.
  - apply Age_column_length.
  - rewrite R. simpl. now rewrite length_map.
Qed.

Lemma raw_metrics_nonempty y parse df m :
  raw_metrics y parse df = Ok m -> (0 < List.length (rows df))%nat.
Proof.
  unfold raw_metrics. destruct (rows df); [discriminate | simpl; lia].
Qed.

Lemma score_companies_Ok y parse df out :
  score_companies y parse df = Ok out ->
  exists m, raw_metrics y parse df = Ok m
            /\ Score out = Score_column m
            /\ Top_Quality out = Top_Quality_column m.
Proof.
  unfold score_companies.
  destruct (raw_metrics y parse df) as [m| |]; try discriminate.
  intros H. inversion H; subst. exists m. auto.
Qed.

(** ** Percentile ranks *)

(** C1, as amended.  For each of the four metrics, the percentile rank of
    a record is the mean of the ranks that the records tied with it occupy
    in sorted order, divided by the number of records: with [l] records
    strictly below its value and [c] records at or below it, the rank is
    [(l + c + 1) / (2 n)].  It lies in (0, 1], tied records share it, and
    it is [c / n] for a record that is tied with no other. *)
Theorem C1_percentile_rank_average y parse df m k i :
  raw_metrics y parse df = Ok m ->
  (i < List.length (rows df))%nat ->
  let xs := metric_column k m in
  let n := List.length (rows df) in
  let r := nth i (rank_pct xs) 0 in
  r == (of_nat (count_lt xs (nth i xs 0)) + of_nat (count_le xs (nth i xs 0)) + 1)
       / (2 * of_nat n)
  /\ 0 < r <= 1
  /\ (forall j, (j < n)%nat -> nth j xs 0 == nth i xs 0 ->
                nth j (rank_pct xs) 0 == r)
  /\ (count_eq xs (nth i xs 0) = 1%nat ->
      r == of_nat (count_le xs (nth i xs 0)) / of_nat n).
Proof.
  intros Hm Hi xs n r.
  pose proof (raw_metrics_lengths y parse df m Hm k) as Hlen.
  fold xs in Hlen. fold n in Hlen.
  assert (Hi' : (i < List.length xs)%nat) by lia.
  assert (Hr : r == (of_nat (count_lt xs (nth i xs 0))
                     + of_nat (count_le xs (nth i xs 0)) + 1) / (2 * of_nat n)).
  { unfold r. rewrite <- Hlen. now apply rank_pct_counts. }
  split; [exact Hr |]. split; [| split].
  - split; [now apply rank_pct_pos | now apply rank_pct_bounds].
  - intros j Hj E. apply rank_pct_ties; [exact Hi' | lia | exact E].
  - intros H1. rewrite Hr. rewrite count_le_split, H1, of_nat_plus.
    assert (0 < of_nat n) by (apply of_nat_pos; lia).
    change (of_nat 1) with 1. field. lra.
Qed.

(** The Funding Amount rank of Acme among the two companies of the example. *)
Lemma C1_percentile_rank_average_witness :
  let xs := metric_column FundingAmount
              {| Funding_Amount := [1000000; 500000]; Rounds := [3; 1];
                 Age := [16; 6]; Funding_Type_Count := [0; 0] |} in
  nth 0 (rank_pct xs) 0
  == (of_nat (count_lt xs (nth 0 xs 0)) + of_nat (count_le xs (nth 0 xs 0)) + 1)
     / (2 * of_nat (List.length (rows acme_beta))).
Proof.
  intros xs.
  refine (proj1 (C1_percentile_rank_average 2026 float_literal acme_beta
                   _ FundingAmount 0%nat _ _)).
  - reflexivity.
  - simpl. lia.
Defined.

(** C1 as stated fails on ties: of two records with the same funding, each
    has percentile rank 3/4, while both records are at or below its value
    and the claim gives 2/2. *)
Lemma C1_tied_rank_counterexample :
  exists m,
    raw_metrics 2026 float_literal tied_pair = Ok m
    /\ nth 0 (rank_pct (metric_column FundingAmount m)) 0 == 3 # 4
    /\ ~ nth 0 (rank_pct (metric_column FundingAmount m)) 0
         == of_nat (count_le (metric_column FundingAmount m)
                      (nth 0 (metric_column FundingAmount m) 0))
            / of_nat (List.length (rows tied_pair)).
Proof.
  eexists. split; [reflexivity |]. split.
  - reflexivity.
  - intros H. vm_compute in H. discriminate.
Qed.

(** ** The composite score *)

Section Scoring.

Variable current_year : Z.
Variable parse : string -> option Q.
Variable df : DataFrame.
Variable m : Metrics.
Hypothesis metrics : raw_metrics current_year parse df = Ok m.

Let n := List.length (rows df).

Lemma metric_length k : List.length (metric_column k m) = n.
Proof. exact (raw_metrics_lengths _ _ _ _ metrics k). Qed.

Lemma sub_score_weighted i q :
  (i < n)%nat ->
  sub_score m i q
  = match q with
    | QFunding => nth i (rank_pct (Funding_Amount m)) 0 * 50
    | QRounds => nth i (rank_pct (Rounds m)) 0 * 20
    | QAge => nth i (rank_pct (Age m)) 0 * 15
    | QFundingType => nth i (rank_pct (Funding_Type_Count m)) 0 * 15
    end.
Proof.
  intros Hi.
  pose proof (metric_length FundingAmount). pose proof (metric_length RoundsMetric).
  pose proof (metric_length AgeMetric).
  pose proof (metric_length FundingTypeCount). simpl in *.
  destruct q; simpl; unfold Funding_Score, Rounds_Score, Age_Score,
    Funding_Type_Score; apply nth_weighted; lia.
Qed.

Lemma sub_score_bounds i :
  (i < n)%nat ->
  0 < sub_score m i QFunding <= 50 /\ 0 < sub_score m i QRounds <= 20
  /\ 0 < sub_score m i QAge <= 15 /\ 0 < sub_score m i QFundingType <= 15.
Proof.
  intros Hi.
  pose proof (metric_length FundingAmount). pose proof (metric_length RoundsMetric).
  pose proof (metric_length AgeMetric).
  pose proof (metric_length FundingTypeCount). simpl in *.
  unfold sub_score, Funding_Score, Rounds_Score, Age_Score, Funding_Type_Score.
  repeat split; apply weighted_bounds; solve [lia | reflexivity].
Qed.

Lemma sub_score_lengths :
  List.length (Funding_Score m) = n /\ List.length (Rounds_Score m) = n
  /\ List.length (Age_Score m) = n /\ List.length (Funding_Type_Score m) = n.
Proof.
  pose proof (metric_length FundingAmount). pose proof (metric_length RoundsMetric).
  pose proof (metric_length AgeMetric).
  pose proof (metric_length FundingTypeCount). simpl in *.
  unfold Funding_Score, Rounds_Score, Age_Score, Funding_Type_Score.
  now rewrite !length_series_mul, !length_rank_pct.
Qed.

Lemma partial_sum_lengths :
  List.length (series_add (Funding_Score m) (Rounds_Score m)) = n
  /\ List.length (series_add (series_add (Funding_Score m) (Rounds_Score m))
                    (Age_Score m)) = n
  /\ List.length (series_add (series_add (series_add (Funding_Score m) (Rounds_Score m))
                          (Age_Score m)) (Funding_Type_Score m)) = n.
Proof.
  destruct sub_score_lengths as (H1 & H2 & H3 & H4).
  assert (L1 : List.length (series_add (Funding_Score m) (Rounds_Score m)) = n)
    by (rewrite length_series_add; congruence).
  assert (L2 : List.length (series_add (series_add (Funding_Score m) (Rounds_Score m))
                              (Age_Score m)) = n)
    by (rewrite length_series_add; congruence).
  repeat split; try assumption. rewrite length_series_add; congruence.
Qed.

Lemma Score_column_length : List.length (Score_column m) = n.
Proof.
  destruct partial_sum_lengths as (_ & _ & L3).
  unfold Score_column, clip_upper. now rewrite length_map.
Qed.

Lemma nth_Score_column i :
  (i < n)%nat -> nth i (Score_column m) 0 = cap 100 (sub_score_sum m i).
Proof.
  intros Hi. destruct sub_score_lengths as (H1 & H2 & H3 & H4).
  destruct partial_sum_lengths as (L1 & L2 & L3).
  unfold Score_column, clip_upper.
  rewrite (nth_map_in _ _ 0 i) by lia.
  rewrite nth_series_add by lia. rewrite nth_series_add by lia. rewrite nth_series_add by lia.
  reflexivity.
Qed.

End Scoring.

Lemma percentile_of_rank y parse df m i q :
  raw_metrics y parse df = Ok m ->
  (i < List.length (rows df))%nat ->
  percentile_of m i q == nth i (rank_pct (metric_column (metric_of q) m)) 0.
Proof.
  intros Hm Hi. unfold percentile_of, percentile. symmetry.
  apply rank_pct_counts.
  now rewrite (raw_metrics_lengths _ _ _ _ Hm).
Qed.

Lemma sub_score_percentile y parse df m i q :
  raw_metrics y parse df = Ok m ->
  (i < List.length (rows df))%nat ->
  sub_score m i q == weight q * percentile_of m i q.
Proof.
  intros Hm Hi. rewrite (sub_score_weighted y parse df m Hm i q Hi).
  rewrite (percentile_of_rank y parse df m i q Hm Hi).
  destruct q; simpl; ring.
Qed.

Lemma cap_compat u x x' : x == x' -> cap u x == cap u x'.
Proof.
  intros E. unfold cap.
  destruct (Qle_bool x u) eqn:A; destruct (Qle_bool x' u) eqn:B;
    reflect_Q; lra.
Qed.

(** C4.  The score of every record is the sum of its four weighted
    percentile sub-scores capped at 100: 50 times the percentile rank of
    its Funding Amount, 20 times that of its Rounds, 15 times that of its
    Age and 15 times that of its Funding Type Count, where the percentile
    rank of a value with [l] records strictly below and [c] records at or
    below is [(l + c + 1) / (2 n)].  It lies between 0 and 100. *)
Theorem C4_score_capped_sum_in_range y parse df out :
  score_companies y parse df = Ok out ->
  exists m,
    raw_metrics y parse df = Ok m
    /\ List.length (Score out) = List.length (rows df)
    /\ forall i, (i < List.length (rows df))%nat ->
         nth i (Score out) 0 = cap 100 (sub_score_sum m i)
         /\ (forall q, sub_score m i q == weight q * percentile_of m i q)
         /\ nth i (Score out) 0
            == cap 100 (50 * percentile_of m i QFunding
                        + 20 * percentile_of m i QRounds
                        + 15 * percentile_of m i QAge
                        + 15 * percentile_of m i QFundingType)
         /\ 0 <= nth i (Score out) 0 <= 100.
Proof.
  intros H. destruct (score_companies_Ok _ _ _ _ H) as (m & Hm & HS & _).
  exists m. split; [exact Hm |]. rewrite HS. split.
  - exact (Score_column_length y parse df m Hm).
  - intros i Hi. rewrite (nth_Score_column y parse df m Hm i Hi).
    split; [reflexivity |].
    split; [intros q; exact (sub_score_percentile y parse df m i q Hm Hi) |].
    split.
    + apply cap_compat. unfold sub_score_sum.
      rewrite !(sub_score_percentile y parse df m i _ Hm Hi).
      simpl weight. reflexivity.
    + destruct (sub_score_bounds y parse df m Hm i Hi) as (F & R & A & T).
      unfold cap, sub_score_sum.
      destruct (Qle_bool _ 100) eqn:E; [apply Qle_bool_iff in E |]; lra.
Qed.

(** The scores of the two companies of the example: Acme, first on
    funding, rounds and age, scores 96.25. *)
Lemma C4_score_capped_sum_in_range_witness :
  exists m,
    raw_metrics 2026 float_literal acme_beta = Ok m
    /\ List.length (Score_column m) = 2%nat
    /\ nth 0 (Score_column m) 0
       == cap 100 (50 * percentile_of m 0 QFunding
                   + 20 * percentile_of m 0 QRounds
                   + 15 * percentile_of m 0 QAge
                   + 15 * percentile_of m 0 QFundingType)
    /\ nth 0 (Score_column m) 0 == 385 # 4.
Proof.
  destruct (C4_score_capped_sum_in_range 2026 float_literal acme_beta
              {| frame := acme_beta;
                 Score := [3080 # 32; 1720 # 32];
                 Top_Quality := ["Funding"; "Funding"] |} eq_refl)
    as (m & Hm & HL & Hi).
  exists m. split; [exact Hm |].
  destruct (Hi 0%nat) as (_ & _ & E & _); [simpl; lia |].
  vm_compute in Hm. inversion Hm; subst m.
  split; [reflexivity |]. split; [exact E | reflexivity].
Defined.

(** C10.  On a frame that is not empty every percentile rank is at least
    [1 / n], so every score is strictly positive. *)
Theorem C10_score_positive y parse df out :
  score_companies y parse df = Ok out ->
  (0 < List.length (rows df))%nat
  /\ exists m,
       raw_metrics y parse df = Ok m
       /\ forall i, (i < List.length (rows df))%nat ->
            (forall k, 1 / of_nat (List.length (rows df))
                       <= nth i (rank_pct (metric_column k m)) 0)
            /\ 0 < nth i (Score out) 0.
Proof.
  intros H. destruct (score_companies_Ok _ _ _ _ H) as (m & Hm & HS & _).
  split; [exact (raw_metrics_nonempty _ _ _ _ Hm) |].
  exists m. split; [exact Hm |]. intros i Hi. split.
  - intros k. pose proof (raw_metrics_lengths _ _ _ _ Hm k) as L.
    rewrite <- L. apply rank_pct_bounds. lia.
  - rewrite HS, (nth_Score_column y parse df m Hm i Hi).
    destruct (sub_score_bounds y parse df m Hm i Hi) as (F & R & A & T).
    unfold cap, sub_score_sum. destruct (Qle_bool _ 100); lra.
Qed.

(** Both scores of the example are positive. *)
Lemma C10_score_positive_witness :
  0 < nth 0 [3080 # 32; 1720 # 32] 0 /\ 0 < nth 1 [3080 # 32; 1720 # 32] 0.
Proof.
  destruct (C10_score_positive 2026 float_literal acme_beta
              {| frame := acme_beta;
                 Score := [3080 # 32; 1720 # 32];
                 Top_Quality := ["Funding"; "Funding"] |} eq_refl)
    as (_ & m & _ & Hi).
  split; [apply (Hi 0%nat) | apply (Hi 1%nat)]; simpl; lia.
Defined.

(** ** Rounding to binary64 *)

Lemma pow2_pos e : 0 < pow2 e.
Proof. apply Qpower_0_lt. reflexivity. Qed.

Lemma pow2_plus a b : pow2 (a + b) == pow2 a * pow2 b.
Proof. apply Qpower_plus. discriminate. Qed.

Lemma pow2_le a b : (a <= b)%Z -> pow2 a <= pow2 b.
Proof. intros H. apply Qpower_le_compat_l; [exact H | discriminate]. Qed.

Lemma pow2_lt_inv a b : pow2 a < pow2 b -> (a < b)%Z.
Proof. intros H. apply (Qpower_lt_compat_l_inv 2); [exact H | reflexivity]. Qed.

Lemma pow2_Z k : (0 <= k)%Z -> inject_Z (2 ^ k) == pow2 k.
Proof. intros H. now apply Zpower_Qpower. Qed.

Lemma Qmake_times p q : (p # q) * inject_Z (Zpos q) == inject_Z p.
Proof. unfold Qeq, Qmult, inject_Z. simpl. lia. Qed.

Lemma ilog2_spec x : 0 < x -> pow2 (ilog2 x) <= x < pow2 (ilog2 x + 1).
Proof.
  intros Hx. destruct x as [p q].
  assert (Hp : (0 < p)%Z) by (unfold Qlt in Hx; simpl in Hx; lia).
  unfold ilog2. cbn [Qnum Qden].
  set (a := Z.log2 p). set (b := Z.log2 (Zpos q)).
  destruct (Z.log2_spec p Hp) as [A1 A2]. fold a in A1, A2.
  destruct (Z.log2_spec (Zpos q) eq_refl) as [B1 B2]. fold b in B1, B2.
  assert (Ha : (0 <= a)%Z) by apply Z.log2_nonneg.
  assert (Hb : (0 <= b)%Z) by apply Z.log2_nonneg.
  pose proof (Qmake_times p q) as M.
  assert (Q0 : 0 < inject_Z (Zpos q)) by reflexivity.
  assert (Ea : inject_Z (2 ^ a) <= inject_Z p) by (now rewrite <- Zle_Qle).
  assert (Ea' : inject_Z p < inject_Z (2 ^ Z.succ a)) by (now rewrite <- Zlt_Qlt).
  assert (Eb : inject_Z (2 ^ b) <= inject_Z (Zpos q)) by (now rewrite <- Zle_Qle).
  assert (Eb' : inject_Z (Zpos q) < inject_Z (2 ^ Z.succ b))
    by (now rewrite <- Zlt_Qlt).
  rewrite pow2_Z in Ea, Ea', Eb, Eb' by lia.
  assert (Low : pow2 (a - b - 1) < p # q).
  { apply (Qmult_lt_r _ _ (inject_Z (Zpos q)) Q0). rewrite M.
    apply Qlt_le_trans with (pow2 (a - b - 1) * pow2 (Z.succ b)).
    - apply Qmult_lt_l; [apply pow2_pos | exact Eb'].
    - rewrite <- pow2_plus.
      replace (a - b - 1 + Z.succ b)%Z with a by lia. exact Ea. }
  assert (High : p # q < pow2 (a - b + 1)).
  { apply (Qmult_lt_r _ _ (inject_Z (Zpos q)) Q0). rewrite M.
    apply Qlt_le_trans with (pow2 (a - b + 1) * pow2 b).
    - rewrite <- pow2_plus.
      replace (a - b + 1 + b)%Z with (Z.succ a) by lia. exact Ea'.
    - apply Qmult_le_l; [apply pow2_pos | exact Eb]. }
  destruct (Qle_bool (pow2 (a - b)) (p # q)) eqn:T.
  - apply Qle_bool_iff in T. split; [exact T | exact High].
  - split; [apply Qlt_le_weak; exact Low |].
    replace (a - b - 1 + 1)%Z with (a - b)%Z by lia.
    apply Qnot_le_lt. intros C. apply Qle_bool_iff in C. congruence.
Qed.

Lemma ilog2_monotone x y : 0 < x -> x <= y -> (ilog2 x <= ilog2 y)%Z.
Proof.
  intros Hx Hxy.
  destruct (ilog2_spec x Hx) as [L _].
  destruct (ilog2_spec y) as [_ U]; [lra |].
  assert (H : pow2 (ilog2 x) < pow2 (ilog2 y + 1)) by lra.
  apply pow2_lt_inv in H. lia.
Qed.

Lemma round_half_even_bounds t :
  (Qfloor t <= round_half_even t <= Qfloor t + 1)%Z.
Proof.
  unfold round_half_even.
  destruct (Qcompare _ _); [destruct (Z.even _) | |]; lia.
Qed.

Lemma round_half_even_Z k : round_half_even (inject_Z k) = k.
Proof.
  unfold round_half_even. rewrite Qfloor_Z.
  destruct (Qcompare_spec (inject_Z k - inject_Z k) (1 # 2)) as [E | E | E];
    [exfalso; lra | reflexivity | exfalso; lra].
Qed.

Lemma round_half_even_monotone t u :
  t <= u -> (round_half_even t <= round_half_even u)%Z.
Proof.
  intros H. pose proof (Qfloor_resp_le t u H) as F.
  destruct (Z.eq_dec (Qfloor t) (Qfloor u)) as [E | N].
  - unfold round_half_even. rewrite <- E.
    destruct (Qcompare_spec (t - inject_Z (Qfloor t)) (1 # 2));
      destruct (Qcompare_spec (u - inject_Z (Qfloor t)) (1 # 2));
      destruct (Z.even (Qfloor t)); try lia; exfalso; lra.
  - pose proof (round_half_even_bounds t). pose proof (round_half_even_bounds u).
    lia.
Qed.

Lemma round_half_even_le t k : t <= inject_Z k -> (round_half_even t <= k)%Z.
Proof.
  intros H. rewrite <- (round_half_even_Z k). now apply round_half_even_monotone.
Qed.

Lemma round_half_even_ge t k : inject_Z k <= t -> (k <= round_half_even t)%Z.
Proof.
  intros H. rewrite <- (round_half_even_Z k). now apply round_half_even_monotone.
Qed.

Lemma round_positive_monotone x y :
  0 < x -> x <= y -> round_positive x <= round_positive y.
Proof.
  intros Hx Hxy. assert (Hy : 0 < y) by lra.
  pose proof (ilog2_monotone x y Hx Hxy) as L.
  unfold round_positive.
  set (ex := Z.max (ilog2 x - 52) (-1074)).
  set (ey := Z.max (ilog2 y - 52) (-1074)).
  pose proof (pow2_pos ex) as Px. pose proof (pow2_pos ey) as Py.
  destruct (Z.eq_dec ex ey) as [E | N].
  - rewrite <- E. apply Qmult_le_r; [exact Px |]. rewrite <- Zle_Qle.
    apply round_half_even_monotone.
    apply Qmult_le_r with (z := pow2 ex); [exact Px |].
    unfold Qdiv. rewrite <- !Qmult_assoc, (Qmult_comm (/ pow2 ex)).
    rewrite Qmult_inv_r by lra. lra.
  - assert (Lt : (ex + 1 <= ey)%Z) by lia.
    assert (Ey : ey = (ilog2 y - 52)%Z) by lia.
    destruct (ilog2_spec x Hx) as [_ Ux].
    destruct (ilog2_spec y Hy) as [Ly _].
    apply Qle_trans with (pow2 (ey + 52)).
    + apply Qle_trans with (inject_Z (2 ^ 53) * pow2 ex).
      * apply Qmult_le_r; [exact Px |]. rewrite <- Zle_Qle.
        apply round_half_even_le. rewrite pow2_Z by lia.
        apply Qle_shift_div_r; [exact Px |]. rewrite <- pow2_plus.
        apply Qle_trans with (pow2 (ilog2 x + 1)); [lra |].
        apply pow2_le. lia.
      * rewrite pow2_Z by lia. rewrite <- pow2_plus. apply pow2_le. lia.
    + apply Qle_trans with (inject_Z (2 ^ 52) * pow2 ey).
      * rewrite pow2_Z by lia. rewrite <- pow2_plus.
        apply pow2_le. lia.
      * apply Qmult_le_r; [exact Py |]. rewrite <- Zle_Qle.
        apply round_half_even_ge. rewrite pow2_Z by lia.
        apply Qle_shift_div_l; [exact Py |]. rewrite <- pow2_plus.
        replace (52 + ey)%Z with (ilog2 y) by lia. exact Ly.
Qed.

Lemma round_positive_nonneg x : 0 < x -> 0 <= round_positive x.
Proof.
  intros Hx. unfold round_positive.
  set (e := Z.max (ilog2 x - 52) (-1074)).
  pose proof (pow2_pos e) as P.
  apply Qmult_le_0_compat; [| lra].
  change 0 with (inject_Z 0). rewrite <- Zle_Qle.
  apply round_half_even_ge.
  apply Qle_shift_div_l; [exact P |]. change (inject_Z 0) with 0. lra.
Qed.

Lemma Qnum_sign x :
  match Qnum x with
  | Z0 => x == 0
  | Zpos _ => 0 < x
  | Zneg _ => x < 0
  end.
Proof. destruct x as [[|p|p] q]; unfold Qeq, Qlt; simpl; lia. Qed.

Lemma binary64_compat x y : x == y -> binary64 x = binary64 y.
Proof. intros H. unfold binary64. now rewrite (Qred_complete x y H). Qed.

Lemma binary64_monotone x y : x <= y -> binary64 x <= binary64 y.
Proof.
  intros H. unfold binary64.
  rewrite <- (Qred_correct x), <- (Qred_correct y) in H.
  pose proof (Qnum_sign (Qred x)) as Sx. pose proof (Qnum_sign (Qred y)) as Sy.
  pose proof (Qred_correct (round_positive (Qred x))) as Rx.
  pose proof (Qred_correct (round_positive (Qred y))) as Ry.
  pose proof (Qred_correct (- round_positive (- Qred x))) as Nx.
  pose proof (Qred_correct (- round_positive (- Qred y))) as Ny.
  destruct (Qnum (Qred x)), (Qnum (Qred y)); try (exfalso; lra); try lra.
  - pose proof (round_positive_nonneg (Qred y) Sy). lra.
  - pose proof (round_positive_monotone (Qred x) (Qred y) Sx H). lra.
  - assert (0 <= round_positive (- Qred x))
      by (apply round_positive_nonneg; lra). lra.
  - assert (0 <= round_positive (- Qred x))
      by (apply round_positive_nonneg; lra).
    assert (0 <= round_positive (Qred y))
      by (apply round_positive_nonneg; lra). lra.
  - assert (round_positive (- Qred y) <= round_positive (- Qred x))
      by (apply round_positive_monotone; lra). lra.
Qed.

Lemma pow2_lt a b : (a < b)%Z -> pow2 a < pow2 b.
Proof. intros H. apply Qpower_lt_compat_l; [exact H | reflexivity]. Qed.

Lemma ilog2_unique x l :
  pow2 l <= x < pow2 (l + 1) -> ilog2 x = l.
Proof.
  intros [L U].
  assert (Hx : 0 < x) by (pose proof (pow2_pos l); lra).
  destruct (ilog2_spec x Hx) as [L' U'].
  assert (A : pow2 l < pow2 (ilog2 x + 1)) by lra.
  assert (B : pow2 (ilog2 x) < pow2 (l + 1)) by lra.
  apply pow2_lt_inv in A. apply pow2_lt_inv in B. lia.
Qed.

Lemma round_half_even_compat t u :
  t == u -> round_half_even t = round_half_even u.
Proof.
  intros E. unfold round_half_even. rewrite (Qfloor_comp t u E).
  assert (C : (t - inject_Z (Qfloor u) ?= 1 # 2)
              = (u - inject_Z (Qfloor u) ?= 1 # 2))
    by (now rewrite E).
  now rewrite C.
Qed.

(** The significand and the exponent that [round_positive] chooses. *)
Lemma round_positive_parts x :
  0 < x ->
  exists M e,
    round_positive x = inject_Z M * pow2 e
    /\ (-1074 <= e)%Z /\ (0 <= M <= 2 ^ 53)%Z
    /\ (-1074 < e -> 2 ^ 52 <= M)%Z.
Proof.
  intros Hx. unfold round_positive.
  set (e := Z.max (ilog2 x - 52) (-1074)).
  exists (round_half_even (x / pow2 e)), e.
  pose proof (pow2_pos e) as P.
  destruct (ilog2_spec x Hx) as [L U].
  split; [reflexivity |]. split; [lia |]. split; [split |].
  - apply round_half_even_ge. apply Qle_shift_div_l; [exact P |].
    change (inject_Z 0) with 0. lra.
  - apply round_half_even_le. rewrite pow2_Z by lia.
    apply Qle_shift_div_r; [exact P |]. rewrite <- pow2_plus.
    apply Qle_trans with (pow2 (ilog2 x + 1)); [lra |].
    apply pow2_le. lia.
  - intros He. apply round_half_even_ge. rewrite pow2_Z by lia.
    apply Qle_shift_div_l; [exact P |]. rewrite <- pow2_plus.
    replace (52 + e)%Z with (ilog2 x) by lia. exact L.
Qed.

Lemma round_positive_fixed M e r :
  (-1074 <= e)%Z -> (0 < M <= 2 ^ 53)%Z ->
  (-1074 < e -> 2 ^ 52 <= M)%Z ->
  r == inject_Z M * pow2 e ->
  round_positive r == r.
Proof.
  intros He [M0 M53] Mlow Er.
  pose proof (pow2_pos e) as P.
  assert (IM : inject_Z 1 <= inject_Z M) by (rewrite <- Zle_Qle; lia).
  change (inject_Z 1) with 1 in IM.
  destruct (Z.eq_dec M (2 ^ 53)) as [Top | NotTop].
  - (* the significand 2^53: one binade up *)
    assert (Er' : r == pow2 (e + 53)).
    { rewrite Er, Top, pow2_Z by lia. rewrite <- pow2_plus.
      now replace (53 + e)%Z with (e + 53)%Z by lia. }
    assert (I : ilog2 r = (e + 53)%Z).
    { apply ilog2_unique. rewrite Er'. split; [lra |].
      apply pow2_lt. lia. }
    unfold round_positive. rewrite I.
    replace (Z.max (e + 53 - 52) (-1074)) with (e + 1)%Z by lia.
    assert (D : r / pow2 (e + 1) == inject_Z (2 ^ 52)).
    { rewrite Er'. replace (e + 53)%Z with (52 + (e + 1))%Z by lia.
      rewrite pow2_plus, pow2_Z by lia.
      pose proof (pow2_pos (e + 1)). field. lra. }
    rewrite (round_half_even_compat _ _ D), round_half_even_Z.
    rewrite Er', pow2_Z by lia. rewrite <- pow2_plus.
    now replace (52 + (e + 1))%Z with (e + 53)%Z by lia.
  - assert (M53' : (M < 2 ^ 53)%Z) by lia.
    set (k := Z.log2 M).
    destruct (Z.log2_spec M M0) as [K1 K2]. fold k in K1, K2.
    assert (Hk : (0 <= k)%Z) by apply Z.log2_nonneg.
    assert (Hk53 : (k < 53)%Z).
    { destruct (Z.lt_ge_cases k 53) as [A | A]; [exact A |].
      exfalso. assert ((2 ^ 53 <= 2 ^ k)%Z) by (apply Z.pow_le_mono_r; lia).
      lia. }
    assert (I : ilog2 r = (k + e)%Z).
    { apply ilog2_unique. rewrite Er. split.
      - rewrite pow2_plus, <- (pow2_Z k) by lia.
        apply Qmult_le_r; [exact P |]. now rewrite <- Zle_Qle.
      - replace (k + e + 1)%Z with (Z.succ k + e)%Z by lia.
        rewrite pow2_plus, <- (pow2_Z (Z.succ k)) by lia.
        apply Qmult_lt_r; [exact P |]. now rewrite <- Zlt_Qlt. }
    assert (E' : Z.max (ilog2 r - 52) (-1074) = e).
    { rewrite I. destruct (Z.eq_dec e (-1074)) as [-> | Ne]; [lia |].
      assert (2 ^ 52 <= M)%Z by (apply Mlow; lia).
      assert (52 <= k)%Z.
      { destruct (Z.lt_ge_cases k 52) as [A | A]; [| lia].
        exfalso. assert ((2 ^ Z.succ k <= 2 ^ 52)%Z)
          by (apply Z.pow_le_mono_r; lia).
        lia. }
      lia. }
    unfold round_positive. rewrite E'.
    assert (D : r / pow2 e == inject_Z M) by (rewrite Er; field; lra).
    rewrite (round_half_even_compat _ _ D), round_half_even_Z.
    now rewrite Er.
Qed.

Lemma Qred_involutive q : Qred (Qred q) = Qred q.
Proof. apply Qred_complete, Qred_correct. Qed.

Lemma binary64_idempotent x : binary64 (binary64 x) = binary64 x.
Proof.
  set (b := binary64 x). assert (Hb : b = binary64 x) by reflexivity.
  clearbody b. unfold binary64 in Hb. cbv zeta in Hb.
  pose proof (Qnum_sign (Qred x)) as S.
  destruct (Qnum (Qred x)) eqn:N.
  - subst b. reflexivity.
  - destruct (round_positive_parts (Qred x) S) as (M & e & R & He & HM & Hl).
    assert (Er : b == inject_Z M * pow2 e)
      by (subst b; now rewrite Qred_correct, R).
    assert (RR : Qred b = b) by (subst b; apply Qred_involutive).
    destruct (Z.eq_dec M 0) as [M0 | M0].
    + assert (Z0 : b == 0)
        by (rewrite M0 in Er; change (inject_Z 0) with 0 in Er; lra).
      rewrite (binary64_compat b 0 Z0). change (binary64 0) with (Qred 0).
      rewrite <- RR. symmetry. now apply Qred_complete.
    + assert (Pr : 0 < b).
      { rewrite Er. apply Qmult_lt_0_compat; [| apply pow2_pos].
        change 0 with (inject_Z 0). rewrite <- Zlt_Qlt. lia. }
      unfold binary64. cbv zeta. rewrite RR.
      pose proof (Qnum_sign b) as Sb.
      destruct (Qnum b) eqn:Nb; try (exfalso; lra).
      rewrite <- RR at 2. apply Qred_complete.
      apply (round_positive_fixed M e b He); [lia | exact Hl | exact Er].
  - assert (S' : 0 < - Qred x) by lra.
    destruct (round_positive_parts (- Qred x) S') as (M & e & R & He & HM & Hl).
    assert (Er : - b == inject_Z M * pow2 e)
      by (subst b; rewrite Qred_correct, R; ring).
    assert (RR : Qred b = b) by (subst b; apply Qred_involutive).
    destruct (Z.eq_dec M 0) as [M0 | M0].
    + assert (Z0 : b == 0)
        by (rewrite M0 in Er; change (inject_Z 0) with 0 in Er; lra).
      rewrite (binary64_compat b 0 Z0). change (binary64 0) with (Qred 0).
      rewrite <- RR. symmetry. now apply Qred_complete.
    + assert (Pr : 0 < - b).
      { rewrite Er. apply Qmult_lt_0_compat; [| apply pow2_pos].
        change 0 with (inject_Z 0). rewrite <- Zlt_Qlt. lia. }
      unfold binary64. cbv zeta. rewrite RR.
      pose proof (Qnum_sign b) as Sb.
      destruct (Qnum b) eqn:Nb; try (exfalso; lra).
      rewrite <- RR at 2. apply Qred_complete.
      rewrite (round_positive_fixed M e (- b) He); [ring | lia | exact Hl | exact Er].
Qed.

(** ** Top Quality *)

Lemma nth_Top_Quality_rows fs rs ags fts i :
  (i < List.length fs)%nat -> (i < List.length rs)%nat ->
  (i < List.length ags)%nat -> (i < List.length fts)%nat ->
  nth i (Top_Quality_rows fs rs ags fts) ""
  = Py.replace " Score" ""
      (idxmax ("Funding Score", nth i fs 0)
         [("Rounds Score", nth i rs 0); ("Age Score", nth i ags 0);
          ("Funding Type Score", nth i fts 0)]).
Proof.
  revert rs ags fts i.
  induction fs as [|f fs IH]; intros [|r rs] [|a ags] [|t fts] [|i] H1 H2 H3 H4;
    simpl in H1, H2, H3, H4; try lia; [reflexivity |].
  simpl Top_Quality_rows. simpl nth. apply IH; lia.
Qed.

Lemma length_Top_Quality_rows fs rs ags fts :
  List.length rs = List.length fs -> List.length ags = List.length fs ->
  List.length fts = List.length fs ->
  List.length (Top_Quality_rows fs rs ags fts) = List.length fs.
Proof.
  revert rs ags fts.
  induction fs as [|f fs IH]; intros [|r rs] [|a ags] [|t fts] E1 E2 E3;
    simpl in *; try congruence.
  f_equal. apply IH; congruence.
Qed.

(** The first largest of four values, by name. *)
Lemma idxmax_first_largest (f r a t : Q) :
  let value q :=
    match q with QFunding => f | QRounds => r | QAge => a | QFundingType => t end in
  exists q,
    Py.replace " Score" ""
      (idxmax ("Funding Score", f)
         [("Rounds Score", r); ("Age Score", a); ("Funding Type Score", t)])
    = quality_name q
    /\ (forall q', value q' <= value q)
    /\ (forall q', (precedence q' < precedence q)%nat -> value q' < value q).
Proof.
  intros value. unfold idxmax. simpl idxmax_from.
  destruct (Qlt_bool f r) eqn:Hfr.
  - destruct (Qlt_bool r a) eqn:Hra.
    + destruct (Qlt_bool a t) eqn:Hat; reflect_Q;
        [exists QFundingType | exists QAge];
        (split; [reflexivity |]);
        split; intros [ | | | ]; simpl; intros; try lia; lra.
    + destruct (Qlt_bool r t) eqn:Hrt; reflect_Q;
        [exists QFundingType | exists QRounds];
        (split; [reflexivity |]);
        split; intros [ | | | ]; simpl; intros; try lia; lra.
  - destruct (Qlt_bool f a) eqn:Hfa.
    + destruct (Qlt_bool a t) eqn:Hat; reflect_Q;
        [exists QFundingType | exists QAge];
        (split; [reflexivity |]);
        split; intros [ | | | ]; simpl; intros; try lia; lra.
    + destruct (Qlt_bool f t) eqn:Hft; reflect_Q;
        [exists QFundingType | exists QFunding];
        (split; [reflexivity |]);
        split; intros [ | | | ]; simpl; intros; try lia; lra.
Qed.

Lemma length_float_scores w xs :
  List.length (map (float_score w) (rank_pct xs)) = List.length xs.
Proof. now rewrite length_map, length_rank_pct. Qed.

Lemma nth_float_score w xs i :
  (i < List.length xs)%nat ->
  nth i (map (float_score w) (rank_pct xs)) 0
  = binary64 (binary64 (percentile xs (nth i xs 0)) * w).
Proof.
  intros H.
  rewrite (nth_map_in _ (rank_pct xs) 0 i) by (now rewrite length_rank_pct).
  unfold float_score, percentile.
  now rewrite (binary64_compat _ _ (rank_pct_counts xs i H)).
Qed.

(** The Top Quality of a record is the first largest of its four computed
    sub-scores. *)
Lemma top_quality_first_largest y parse df m i :
  raw_metrics y parse df = Ok m ->
  (i < List.length (rows df))%nat ->
  exists q,
    nth i (Top_Quality_column m) "" = quality_name q
    /\ (forall q', computed_sub_score m i q' <= computed_sub_score m i q)
    /\ (forall q', (precedence q' < precedence q)%nat ->
                   computed_sub_score m i q' < computed_sub_score m i q).
Proof.
  intros Hm Hi. unfold Top_Quality_column.
  pose proof (raw_metrics_lengths _ _ _ _ Hm) as L.
  pose proof (L FundingAmount) as L1. pose proof (L RoundsMetric) as L2.
  pose proof (L AgeMetric) as L3. pose proof (L FundingTypeCount) as L4.
  simpl in L1, L2, L3, L4.
  rewrite nth_Top_Quality_rows by (rewrite length_float_scores; lia).
  rewrite !nth_float_score by lia.
  destruct (idxmax_first_largest (computed_sub_score m i QFunding)
              (computed_sub_score m i QRounds) (computed_sub_score m i QAge)
              (computed_sub_score m i QFundingType))
    as (q & Hq & Hmax & Hfirst).
  exists q. split; [exact Hq |]. split.
  - intros q'. specialize (Hmax q'). destruct q, q'; exact Hmax.
  - intros q' Hp. specialize (Hfirst q' Hp). destruct q, q'; exact Hfirst.
Qed.

Lemma length_Top_Quality_column y parse df m :
  raw_metrics y parse df = Ok m ->
  List.length (Top_Quality_column m) = List.length (rows df).
Proof.
  intros Hm. pose proof (raw_metrics_lengths _ _ _ _ Hm) as L.
  pose proof (L FundingAmount) as L1. pose proof (L RoundsMetric) as L2.
  pose proof (L AgeMetric) as L3. pose proof (L FundingTypeCount) as L4.
  simpl in L1, L2, L3, L4. unfold Top_Quality_column.
  rewrite length_Top_Quality_rows; rewrite !length_float_scores; congruence.
Qed.

(** C5, as amended.  The sub-scores that [idxmax] compares are the floats
    of the frame: for each sub-score the percentile rank
    [(l + c + 1) / (2 n)] rounded to binary64, times the weight 50, 20, 15
    or 15, rounded again.  Top Quality names one of them that no other
    exceeds and that every one earlier in the order Funding, Rounds, Age,
    Funding Type is strictly below; when the four floats are equal it is
    Funding. *)
Theorem C5_top_quality_first_largest y parse df out :
  score_companies y parse df = Ok out ->
  exists m,
    raw_metrics y parse df = Ok m
    /\ List.length (Top_Quality out) = List.length (rows df)
    /\ forall i, (i < List.length (rows df))%nat ->
         (exists q,
            nth i (Top_Quality out) "" = quality_name q
            /\ (forall q', computed_sub_score m i q'
                           <= computed_sub_score m i q)
            /\ (forall q', (precedence q' < precedence q)%nat ->
                           computed_sub_score m i q'
                           < computed_sub_score m i q))
         /\ ((forall q q', computed_sub_score m i q
                           == computed_sub_score m i q') ->
             nth i (Top_Quality out) "" = "Funding").
Proof.
  intros H. destruct (score_companies_Ok _ _ _ _ H) as (m & Hm & _ & HT).
  exists m. split; [exact Hm |]. rewrite HT. split.
  - exact (length_Top_Quality_column y parse df m Hm).
  - intros i Hi.
    destruct (top_quality_first_largest y parse df m i Hm Hi)
      as (q & Hq & Hmax & Hfirst).
    split; [exists q; auto |].
    intros Heq. rewrite Hq.
    destruct (Nat.eq_dec (precedence q) 0) as [E | N].
    + destruct q; try discriminate. reflexivity.
    + exfalso. assert (P : (precedence QFunding < precedence q)%nat)
        by (simpl; lia).
      specialize (Hfirst QFunding P). specialize (Heq QFunding q). lra.
Qed.

(** The Top Quality of Acme in the example. *)
Lemma C5_top_quality_first_largest_witness :
  exists m,
    raw_metrics 2026 float_literal acme_beta = Ok m
    /\ exists q,
         nth 0 ["Funding"; "Funding"] "" = quality_name q
         /\ (forall q', computed_sub_score m 0 q'
                        <= computed_sub_score m 0 q).
Proof.
  destruct (C5_top_quality_first_largest 2026 float_literal acme_beta
              {| frame := acme_beta;
                 Score := [3080 # 32; 1720 # 32];
                 Top_Quality := ["Funding"; "Funding"] |} eq_refl)
    as (m & Hm & _ & Hi).
  exists m. split; [exact Hm |].
  destruct (Hi 0%nat) as [(q & Hq & Hmax & _) _]; [simpl; lia |].
  exists q. split; [exact Hq | exact Hmax].
Defined.

(** C5 as stated fails where rounding separates equal sub-scores.  The
    first of the three records has the least funding and shares the most
    rounds with the second: its Funding sub-score, [50 / 3], and its
    Rounds sub-score, [20 * 5 / 6], are the same fraction, which the other
    two sub-scores are below, and the precedence gives Funding.  In
    binary64 the first is 16.666666666666664 and the second
    16.666666666666668: Top Quality is Rounds. *)
Lemma C5_rounded_tie_counterexample :
  exists m out,
    raw_metrics 2026 float_literal rounded_tie = Ok m
    /\ score_companies 2026 float_literal rounded_tie = Ok out
    /\ sub_score m 0 QFunding == sub_score m 0 QRounds
    /\ sub_score m 0 QAge < sub_score m 0 QFunding
    /\ sub_score m 0 QFundingType < sub_score m 0 QFunding
    /\ computed_sub_score m 0 QFunding == 2345624805922133 # 140737488355328
    /\ computed_sub_score m 0 QRounds == 4691249611844267 # 281474976710656
    /\ nth 0 (Top_Quality out) "" = "Rounds".
Proof.
  do 2 eexists. split; [reflexivity |]. split; [reflexivity |].
  repeat split; vm_compute; reflexivity.
Qed.

(** ** The record with the largest funding *)

Lemma count_le_all xs x :
  (forall j, (j < List.length xs)%nat -> nth j xs 0 <= x) ->
  count_le xs x = List.length xs.
Proof.
  intros H. unfold count_le.
  induction xs as [|y t IH]; simpl; [reflexivity |].
  assert (Hy : y <= x) by (apply (H 0%nat); simpl; lia).
  rewrite (proj2 (Qle_bool_iff y x) Hy). simpl. f_equal.
  apply IH. intros j Hj. apply (H (S j)). simpl. lia.
Qed.

Lemma of_nat_inj a b : of_nat a == of_nat b -> a = b.
Proof.
  unfold of_nat. intros H. apply (proj1 (inject_Z_injective _ _)) in H. lia.
Qed.

(** C8, as amended.  A record that holds the largest Funding Amount
    together with [k - 1] others has the Funding sub-score
    [50 * (2 n - k + 1) / (2 n)]; it is exactly 50 when, and only when, no
    other record has the same Funding Amount. *)
Theorem C8_largest_funding_sub_score y parse df m i :
  raw_metrics y parse df = Ok m ->
  (i < List.length (rows df))%nat ->
  (forall j, (j < List.length (rows df))%nat ->
             nth j (Funding_Amount m) 0 <= nth i (Funding_Amount m) 0) ->
  let n := of_nat (List.length (rows df)) in
  let k := count_eq (Funding_Amount m) (nth i (Funding_Amount m) 0) in
  sub_score m i QFunding == 50 * (2 * n - of_nat k + 1) / (2 * n)
  /\ (sub_score m i QFunding == 50 <-> k = 1%nat).
Proof.
  intros Hm Hi Hmax n k.
  pose proof (raw_metrics_lengths _ _ _ _ Hm FundingAmount) as L.
  simpl in L.
  assert (Hn : 0 < n) by (apply of_nat_pos; lia).
  assert (E : sub_score m i QFunding
              == 50 * (2 * n - of_nat k + 1) / (2 * n)).
  { rewrite (sub_score_weighted y parse df m Hm i QFunding Hi).
    rewrite rank_pct_counts by lia.
    pose proof (count_le_split (Funding_Amount m)
                  (nth i (Funding_Amount m) 0)) as S.
    rewrite count_le_all in S by (intros j Hj; apply Hmax; lia).
    rewrite count_le_all by (intros j Hj; apply Hmax; lia).
    fold k in S. rewrite L in *.
    assert (SQ : n == of_nat (count_lt (Funding_Amount m)
                                (nth i (Funding_Amount m) 0)) + of_nat k).
    { unfold n. rewrite S. apply of_nat_plus. }
    fold n. set (l := of_nat (count_lt _ _)) in *.
    field_simplify_eq; [| lra]. lra. }
  split; [exact E |]. rewrite E. split.
  - intros H. apply of_nat_inj. change (of_nat 1) with 1.
    assert (H' : 50 * (2 * n - of_nat k + 1) == 2 * n * 50).
    { transitivity (2 * n * (50 * (2 * n - of_nat k + 1) / (2 * n))).
      - symmetry. apply Qmult_div_r. lra.
      - now rewrite H. }
    lra.
  - intros ->. change (of_nat 1) with 1. field. lra.
Qed.

(** Acme alone has the largest funding of the example: its sub-score is 50. *)
Lemma C8_largest_funding_sub_score_witness :
  sub_score {| Funding_Amount := [1000000; 500000]; Rounds := [3; 1];
               Age := [16; 6]; Funding_Type_Count := [0; 0] |} 0 QFunding
  == 50.
Proof.
  refine (proj2 (proj2 (C8_largest_funding_sub_score 2026 float_literal
                          acme_beta _ 0%nat eq_refl _ _)) _).
  - simpl. lia.
  - intros [|[|j]] Hj; simpl in *; [discriminate | discriminate | lia].
  - reflexivity.
Defined.

(** C8 as stated fails on ties: both records of [tied_pair] hold the
    largest Funding Amount, and the Funding sub-score of the first is
    37.5. *)
Lemma C8_tied_largest_counterexample :
  exists m,
    raw_metrics 2026 float_literal tied_pair = Ok m
    /\ (forall j, (j < List.length (rows tied_pair))%nat ->
                  nth j (Funding_Amount m) 0 <= nth 0 (Funding_Amount m) 0)
    /\ sub_score m 0 QFunding == 75 # 2
    /\ ~ sub_score m 0 QFunding == 50.
Proof.
  eexists. split; [reflexivity |]. split; [| split].
  - intros [|[|j]] Hj; simpl in *; [discriminate | discriminate | lia].
  - reflexivity.
  - intros H. vm_compute in H. discriminate.
Qed.

(** ** Age and Rounds *)

Lemma raw_metrics_Age y parse df m :
  raw_metrics y parse df = Ok m -> Age m = Age_column y parse df.
Proof.
  unfold raw_metrics. destruct (rows df); [discriminate |].
  destruct (column df "funding_rounds"); [| discriminate].
  destruct (column df "Funding Amount"); [| discriminate].
  destruct (as_floats _); [| discriminate].
  destruct (as_floats _); [| destruct (existsb _ _); discriminate].
  intros H. now inversion H.
Qed.

(** C6: the code departs from the claim.  Line 43 writes the clamp,
    [.fillna(0).clip(lower=0)], after [pd.to_numeric(...)]: it binds to the
    founded year and not to the difference.  A company founded in 3000
    has, in 2026, the age -974 where the claim gives 0; the clamp raises a
    founded year of -5 to 0 instead. *)
Theorem C6_future_year_gives_negative_age :
  (exists m,
     raw_metrics 2026 float_literal founded_later = Ok m
     /\ nth 0 (Age m) 0 == - (974)
     /\ ~ nth 0 (Age m) 0 == 0)
  /\ age_of 2026 float_literal (Num (- (5))) == 2026.
Proof.
  split; [| reflexivity].
  eexists. split; [reflexivity |]. split.
  - reflexivity.
  - intros H. vm_compute in H. discriminate.
Qed.

Lemma score_companies_without_rounds y parse df :
  rows df <> [] -> column df "funding_rounds" = None ->
  score_companies y parse df = Raise (KeyError ["funding_rounds"]).
Proof.
  intros Hr Hc. unfold score_companies, raw_metrics.
  destruct (rows df); [contradiction |]. now rewrite Hc.
Qed.

(** C7: the code departs from the claim.  For a file in which no record
    has a funding round, [clean_data] drops the [funding_rounds] column,
    and [score_companies] then raises [KeyError] where Rounds was to be 0
    for every record. *)
Theorem C7_pruned_funding_rounds_raises :
  (exists cleaned,
     clean no_rounds_raw = Ok cleaned
     /\ column cleaned "funding_rounds" = None
     /\ score_companies 2026 float_literal cleaned
        = Raise (KeyError ["funding_rounds"]))
  /\ main 2026 float_literal no_rounds_raw = Raise (KeyError ["funding_rounds"]).
Proof.
  split; [eexists; split; [vm_compute; reflexivity | split; reflexivity]
         | vm_compute; reflexivity].
Qed.

(** ** Changing one Funding Amount *)

Lemma length_update_nth {A} i (f : A -> A) l :
  List.length (update_nth i f l) = List.length l.
Proof.
  revert i. induction l as [|a t IH]; intros [|i]; simpl; auto.
Qed.

Lemma nth_update_nth_eq {A} i (f : A -> A) l d :
  (i < List.length l)%nat -> nth i (update_nth i f l) d = f (nth i l d).
Proof.
  revert i. induction l as [|a t IH]; intros [|i] H; simpl in *; try lia; auto.
  apply IH. lia.
Qed.

Lemma nth_update_nth_neq {A} i j (f : A -> A) l d :
  i <> j -> nth j (update_nth i f l) d = nth j l d.
Proof.
  revert i j. induction l as [|a t IH]; intros [|i] [|j] H; simpl; auto;
    try contradiction.
Qed.

Lemma map_update_nth {A B} (g : A -> B) (f : A -> A) (h : B -> B) i l :
  (forall a, In a l -> g (f a) = h (g a)) ->
  map g (update_nth i f l) = update_nth i h (map g l).
Proof.
  revert i. induction l as [|a t IH]; intros [|i] H; simpl; auto.
  - f_equal. apply H. now left.
  - f_equal. apply IH. intros b Hb. apply H. now right.
Qed.

Lemma update_nth_same {A} (h : A -> A) i l :
  (forall a, In a l -> h a = a) -> update_nth i h l = l.
Proof.
  revert i. induction l as [|a t IH]; intros [|i] H; simpl; auto.
  - f_equal. apply H. now left.
  - f_equal. apply IH. intros b Hb. apply H. now right.
Qed.

Lemma cell_at_set_at_neq c j x row :
  c <> j -> cell_at j (set_at c x row) = cell_at j row.
Proof.
  unfold cell_at. revert c j.
  induction row as [|a t IH]; intros [|c] [|j] H; simpl; auto;
    try contradiction.
Qed.

Lemma cell_at_set_at_eq c x row :
  cell_at c row <> Null -> cell_at c (set_at c x row) = x.
Proof.
  unfold cell_at. revert c.
  induction row as [|a t IH]; intros [|c] H; simpl in *; auto; contradiction.
Qed.

Lemma index_of_nth name cols i :
  index_of name cols = Some i -> nth i cols "" = name /\ (i < List.length cols)%nat.
Proof.
  revert i. induction cols as [|c t IH]; simpl; intros i H; [discriminate |].
  destruct (String.eqb name c) eqn:E.
  - inversion H; subst. apply String.eqb_eq in E. split; [now subst | simpl; lia].
  - destruct (index_of name t) as [k|]; simpl in H; inversion H; subst.
    destruct (IH k eq_refl). simpl. split; [assumption | lia].
Qed.

Lemma index_of_distinct a b cols i j :
  a <> b -> index_of a cols = Some i -> index_of b cols = Some j -> i <> j.
Proof.
  intros Hab Ha Hb E. subst j.
  apply index_of_nth in Ha. apply index_of_nth in Hb.
  destruct Ha, Hb. congruence.
Qed.

Lemma as_floats_In cells l c :
  as_floats cells = Some l -> In c cells -> c <> Null.
Proof.
  revert l. induction cells as [|a t IH]; simpl; intros l H Hin; [tauto |].
  destruct a; try discriminate;
    (destruct (as_floats t) as [l'|] eqn:E; simpl in H; [| discriminate]);
    (destruct Hin as [<- | Hin]; [discriminate | eauto]).
Qed.

Lemma as_floats_update cells l i v :
  as_floats cells = Some l ->
  as_floats (update_nth i (fun _ => Num v) cells)
  = Some (update_nth i (fun _ => v) l).
Proof.
  revert l i. induction cells as [|a t IH]; simpl; intros l i H.
  - inversion H. now destruct i.
  - destruct a; try discriminate;
      destruct (as_floats t) as [l'|] eqn:E; simpl in H; inversion H; subst;
      (destruct i as [|i]; simpl;
       [now rewrite E | now rewrite (IH l' i eq_refl)]).
Qed.

Lemma map_const_length {A B} (b : B) (l l' : list A) :
  List.length l = List.length l' -> map (fun _ => b) l = map (fun _ => b) l'.
Proof.
  revert l'. induction l as [|a t IH]; intros [|a' t'] H; simpl in *;
    try congruence.
  f_equal. apply IH. congruence.
Qed.

Section WithFunding.

Variable df : DataFrame.
Variable c : nat.
Hypothesis funding_at : index_of "Funding Amount" (columns df) = Some c.
Variable i : nat.
Variable v : Q.

Lemma with_funding_rows :
  rows (with_funding i v df) = update_nth i (set_at c (Num v)) (rows df).
Proof. unfold with_funding. now rewrite funding_at. Qed.

Lemma with_funding_columns : columns (with_funding i v df) = columns df.
Proof. unfold with_funding. now rewrite funding_at. Qed.

Lemma with_funding_other_column name :
  name <> "Funding Amount" ->
  column (with_funding i v df) name = column df name.
Proof.
  intros Hne. unfold column.
  rewrite with_funding_columns, with_funding_rows.
  destruct (index_of name (columns df)) as [j|] eqn:J; simpl; [| reflexivity].
  f_equal.
  rewrite (map_update_nth (cell_at j) (set_at c (Num v)) (fun x => x)).
  - apply update_nth_same. reflexivity.
  - intros r _. apply cell_at_set_at_neq.
    intros E. subst j. apply (index_of_distinct _ _ _ _ _ Hne J funding_at).
    reflexivity.
Qed.

Lemma with_funding_column cells l :
  column df "Funding Amount" = Some cells -> as_floats cells = Some l ->
  column (with_funding i v df) "Funding Amount"
  = Some (update_nth i (fun _ => Num v) cells).
Proof.
  unfold column. rewrite with_funding_columns, with_funding_rows, funding_at.
  simpl. intros H Hl. inversion H as [Hc]. f_equal.
  apply map_update_nth. intros r Hr. apply cell_at_set_at_eq.
  apply (as_floats_In _ _ _ Hl). rewrite <- Hc. now apply in_map.
Qed.

Lemma with_funding_type_count r :
  funding_type_count df (set_at c (Num v) r) = funding_type_count df r.
Proof.
  unfold funding_type_count. f_equal.
  apply filter_ext_in. intros name Hin.
  destruct (index_of name (columns df)) as [j|] eqn:J; [| reflexivity].
  f_equal. apply cell_at_set_at_neq. intros E. subst j.
  assert (Hne : name <> "Funding Amount").
  { simpl in Hin. intuition (subst; discriminate). }
  now apply (index_of_distinct _ _ _ _ _ Hne J funding_at).
Qed.

Lemma with_funding_Age y parse :
  Age_column y parse (with_funding i v df) = Age_column y parse df.
Proof.
  unfold Age_column. rewrite with_funding_other_column by discriminate.
  destruct (column df "founded_year"); [reflexivity |].
  apply map_const_length. rewrite with_funding_rows. apply length_update_nth.
Qed.

Lemma with_funding_metrics y parse m :
  raw_metrics y parse df = Ok m ->
  raw_metrics y parse (with_funding i v df)
  = Ok {| Funding_Amount := update_nth i (fun _ => v) (Funding_Amount m);
          Rounds := Rounds m; Age := Age m;
          Funding_Type_Count := Funding_Type_Count m |}.
Proof.
  unfold raw_metrics.
  rewrite with_funding_Age, (with_funding_other_column "funding_rounds")
    by discriminate.
  rewrite with_funding_rows.
  destruct (rows df) as [|r0 rs] eqn:R; [discriminate |].
  assert (NE : exists r0' rs',
             update_nth i (set_at c (Num v)) (r0 :: rs) = r0' :: rs').
  { destruct i; simpl; eauto. }
  destruct NE as (r0' & rs' & NE). rewrite NE, <- NE.
  destruct (column df "funding_rounds") as [rc|]; [| discriminate].
  destruct (column df "Funding Amount") as [fc|] eqn:C2; [| discriminate].
  destruct (as_floats fc) as [fl|] eqn:F1; [| discriminate].
  destruct (as_floats (map fillna_cell rc)) as [rl|];
    [| destruct (existsb _ _); discriminate].
  intros H. inversion H; subst; clear H. simpl.
  rewrite (with_funding_column fc fl C2 F1), (as_floats_update _ _ _ _ F1).
  f_equal. f_equal.
  rewrite (map_ext _ (fun r => of_nat (funding_type_count df r)))
    by (intros r; unfold funding_type_count;
        now rewrite with_funding_columns).
  rewrite (map_update_nth (fun r => of_nat (funding_type_count df r))
             (set_at c (Num v)) (fun x => x))
    by (intros r _; now rewrite with_funding_type_count).
  apply update_nth_same. reflexivity.
Qed.

End WithFunding.

Lemma filter_length_Forall2 (p p' : Q -> bool) xs xs' :
  Forall2 (fun y y' => p y = true -> p' y' = true) xs xs' ->
  (List.length (filter p xs) <= List.length (filter p' xs'))%nat.
Proof.
  induction 1 as [|y y' t t' Hy Ht IH]; simpl; [lia |].
  destruct (p y); [rewrite (Hy eq_refl) |]; simpl; [lia |].
  destruct (p' y'); simpl; lia.
Qed.

Lemma Forall2_same (R : Q -> Q -> Prop) xs :
  (forall y, R y y) -> Forall2 R xs xs.
Proof.
  intros Hrefl. induction xs; constructor; auto.
Qed.

Lemma Forall2_update_r (R : Q -> Q -> Prop) xs i a :
  (forall y, R y y) -> R (nth i xs 0) a ->
  Forall2 R xs (update_nth i (fun _ => a) xs).
Proof.
  intros Hrefl. revert i.
  induction xs as [|x t IH]; intros [|i] H; simpl in *.
  - constructor.
  - constructor.
  - constructor; [exact H | now apply Forall2_same].
  - constructor; [apply Hrefl | now apply IH].
Qed.

Lemma Forall2_update_l (R : Q -> Q -> Prop) xs i a :
  (forall y, R y y) -> R a (nth i xs 0) ->
  Forall2 R (update_nth i (fun _ => a) xs) xs.
Proof.
  intros Hrefl. revert i.
  induction xs as [|x t IH]; intros [|i] H; simpl in *.
  - constructor.
  - constructor.
  - constructor; [exact H | now apply Forall2_same].
  - constructor; [apply Hrefl | now apply IH].
Qed.

Lemma cap_monotone u a b : a <= b -> cap u a <= cap u b.
Proof.
  intros H. unfold cap.
  destruct (Qle_bool a u) eqn:A, (Qle_bool b u) eqn:B; reflect_Q; lra.
Qed.

Section RankMonotone.

Variable xs : list Q.
Variable i : nat.
Variable v : Q.
Hypothesis in_range : (i < List.length xs)%nat.
Hypothesis raised : nth i xs 0 <= v.

Let xs' := update_nth i (fun _ => v) xs.

(** The entry that is raised does not lose rank. *)
Lemma rank_pct_raised : nth i (rank_pct xs) 0 <= nth i (rank_pct xs') 0.
Proof.
  assert (L : List.length xs' = List.length xs) by apply length_update_nth.
  rewrite !rank_pct_counts by lia. rewrite L.
  assert (E : nth i xs' 0 = v) by (unfold xs'; now rewrite nth_update_nth_eq).
  rewrite E.
  assert (H1 : (count_lt xs (nth i xs 0%Q) <= count_lt xs' v)%nat).
  { apply filter_length_Forall2, Forall2_update_r.
    - intros y Hy. reflect_Q. apply Qlt_bool_iff. lra.
    - intros Hy. reflect_Q. lra. }
  assert (H2 : (count_le xs (nth i xs 0%Q) <= count_le xs' v)%nat).
  { apply filter_length_Forall2, Forall2_update_r.
    - intros y Hy. reflect_Q. apply Qle_bool_iff. lra.
    - intros _. apply Qle_bool_iff. lra. }
  apply of_nat_le in H1, H2.
  assert (Hn : 0 < of_nat (List.length xs)) by (apply of_nat_pos; lia).
  apply Qmult_le_compat_r; [lra |].
  apply Qinv_le_0_compat. lra.
Qed.

(** No other entry gains rank. *)
Lemma rank_pct_others j :
  (j < List.length xs)%nat -> j <> i ->
  nth j (rank_pct xs') 0 <= nth j (rank_pct xs) 0.
Proof.
  intros Hj Hne.
  assert (L : List.length xs' = List.length xs) by apply length_update_nth.
  rewrite !rank_pct_counts by lia. rewrite L.
  assert (E : nth j xs' 0 = nth j xs 0)
    by (unfold xs'; apply nth_update_nth_neq; congruence).
  rewrite E. set (z := nth j xs 0).
  assert (H1 : (count_lt xs' z <= count_lt xs z)%nat).
  { apply filter_length_Forall2, Forall2_update_l.
    - auto.
    - intros Hy. reflect_Q. apply Qlt_bool_iff. lra. }
  assert (H2 : (count_le xs' z <= count_le xs z)%nat).
  { apply filter_length_Forall2, Forall2_update_l.
    - auto.
    - intros Hy. reflect_Q. apply Qle_bool_iff. lra. }
  apply of_nat_le in H1, H2.
  assert (Hn : 0 < of_nat (List.length xs)) by (apply of_nat_pos; lia).
  apply Qmult_le_compat_r; [lra |].
  apply Qinv_le_0_compat. lra.
Qed.

End RankMonotone.

(** C9.  Raising the Funding Amount of one record, every other cell being
    kept, gives a frame that is scored as well; the three other metrics
    are unchanged, the score of the record does not decrease, and the
    Funding sub-score of no other record increases. *)
Theorem C9_funding_monotone y parse df m out i v :
  raw_metrics y parse df = Ok m ->
  score_companies y parse df = Ok out ->
  (i < List.length (rows df))%nat ->
  nth i (Funding_Amount m) 0 <= v ->
  exists m' out',
    raw_metrics y parse (with_funding i v df) = Ok m'
    /\ score_companies y parse (with_funding i v df) = Ok out'
    /\ nth i (Funding_Amount m') 0 = v
    /\ (forall j, j <> i ->
                  nth j (Funding_Amount m') 0 = nth j (Funding_Amount m) 0)
    /\ Rounds m' = Rounds m /\ Age m' = Age m
    /\ Funding_Type_Count m' = Funding_Type_Count m
    /\ nth i (Score out) 0 <= nth i (Score out') 0
    /\ forall j, (j < List.length (rows df))%nat -> j <> i ->
                 sub_score m' j QFunding <= sub_score m j QFunding.
Proof.
  intros Hm Hout Hi Hv.
  assert (Hc : exists c, index_of "Funding Amount" (columns df) = Some c).
  { revert Hm. unfold raw_metrics, column. destruct (rows df); [discriminate |].
    destruct (index_of "funding_rounds" (columns df)); [| discriminate].
    destruct (index_of "Funding Amount" (columns df)); [eauto | discriminate]. }
  destruct Hc as (c & Hc).
  pose proof (with_funding_metrics df c Hc i v y parse m Hm) as Hm'.
  set (m' := {| Funding_Amount := update_nth i (fun _ => v) (Funding_Amount m);
                Rounds := Rounds m; Age := Age m;
                Funding_Type_Count := Funding_Type_Count m |}) in *.
  pose proof (raw_metrics_lengths _ _ _ _ Hm FundingAmount) as L. simpl in L.
  assert (Lrows : List.length (rows (with_funding i v df))
                  = List.length (rows df)).
  { rewrite (with_funding_rows df c Hc). apply length_update_nth. }
  exists m', {| frame := with_funding i v df; Score := Score_column m';
               Top_Quality := Top_Quality_column m' |}.
  split; [exact Hm' |]. split; [unfold score_companies; now rewrite Hm' |].
  split; [simpl; apply nth_update_nth_eq; lia |].
  split; [intros j Hj; simpl; apply nth_update_nth_neq; congruence |].
  split; [reflexivity |]. split; [reflexivity |]. split; [reflexivity |].
  assert (Hi' : (i < List.length (rows (with_funding i v df)))%nat) by lia.
  split.
  - destruct (score_companies_Ok _ _ _ _ Hout) as (m0 & Hm0 & HS & _).
    assert (m0 = m) by congruence. subst m0. rewrite HS. simpl Score.
    rewrite (nth_Score_column y parse df m Hm i Hi).
    rewrite (nth_Score_column y parse _ m' Hm' i Hi').
    apply cap_monotone. unfold sub_score_sum.
    assert (F : sub_score m i QFunding <= sub_score m' i QFunding).
    { rewrite (sub_score_weighted y parse df m Hm i QFunding Hi).
      rewrite (sub_score_weighted y parse _ m' Hm' i QFunding Hi').
      simpl Funding_Amount.
      pose proof (rank_pct_raised (Funding_Amount m) i v) as R.
      assert (Hi2 : (i < List.length (Funding_Amount m))%nat) by lia.
      specialize (R Hi2 Hv). lra. }
    change (sub_score m' i QRounds) with (sub_score m i QRounds).
    change (sub_score m' i QAge) with (sub_score m i QAge).
    change (sub_score m' i QFundingType) with (sub_score m i QFundingType).
    lra.
  - intros j Hj Hne.
    assert (Hj' : (j < List.length (rows (with_funding i v df)))%nat) by lia.
    rewrite (sub_score_weighted y parse df m Hm j QFunding Hj).
    rewrite (sub_score_weighted y parse _ m' Hm' j QFunding Hj').
    simpl Funding_Amount.
    pose proof (rank_pct_others (Funding_Amount m) i v) as R.
    assert (Hi2 : (i < List.length (Funding_Amount m))%nat) by lia.
    assert (Hj2 : (j < List.length (Funding_Amount m))%nat) by lia.
    specialize (R Hi2 Hv j Hj2 Hne). lra.
Qed.

(** Raising the funding of Beta from 500000 to 2000000. *)
Lemma C9_funding_monotone_witness :
  exists out',
    score_companies 2026 float_literal (with_funding 1 2000000 acme_beta)
    = Ok out'
    /\ nth 1 [3080 # 32; 1720 # 32] 0 <= nth 1 (Score out') 0.
Proof.
  destruct (C9_funding_monotone 2026 float_literal acme_beta
              {| Funding_Amount := [1000000; 500000]; Rounds := [3; 1];
                 Age := [16; 6]; Funding_Type_Count := [0; 0] |}
              {| frame := acme_beta;
                 Score := [3080 # 32; 1720 # 32];
                 Top_Quality := ["Funding"; "Funding"] |}
              1%nat 2000000 eq_refl eq_refl)
    as (m' & out' & _ & Hout & _ & _ & _ & _ & _ & Hscore & _).
  - simpl. lia.
  - simpl. unfold Qle. simpl. lia.
  - exists out'. split; [exact Hout | exact Hscore].
Defined.

(** ** Column labels *)

Lemma mem_In name l : mem name l = true <-> In name l.
Proof.
  unfold mem. rewrite existsb_exists. split.
  - intros (x & Hx & E). apply String.eqb_eq in E. now subst.
  - intros H. exists name. split; [exact H | apply String.eqb_refl].
Qed.

Lemma index_of_None name l : index_of name l = None <-> ~ In name l.
Proof.
  induction l as [|c t IH]; simpl; [tauto |].
  destruct (String.eqb name c) eqn:E.
  - apply String.eqb_eq in E. subst. split; [discriminate | tauto].
  - apply String.eqb_neq in E.
    destruct (index_of name t); simpl.
    + split; [discriminate |]. intros H. exfalso. apply H. right.
      apply Decidable.not_not; [| now rewrite <- IH].
      destruct (in_dec string_dec name t); [left | right]; assumption.
    + split; [| reflexivity]. intros _ [H | H]; [congruence |].
      now apply (proj1 IH).
Qed.

Lemma index_of_In name l : In name l -> exists j, index_of name l = Some j.
Proof.
  intros H. destruct (index_of name l) as [j|] eqn:E; [eauto |].
  now apply index_of_None in E.
Qed.

Lemma nodup_labels_NoDup l : nodup_labels l = true <-> NoDup l.
Proof.
  induction l as [|c t IH]; simpl.
  - split; [constructor | reflexivity].
  - rewrite andb_true_iff, negb_true_iff, IH. split.
    + intros [H1 H2]. constructor; [| exact H2].
      rewrite <- mem_In. congruence.
    + intros H. inversion H; subst. split; [| assumption].
      destruct (mem c t) eqn:M; [| reflexivity].
      apply mem_In in M. contradiction.
Qed.

Lemma index_of_unique name l j :
  NoDup l -> (j < List.length l)%nat -> nth j l "" = name ->
  index_of name l = Some j.
Proof.
  intros Hnd Hj Hn.
  destruct (index_of_In name l) as (j' & E); [subst; now apply nth_In |].
  destruct (index_of_nth _ _ _ E) as [Hn' Hj'].
  rewrite E. f_equal.
  apply (proj1 (NoDup_nth l "") Hnd); congruence.
Qed.

Lemma kept_positions_In keep k cols q :
  In q (kept_positions keep k cols)
  <-> (k <= q < k + List.length cols)%nat
      /\ keep q (nth (q - k) cols "") = true.
Proof.
  revert k. induction cols as [|c t IH]; intros k; simpl.
  - split; [tauto | lia].
  - destruct (keep k c) eqn:K; simpl; rewrite IH; split.
    + intros [<- | [Hr Hk]].
      * split; [lia |]. now rewrite Nat.sub_diag.
      * split; [lia |]. replace (q - k)%nat with (S (q - S k)) by lia.
        exact Hk.
    + intros [Hr Hk]. destruct (Nat.eq_dec k q) as [-> | Hne]; [now left |].
      right. split; [lia |].
      replace (q - k)%nat with (S (q - S k)) in Hk by lia. exact Hk.
    + intros [Hr Hk]. split; [lia |].
      replace (q - k)%nat with (S (q - S k)) by lia. exact Hk.
    + intros [Hr Hk]. destruct (Nat.eq_dec k q) as [-> | Hne].
      * rewrite Nat.sub_diag in Hk. congruence.
      * split; [lia |].
        replace (q - k)%nat with (S (q - S k)) in Hk by lia. exact Hk.
Qed.

Lemma kept_positions_NoDup keep k cols : NoDup (kept_positions keep k cols).
Proof.
  revert k. induction cols as [|c t IH]; intros k; simpl; [constructor |].
  destruct (keep k c); [| apply IH].
  constructor; [| apply IH]. rewrite kept_positions_In. lia.
Qed.

(** ** Selecting columns *)

Section Select.

Variable keep : nat -> string -> bool.
Variable df : DataFrame.
Hypothesis distinct : NoDup (columns df).

Let ps := kept_positions keep 0 (columns df).

Lemma selected_position j :
  (j < List.length ps)%nat ->
  (nth j ps O < List.length (columns df))%nat
  /\ keep (nth j ps O) (nth (nth j ps O) (columns df) "") = true
  /\ nth j (columns (select_columns keep df)) ""
     = nth (nth j ps O) (columns df) "".
Proof.
  intros Hj.
  assert (Hin : In (nth j ps O) ps) by (now apply nth_In).
  apply kept_positions_In in Hin. rewrite Nat.sub_0_r in Hin.
  destruct Hin as [Hr Hk]. split; [lia |]. split; [exact Hk |].
  unfold select_columns. simpl. fold ps.
  rewrite (nth_indep _ "" (nth O (columns df) ""))
    by (now rewrite length_map).
  apply (map_nth (fun i => nth i (columns df) "")).
Qed.

Lemma selected_cell j r :
  (j < List.length ps)%nat ->
  cell_at j (map (fun i => cell_at i r) ps) = cell_at (nth j ps O) r.
Proof.
  intros Hj. unfold cell_at at 1.
  rewrite (nth_indep _ Null (cell_at O r)) by (now rewrite length_map).
  apply (map_nth (fun i => cell_at i r)).
Qed.

Lemma selected_length : List.length (columns (select_columns keep df)) = List.length ps.
Proof. unfold select_columns. simpl. apply length_map. Qed.

(** A label that is found after the selection was found before, at a
    position that was kept. *)
Lemma select_found name j :
  index_of name (columns (select_columns keep df)) = Some j ->
  exists i,
    index_of name (columns df) = Some i /\ keep i name = true
    /\ forall r, cell_at j (map (fun p => cell_at p r) ps) = cell_at i r.
Proof.
  intros H. destruct (index_of_nth _ _ _ H) as [Hn Hj].
  rewrite selected_length in Hj.
  destruct (selected_position j Hj) as (Hr & Hk & Hl).
  exists (nth j ps O). rewrite Hl in Hn. rewrite Hn in Hk.
  split; [now apply index_of_unique |]. split; [exact Hk |].
  intros r. now apply selected_cell.
Qed.

Lemma select_kept name i :
  index_of name (columns df) = Some i -> keep i name = true ->
  exists j,
    index_of name (columns (select_columns keep df)) = Some j
    /\ forall r, cell_at j (map (fun p => cell_at p r) ps) = cell_at i r.
Proof.
  intros Hi Hk. destruct (index_of_nth _ _ _ Hi) as [Hn Hr].
  assert (Hin : In i ps).
  { apply kept_positions_In. rewrite Nat.sub_0_r, Hn. split; [lia | exact Hk]. }
  assert (Hl : In name (columns (select_columns keep df))).
  { unfold select_columns. simpl. fold ps. rewrite <- Hn.
    now apply (in_map (fun i => nth i (columns df) "")). }
  destruct (index_of_In _ _ Hl) as (j & Hj). exists j. split; [exact Hj |].
  destruct (select_found name j Hj) as (i' & Hi' & _ & Hc).
  assert (i' = i) by congruence. now subst.
Qed.

Lemma select_dropped name :
  (forall i, index_of name (columns df) = Some i -> keep i name = false) ->
  index_of name (columns (select_columns keep df)) = None.
Proof.
  intros H.
  destruct (index_of name (columns (select_columns keep df))) as [j|] eqn:E;
    [| reflexivity].
  destruct (select_found name j E) as (i & Hi & Hk & _).
  rewrite (H i Hi) in Hk. discriminate.
Qed.

Lemma select_distinct : NoDup (columns (select_columns keep df)).
Proof.
  apply (proj2 (NoDup_nth _ "")). intros a b Ha Hb E.
  rewrite selected_length in Ha, Hb.
  destruct (selected_position a Ha) as (Hra & _ & Hla).
  destruct (selected_position b Hb) as (Hrb & _ & Hlb).
  rewrite Hla, Hlb in E.
  apply (proj1 (NoDup_nth _ "") distinct) in E; [| assumption | assumption].
  apply (proj1 (NoDup_nth ps O) (kept_positions_NoDup keep 0 (columns df)));
    assumption.
Qed.

Lemma select_row_length r :
  In r (rows (select_columns keep df)) ->
  List.length r = List.length (columns (select_columns keep df)).
Proof.
  unfold select_columns. simpl. fold ps. rewrite in_map_iff.
  intros (r0 & <- & _). now rewrite !length_map.
Qed.

Lemma select_rows :
  rows (select_columns keep df)
  = map (fun r => map (fun i => cell_at i r) ps) (rows df).
Proof. reflexivity. Qed.

Lemma select_rows_length :
  List.length (rows (select_columns keep df)) = List.length (rows df).
Proof. unfold select_columns. simpl. apply length_map. Qed.

End Select.

(** ** Pruning *)

Section Prune.

Variable df : DataFrame.
Hypothesis distinct : NoDup (columns df).
Variable name : string.
Hypothesis allowed : mem name relevant_cols || mem name funding_types = true.

Let has_value (i : nat) : bool :=
  existsb (fun r => notnull (cell_at i r)) (rows df).

Lemma prune_found j :
  index_of name (columns (prune_columns df)) = Some j ->
  exists i,
    index_of name (columns df) = Some i /\ has_value i = true
    /\ map (cell_at j) (rows (prune_columns df)) = map (cell_at i) (rows df).
Proof.
  unfold prune_columns. intros H.
  set (stage := select_columns _ df) in *.
  assert (D1 : NoDup (columns stage)) by (now apply select_distinct).
  destruct (select_found _ stage D1 name j H) as (i1 & H1 & _ & C1).
  destruct (select_found _ df distinct name i1 H1) as (i & H0 & K & C0).
  exists i. split; [exact H0 |]. split; [exact K |].
  rewrite (select_rows _ stage), (select_rows _ df : rows stage = _).
  rewrite !map_map. apply map_ext. intros r. rewrite C1. apply C0.
Qed.

Lemma prune_kept i :
  index_of name (columns df) = Some i -> has_value i = true ->
  exists j,
    index_of name (columns (prune_columns df)) = Some j
    /\ map (cell_at j) (rows (prune_columns df)) = map (cell_at i) (rows df).
Proof.
  intros H0 K.
  destruct (select_kept (fun i _ => has_value i) df distinct name i H0 K)
    as (i1 & H1 & _).
  assert (D1 : NoDup (columns (select_columns (fun i _ => has_value i) df)))
    by (now apply select_distinct).
  destruct (select_kept
              (fun _ c => mem c relevant_cols || mem c funding_types)
              _ D1 name i1 H1 allowed) as (j & Hj & _).
  exists j. split; [exact Hj |].
  destruct (prune_found j Hj) as (i' & H0' & _ & E).
  assert (i' = i) by congruence. now subst.
Qed.

Lemma prune_dropped :
  (forall i, index_of name (columns df) = Some i -> has_value i = false) ->
  index_of name (columns (prune_columns df)) = None.
Proof.
  intros H.
  destruct (index_of name (columns (prune_columns df))) as [j|] eqn:E;
    [| reflexivity].
  destruct (prune_found j E) as (i & H0 & K & _).
  rewrite (H i H0) in K. discriminate.
Qed.

End Prune.

Lemma prune_row_length df r :
  In r (rows (prune_columns df)) ->
  List.length r = List.length (columns (prune_columns df)).
Proof. unfold prune_columns. apply select_row_length. Qed.

Lemma prune_rows_length df :
  List.length (rows (prune_columns df)) = List.length (rows df).
Proof. unfold prune_columns. now rewrite !select_rows_length. Qed.

(** ** The funding coercion *)

Lemma cell_at_set_at_here j x row :
  (j < List.length row)%nat -> cell_at j (set_at j x row) = x.
Proof.
  unfold cell_at. revert j.
  induction row as [|a t IH]; intros [|j] H; simpl in *; try lia; auto.
  apply IH. lia.
Qed.

Lemma index_of_app_new name cols :
  index_of name cols = None ->
  index_of name (cols ++ [name])%list = Some (List.length cols).
Proof.
  induction cols as [|c t IH]; simpl.
  - now rewrite String.eqb_refl.
  - destruct (String.eqb name c); [discriminate |].
    destruct (index_of name t); simpl; [discriminate |].
    intros _. now rewrite IH.
Qed.

Lemma cell_at_app_new (r : list cell) c :
  cell_at (List.length r) (r ++ [c])%list = c.
Proof.
  unfold cell_at. rewrite app_nth2 by lia. now rewrite Nat.sub_diag.
Qed.

Lemma coerce_all_null cells :
  Forall (fun c => c = Null) cells ->
  map coerce_funding cells = map (fun _ => Py.FloatValue 0) cells.
Proof.
  induction 1 as [|c t Hc Ht IH]; simpl; [reflexivity |].
  subst c. simpl. now rewrite IH.
Qed.

Lemma no_error_in_zeros {A} (l : list A) :
  existsb is_value_error (map (fun _ => Py.FloatValue 0) l) = false
  /\ existsb is_non_finite (map (fun _ => Py.FloatValue 0) l) = false.
Proof.
  induction l as [|a t [IH1 IH2]]; simpl; auto.
Qed.

Lemma no_value_all_null i (rs : list (list cell)) :
  existsb (fun r => notnull (cell_at i r)) rs = false ->
  Forall (fun c => c = Null) (map (cell_at i) rs).
Proof.
  induction rs as [|r t IH]; simpl; [constructor |].
  rewrite orb_false_iff. intros [H1 H2]. constructor; [| now apply IH].
  destruct (cell_at i r); simpl in H1; congruence.
Qed.

Lemma all_null_const {A} (l : list A) :
  Forall (fun c => c = Null) (map (fun _ => Null) l).
Proof. induction l; simpl; constructor; auto. Qed.

(** What the coercion makes of a pruned frame, in terms of the Funding
    Amount cells before pruning. *)
Lemma coerce_pruned df :
  NoDup (columns df) ->
  let results := map coerce_funding (funding_cells df) in
  match coerce_funding_amount (prune_columns df) with
  | Raise e => e = ValueError /\ existsb is_value_error results = true
  | Unmodelled =>
      existsb is_value_error results = false
      /\ existsb is_non_finite results = true
  | Ok cleaned =>
      existsb is_value_error results = false
      /\ existsb is_non_finite results = false
      /\ column cleaned "Funding Amount" = Some (map float_cell results)
      /\ List.length (rows cleaned) = List.length (rows df)
      /\ columns cleaned <> []
  end.
Proof.
  intros distinct results.
  assert (A : mem "Funding Amount" relevant_cols
              || mem "Funding Amount" funding_types = true) by reflexivity.
  assert (Absent :
    Forall (fun c => c = Null) (funding_cells df) ->
    index_of "Funding Amount" (columns (prune_columns df)) = None ->
    match coerce_funding_amount (prune_columns df) with
    | Raise e => e = ValueError /\ existsb is_value_error results = true
    | Unmodelled =>
        existsb is_value_error results = false
        /\ existsb is_non_finite results = true
    | Ok cleaned =>
        existsb is_value_error results = false
        /\ existsb is_non_finite results = false
        /\ column cleaned "Funding Amount" = Some (map float_cell results)
        /\ List.length (rows cleaned) = List.length (rows df)
        /\ columns cleaned <> []
    end).
  { intros Hnull Hidx. unfold coerce_funding_amount. rewrite Hidx.
    unfold results. rewrite (coerce_all_null _ Hnull).
    destruct (no_error_in_zeros (funding_cells df)) as [E1 E2].
    split; [exact E1 |]. split; [exact E2 |]. split; [| split].
    - unfold column. cbn [columns rows]. rewrite (index_of_app_new _ _ Hidx).
      cbn [option_map]. f_equal. rewrite !map_map.
      transitivity (map (fun _ : list cell => Num 0) (rows (prune_columns df))).
      + apply map_ext_in. intros r Hr.
        rewrite <- (prune_row_length df r Hr). apply cell_at_app_new.
      + assert (L : List.length (rows (prune_columns df))
                    = List.length (funding_cells df)).
        { rewrite prune_rows_length. unfold funding_cells.
          destruct (index_of "Funding Amount" (columns df));
            symmetry; apply length_map. }
        revert L. generalize (rows (prune_columns df)) (funding_cells df).
        induction l as [|a t IH]; intros [|b u] L; simpl in *;
          try congruence.
        f_equal. apply IH. congruence.
    - cbn [rows]. rewrite length_map. apply prune_rows_length.
    - cbn [columns]. destruct (columns (prune_columns df)); discriminate. }
  destruct (index_of "Funding Amount" (columns df)) as [i|] eqn:I.
  - destruct (existsb (fun r => notnull (cell_at i r)) (rows df)) eqn:V.
    + destruct (prune_kept df distinct _ A i I V) as (j & Hj & Hcells).
      assert (R : map (fun r => coerce_funding (cell_at j r))
                    (rows (prune_columns df)) = results).
      { unfold results, funding_cells. rewrite I, <- Hcells.
        now rewrite map_map. }
      unfold coerce_funding_amount. rewrite Hj, R.
      destruct (existsb is_value_error results); [auto |].
      destruct (existsb is_non_finite results); [auto |].
      split; [reflexivity |]. split; [reflexivity |]. split; [| split].
      * unfold column. cbn [columns rows]. rewrite Hj. cbn [option_map]. f_equal.
        rewrite <- R, !map_map. apply map_ext_in. intros r Hr.
        apply cell_at_set_at_here. rewrite (prune_row_length df r Hr).
        now apply index_of_nth in Hj.
      * cbn [rows]. rewrite length_map. apply prune_rows_length.
      * cbn [columns]. intros E. rewrite E in Hj. discriminate.
    + apply Absent.
      * unfold funding_cells. rewrite I. now apply no_value_all_null.
      * apply prune_dropped; [exact distinct |].
        intros i' Hi'. assert (i' = i) by congruence. now subst.
  - apply Absent.
    + unfold funding_cells. rewrite I. apply all_null_const.
    + apply prune_dropped; [exact distinct |]. intros i' Hi'. congruence.
Qed.

(** ** [clean_data] *)

Lemma resolved_filter df :
  resolved df = true
  <-> filter (fun name => negb (mem name (normalized_columns df))) mandatory = [].
Proof.
  unfold resolved, mandatory. simpl.
  destruct (mem "Company Name" (normalized_columns df)),
    (mem "Category" (normalized_columns df)),
    (mem "City" (normalized_columns df)); simpl; split; congruence.
Qed.

(** With the mandatory fields resolved, distinct labels and names that are
    text, cleaning comes down to the coercion of the pruned survivors. *)
Lemma clean_data_resolved df :
  resolved df = true ->
  nodup_labels (normalized_columns df) = true ->
  names_are_text df = true ->
  clean_data df
  = coerce_funding_amount
      (prune_columns {| columns := normalized_columns df;
                        rows := surviving_rows df |}).
Proof.
  intros R D T. unfold clean_data.
  rewrite (proj1 (resolved_filter df) R), D. simpl negb. cbv iota.
  unfold names_are_text in T.
  destruct (column _ "Company Name") as [names|] eqn:C.
  - apply andb_true_iff in T. destruct T as [T1 T2].
    apply negb_true_iff in T1, T2. now rewrite T1, T2.
  - exfalso. unfold column in C. simpl columns in C.
    destruct (index_of "Company Name" (normalized_columns df)) eqn:I;
      [discriminate |].
    apply index_of_None in I. apply I, mem_In.
    unfold resolved, mandatory in R. simpl in R.
    now destruct (mem "Company Name" (normalized_columns df)).
Qed.

Lemma clean_data_KeyError df :
  resolved df = false <-> exists missing, clean_data df = Raise (KeyError missing).
Proof.
  split.
  - intros R. unfold clean_data.
    destruct (filter _ mandatory) as [|a t] eqn:F; [| eauto].
    apply resolved_filter in F. congruence.
  - intros (missing & H). destruct (resolved df) eqn:R; [| reflexivity].
    exfalso. revert H. unfold clean_data.
    rewrite (proj1 (resolved_filter df) R).
    destruct (nodup_labels (normalized_columns df)) eqn:D; simpl;
      [| discriminate].
    destruct (names_are_text df) eqn:T.
    + pose proof (clean_data_resolved df R D T) as E. unfold clean_data in E.
      rewrite (proj1 (resolved_filter df) R), D in E. simpl in E.
      rewrite E.
      pose proof (coerce_pruned {| columns := normalized_columns df;
                                   rows := surviving_rows df |}
                    (proj1 (nodup_labels_NoDup _) D)) as P.
      simpl in P. destruct (coerce_funding_amount _); try discriminate.
      destruct P as [-> _]. discriminate.
    + unfold names_are_text in T.
      destruct (column _ "Company Name") as [names|]; [| discriminate].
      destruct (numeric_dtype names); [discriminate |].
      destruct (existsb is_number names); discriminate.
Qed.

Lemma results_are_values (cells : list cell) :
  existsb is_value_error (map coerce_funding cells) = false ->
  existsb is_non_finite (map coerce_funding cells) = false ->
  Forall (fun c => exists x, coerce_funding c = Py.FloatValue x) cells.
Proof.
  induction cells as [|c t IH]; simpl; [constructor |].
  rewrite !orb_false_iff. intros [V1 V2] [N1 N2].
  constructor; [| now apply IH].
  destruct (coerce_funding c); simpl in *; eauto; discriminate.
Qed.

Lemma value_error_among (cells : list cell) s :
  In (Str s) cells -> Py.float (funding_text s) = Py.FloatValueError ->
  existsb is_value_error (map coerce_funding cells) = true.
Proof.
  intros Hin Hs. apply existsb_exists. exists Py.FloatValueError.
  split; [| reflexivity]. rewrite <- Hs.
  now apply (in_map coerce_funding _ (Str s)).
Qed.

Section Cleaning.

Variable df : DataFrame.
Hypothesis fields : resolved df = true.
Hypothesis labels : nodup_labels (normalized_columns df) = true.
Hypothesis names : names_are_text df = true.

Let results := map coerce_funding (surviving_funding df).

Lemma clean_data_cases :
  match clean_data df with
  | Raise e => e = ValueError /\ existsb is_value_error results = true
  | Unmodelled =>
      existsb is_value_error results = false
      /\ existsb is_non_finite results = true
  | Ok cleaned =>
      existsb is_value_error results = false
      /\ existsb is_non_finite results = false
      /\ column cleaned "Funding Amount" = Some (map float_cell results)
      /\ List.length (rows cleaned) = List.length (surviving_rows df)
      /\ columns cleaned <> []
  end.
Proof.
  rewrite (clean_data_resolved df fields labels names).
  exact (coerce_pruned {| columns := normalized_columns df;
                          rows := surviving_rows df |}
           (proj1 (nodup_labels_NoDup _) labels)).
Qed.

Lemma results_length : List.length results = List.length (surviving_rows df).
Proof.
  unfold results, surviving_funding, funding_cells. simpl.
  destruct (index_of _ _); now rewrite !length_map.
Qed.

End Cleaning.

(** C2, as amended.  A funding that is missing becomes 0.0, and so does
    the text " - "; a funding text that [float] rejects, once "$" and ","
    are removed, " - " is replaced by "0" and white space is stripped,
    makes [clean_data] raise [ValueError].  When [clean_data] returns,
    every Funding Amount is the number read from the cell. *)
Theorem C2_funding_coercion df :
  resolved df = true ->
  nodup_labels (normalized_columns df) = true ->
  names_are_text df = true ->
  coerce_funding Null = Py.FloatValue 0
  /\ coerce_funding (Str " - ") = Py.FloatValue 0
  /\ (forall s, In (Str s) (surviving_funding df) ->
                Py.float (funding_text s) = Py.FloatValueError ->
                clean_data df = Raise ValueError)
  /\ (forall cleaned, clean_data df = Ok cleaned ->
         column cleaned "Funding Amount"
         = Some (map float_cell (map coerce_funding (surviving_funding df)))
         /\ Forall (fun c => exists x, coerce_funding c = Py.FloatValue x)
              (surviving_funding df)).
Proof.
  intros R D T. split; [reflexivity |]. split; [reflexivity |].
  pose proof (clean_data_cases df R D T) as H. split.
  - intros s Hin Hs. pose proof (value_error_among _ s Hin Hs) as E.
    destruct (clean_data df) as [cleaned|e|].
    + destruct H as [H _]. congruence.
    + destruct H as [-> _]. reflexivity.
    + destruct H as [H _]. congruence.
  - intros cleaned Hc. rewrite Hc in H.
    destruct H as (V & N & C & _). split; [exact C |].
    now apply results_are_values.
Qed.

(** The dash and the missing funding of [placeholder_raw] both become 0. *)
Lemma C2_funding_coercion_witness :
  exists cleaned,
    clean_data placeholder_raw = Ok cleaned
    /\ column cleaned "Funding Amount" = Some [Num 0; Num 0; Num 1000000].
Proof.
  destruct (C2_funding_coercion placeholder_raw eq_refl eq_refl eq_refl)
    as (_ & _ & _ & H).
  destruct (clean_data placeholder_raw) as [cleaned|e|] eqn:E;
    [| vm_compute in E; discriminate ..].
  exists cleaned. split; [reflexivity |].
  destruct (H cleaned eq_refl) as [C _]. rewrite C.
  vm_compute. reflexivity.
Defined.

(** C2 as stated fails: the funding text "unknown" does not become 0.0,
    [clean_data] raises [ValueError] on the file that holds it. *)
Lemma C2_unparsable_counterexample :
  In (Str "unknown") (surviving_funding unparsable_raw)
  /\ Py.float (funding_text "unknown") = Py.FloatValueError
  /\ clean_data unparsable_raw = Raise ValueError
  /\ clean unparsable_raw = Raise ValueError.
Proof.
  split; [left; reflexivity |]. repeat split.
Qed.

(** * Further properties of [score_companies] *)

(** ** The cap and the largest score *)

Lemma score_uncapped y parse df m i :
  raw_metrics y parse df = Ok m ->
  (i < List.length (rows df))%nat ->
  nth i (Score_column m) 0 = sub_score_sum m i /\ sub_score_sum m i <= 100.
Proof.
  intros Hm Hi. rewrite (nth_Score_column y parse df m Hm i Hi).
  destruct (sub_score_bounds y parse df m Hm i Hi) as (F & R & A & T).
  assert (B : sub_score_sum m i <= 100) by (unfold sub_score_sum; lra).
  split; [| exact B]. unfold cap.
  now rewrite (proj2 (Qle_bool_iff _ _) B).
Qed.

(** X1.  [clip(upper=100)] never changes a score: the four sub-scores of a
    record add up to 100 at most, and the score is their sum. *)
Theorem X1_cap_is_inactive y parse df out :
  score_companies y parse df = Ok out ->
  exists m,
    raw_metrics y parse df = Ok m
    /\ forall i, (i < List.length (rows df))%nat ->
         sub_score_sum m i <= 100
         /\ nth i (Score out) 0 = sub_score_sum m i.
Proof.
  intros H. destruct (score_companies_Ok _ _ _ _ H) as (m & Hm & HS & _).
  exists m. split; [exact Hm |]. intros i Hi. rewrite HS.
  destruct (score_uncapped y parse df m i Hm Hi). auto.
Qed.

(** The scores of the example are the sums of their sub-scores. *)
Lemma X1_cap_is_inactive_witness :
  exists m,
    raw_metrics 2026 float_literal acme_beta = Ok m
    /\ nth 0 [3080 # 32; 1720 # 32] 0 = sub_score_sum m 0.
Proof.
  destruct (X1_cap_is_inactive 2026 float_literal acme_beta
              {| frame := acme_beta;
                 Score := [3080 # 32; 1720 # 32];
                 Top_Quality := ["Funding"; "Funding"] |} eq_refl)
    as (m & Hm & Hi).
  exists m. split; [exact Hm |]. apply (Hi 0%nat). simpl. lia.
Defined.

(** An entry has percentile rank 1 exactly when every other entry is
    strictly below it. *)
Lemma filter_length_lt (p : Q -> bool) xs z :
  In z xs -> p z = false ->
  (List.length (filter p xs) < List.length xs)%nat.
Proof.
  induction xs as [|a t IH]; simpl; [tauto |].
  intros [-> | Hz] Hp.
  - rewrite Hp. pose proof (filter_length_le p t). lia.
  - specialize (IH Hz Hp). destruct (p a); simpl; lia.
Qed.

Lemma filter_all_but_one (p : Q -> bool) xs i :
  (i < List.length xs)%nat -> p (nth i xs 0) = false ->
  (S (List.length (filter p xs)) = List.length xs
   <-> forall j, (j < List.length xs)%nat -> j <> i -> p (nth j xs 0) = true).
Proof.
  revert i. induction xs as [|x t IH]; intros i Hi Hp; simpl in Hi; [lia |].
  destruct i as [|i]; simpl in Hp |- *.
  - rewrite Hp. split.
    + intros E j Hj Hne. destruct j as [|j]; [congruence |].
      assert (L : List.length (filter p t) = List.length t) by lia.
      assert (F : forall z, In z t -> p z = true).
      { clear - L. induction t as [|a u IHu]; simpl in *; [tauto |].
        destruct (p a) eqn:A; simpl in L.
        - intros z [<- | Hz]; [exact A | apply IHu; [lia | exact Hz]].
        - pose proof (filter_length_le p u). lia. }
      apply F, nth_In. lia.
    + intros H. f_equal.
      assert (F : forall z, In z t -> p z = true).
      { intros z Hz. destruct (In_nth t z 0 Hz) as (j & Hj & <-).
        apply (H (S j)); [lia | discriminate]. }
      clear - F. induction t as [|a u IHu]; simpl; [reflexivity |].
      rewrite (F a) by now left. simpl. f_equal. apply IHu.
      intros z Hz. apply F. now right.
  - pose proof (filter_length_le p t) as Lt.
    destruct (p x) eqn:X; simpl.
    + rewrite (Nat.succ_inj_wd (S _)), (IH i) by (lia || assumption).
      split.
      * intros H [|j] Hj Hne; [exact X |]. apply H; lia.
      * intros H j Hj Hne. apply (H (S j)); lia.
    + split.
      * intros E. exfalso.
        assert (Hz : In (nth i t 0) t) by (apply nth_In; lia).
        pose proof (filter_length_lt p t _ Hz Hp). lia.
      * intros H. specialize (H 0%nat). simpl in H.
        rewrite H in X by (lia || discriminate). discriminate.
Qed.

Lemma rank_pct_one xs i :
  (i < List.length xs)%nat ->
  (nth i (rank_pct xs) 0 == 1
   <-> forall j, (j < List.length xs)%nat -> j <> i -> nth j xs 0 < nth i xs 0).
Proof.
  intros Hi. set (x := nth i xs 0). set (n := List.length xs).
  assert (Hin : In x xs) by (now apply nth_In).
  pose proof (count_eq_pos xs x Hin) as He.
  pose proof (count_bound xs x) as Hb.
  assert (Hself : Qlt_bool x x = false) by (apply Qlt_bool_false; lra).
  pose proof (filter_all_but_one (fun y => Qlt_bool y x) xs i Hi Hself) as A.
  fold (count_lt xs x) in A.
  assert (Hn : 0 < of_nat n) by (apply of_nat_pos; unfold n; lia).
  assert (R : nth i (rank_pct xs) 0 == 1 <-> S (count_lt xs x) = n).
  { rewrite rank_pct_counts by exact Hi. fold x. fold n.
    rewrite count_le_split, of_nat_plus. split.
    - intros E.
      assert (E' : of_nat (count_lt xs x) + (of_nat (count_lt xs x)
                     + of_nat (count_eq xs x)) + 1 == 2 * of_nat n).
      { transitivity
          (2 * of_nat n
           * ((of_nat (count_lt xs x)
               + (of_nat (count_lt xs x) + of_nat (count_eq xs x)) + 1)
              / (2 * of_nat n))).
        - symmetry. apply Qmult_div_r. lra.
        - rewrite E. ring. }
      assert (E2 : (count_lt xs x + (count_lt xs x + count_eq xs x) + 1
                    = 2 * n)%nat).
      { apply of_nat_inj.
        rewrite of_nat_mult, !of_nat_plus. exact E'. }
      fold n in Hb. lia.
    - intros E.
      assert (Q1 : count_eq xs x = 1%nat) by (fold n in Hb; lia).
      rewrite Q1. rewrite <- E.
      replace (S (count_lt xs x)) with (count_lt xs x + 1)%nat by lia.
      rewrite of_nat_plus. change (of_nat 1) with 1.
      pose proof (of_nat_nonneg (count_lt xs x)). field. lra. }
  rewrite R. unfold n. rewrite A. split; intros H j Hj Hne.
  - apply Qlt_bool_iff. now apply H.
  - apply Qlt_bool_iff. now apply H.
Qed.

(** X2.  A record scores 100 exactly when, on each of the four metrics,
    every other record is strictly below it. *)
Theorem X2_full_score_iff_sole_top y parse df out i :
  score_companies y parse df = Ok out ->
  (i < List.length (rows df))%nat ->
  exists m,
    raw_metrics y parse df = Ok m
    /\ (nth i (Score out) 0 == 100
        <-> forall k j, (j < List.length (rows df))%nat -> j <> i ->
              nth j (metric_column k m) 0 < nth i (metric_column k m) 0).
Proof.
  intros H Hi. destruct (score_companies_Ok _ _ _ _ H) as (m & Hm & HS & _).
  exists m. split; [exact Hm |]. rewrite HS.
  destruct (score_uncapped y parse df m i Hm Hi) as [-> _].
  destruct (sub_score_bounds y parse df m Hm i Hi) as (F & R & A & T).
  pose proof (raw_metrics_lengths _ _ _ _ Hm) as L.
  assert (Hone : forall k,
            nth i (rank_pct (metric_column k m)) 0 == 1
            <-> forall j, (j < List.length (rows df))%nat -> j <> i ->
                  nth j (metric_column k m) 0 < nth i (metric_column k m) 0).
  { intros k. rewrite <- (L k). apply rank_pct_one. rewrite (L k). exact Hi. }
  pose proof (sub_score_weighted y parse df m Hm i QFunding Hi) as WF.
  pose proof (sub_score_weighted y parse df m Hm i QRounds Hi) as WR.
  pose proof (sub_score_weighted y parse df m Hm i QAge Hi) as WA.
  pose proof (sub_score_weighted y parse df m Hm i QFundingType Hi) as WT.
  unfold sub_score_sum. cbn [sub_score] in WF, WR, WA, WT, F, R, A, T |- *.
  rewrite WF in F. rewrite WR in R. rewrite WA in A. rewrite WT in T.
  rewrite WF, WR, WA, WT. split.
  - intros E k. apply Hone. destruct k; simpl metric_column; lra.
  - intros Hall.
    pose proof (proj2 (Hone FundingAmount) (Hall FundingAmount)) as E1.
    pose proof (proj2 (Hone RoundsMetric) (Hall RoundsMetric)) as E2.
    pose proof (proj2 (Hone AgeMetric) (Hall AgeMetric)) as E3.
    pose proof (proj2 (Hone FundingTypeCount) (Hall FundingTypeCount)) as E4.
    simpl metric_column in E1, E2, E3, E4.
    rewrite E1, E2, E3, E4. reflexivity.
Qed.

(** Beta is not at the top of the example: its score is 100 exactly when
    it is above Acme on each metric, which it is not. *)
Lemma X2_full_score_iff_sole_top_witness :
  exists m,
    raw_metrics 2026 float_literal acme_beta = Ok m
    /\ (nth 1 [3080 # 32; 1720 # 32] 0 == 100
        <-> forall k j, (j < 2)%nat -> j <> 1%nat ->
              nth j (metric_column k m) 0 < nth 1 (metric_column k m) 0).
Proof.
  apply (X2_full_score_iff_sole_top 2026 float_literal acme_beta
           {| frame := acme_beta;
              Score := [3080 # 32; 1720 # 32];
              Top_Quality := ["Funding"; "Funding"] |} 1%nat eq_refl).
  simpl. lia.
Defined.

(** ** Comparing two records *)

Lemma count_lt_monotone xs x y : x <= y -> (count_lt xs x <= count_lt xs y)%nat.
Proof.
  intros H. apply filter_length_Forall2, Forall2_same.
  intros z Hz. reflect_Q. apply Qlt_bool_iff. lra.
Qed.

Lemma count_le_monotone xs x y : x <= y -> (count_le xs x <= count_le xs y)%nat.
Proof.
  intros H. apply filter_length_Forall2, Forall2_same.
  intros z Hz. reflect_Q. apply Qle_bool_iff. lra.
Qed.

Lemma count_le_below xs x y : x < y -> (count_le xs x <= count_lt xs y)%nat.
Proof.
  intros H. apply filter_length_Forall2, Forall2_same.
  intros z Hz. reflect_Q. apply Qlt_bool_iff. lra.
Qed.

Lemma rank_pct_monotone xs i j :
  (i < List.length xs)%nat -> (j < List.length xs)%nat ->
  (nth i xs 0 <= nth j xs 0 -> nth i (rank_pct xs) 0 <= nth j (rank_pct xs) 0)
  /\ (nth i xs 0 < nth j xs 0 -> nth i (rank_pct xs) 0 < nth j (rank_pct xs) 0).
Proof.
  intros Hi Hj. rewrite !rank_pct_counts by assumption.
  set (x := nth i xs 0). set (z := nth j xs 0).
  assert (Hn : 0 < of_nat (List.length xs)) by (apply of_nat_pos; lia).
  assert (Hinv : 0 < / (2 * of_nat (List.length xs)))
    by (apply Qinv_lt_0_compat; lra).
  split; intros H.
  - pose proof (of_nat_le _ _ (count_lt_monotone xs x z H)).
    pose proof (of_nat_le _ _ (count_le_monotone xs x z H)).
    apply Qmult_le_compat_r; lra.
  - pose proof (of_nat_le _ _ (count_le_below xs x z H)) as B.
    pose proof (count_eq_pos xs z (nth_In xs 0 Hj)) as Pz.
    pose proof (count_eq_pos xs x (nth_In xs 0 Hi)) as Px.
    fold z in Pz. fold x in Px.
    assert (B1 : of_nat (count_lt xs x) + 1 <= of_nat (count_le xs x)).
    { rewrite count_le_split, of_nat_plus.
      assert (of_nat 1 <= of_nat (count_eq xs x)) by (apply of_nat_le; lia).
      change (of_nat 1) with 1 in *. lra. }
    assert (B2 : of_nat (count_lt xs z) + 1 <= of_nat (count_le xs z)).
    { rewrite count_le_split, of_nat_plus.
      assert (of_nat 1 <= of_nat (count_eq xs z)) by (apply of_nat_le; lia).
      change (of_nat 1) with 1 in *. lra. }
    apply Qmult_lt_compat_r; lra.
Qed.

(** X3.  A record that is at or above another on each of the four metrics
    has at least its score, and a larger score when it is strictly above
    on one of them. *)
Theorem X3_score_respects_dominance y parse df out i j :
  score_companies y parse df = Ok out ->
  (i < List.length (rows df))%nat -> (j < List.length (rows df))%nat ->
  exists m,
    raw_metrics y parse df = Ok m
    /\ ((forall k, nth i (metric_column k m) 0 <= nth j (metric_column k m) 0) ->
        nth i (Score out) 0 <= nth j (Score out) 0
        /\ ((exists k, nth i (metric_column k m) 0 < nth j (metric_column k m) 0)
            -> nth i (Score out) 0 < nth j (Score out) 0)).
Proof.
  intros H Hi Hj. destruct (score_companies_Ok _ _ _ _ H) as (m & Hm & HS & _).
  exists m. split; [exact Hm |]. rewrite HS. intros Hall.
  destruct (score_uncapped y parse df m i Hm Hi) as [-> _].
  destruct (score_uncapped y parse df m j Hm Hj) as [-> _].
  pose proof (raw_metrics_lengths _ _ _ _ Hm) as L.
  assert (Mono : forall k,
            (nth i (rank_pct (metric_column k m)) 0
             <= nth j (rank_pct (metric_column k m)) 0)
            /\ (nth i (metric_column k m) 0 < nth j (metric_column k m) 0 ->
                nth i (rank_pct (metric_column k m)) 0
                < nth j (rank_pct (metric_column k m)) 0)).
  { intros k.
    destruct (rank_pct_monotone (metric_column k m) i j) as [M1 M2];
      rewrite ?(L k); auto. }
  unfold sub_score_sum.
  rewrite !(sub_score_weighted y parse df m Hm i) by exact Hi.
  rewrite !(sub_score_weighted y parse df m Hm j) by exact Hj.
  destruct (Mono FundingAmount) as [F1 F2], (Mono RoundsMetric) as [R1 R2],
    (Mono AgeMetric) as [A1 A2], (Mono FundingTypeCount) as [T1 T2].
  simpl metric_column in *. split; [lra |].
  intros ([ | | | ] & Hk); simpl metric_column in Hk;
    [specialize (F2 Hk) | specialize (R2 Hk) | specialize (A2 Hk)
     | specialize (T2 Hk)]; lra.
Qed.

(** Acme has more funding, more rounds and more years than Beta, and the
    same count of funding types: its score is the larger one. *)
Lemma X3_score_respects_dominance_witness :
  nth 1 [3080 # 32; 1720 # 32] 0 < nth 0 [3080 # 32; 1720 # 32] 0.
Proof.
  destruct (X3_score_respects_dominance 2026 float_literal acme_beta
              {| frame := acme_beta;
                 Score := [3080 # 32; 1720 # 32];
                 Top_Quality := ["Funding"; "Funding"] |} 1%nat 0%nat eq_refl)
    as (m & Hm & Hdom); [simpl; lia | simpl; lia |].
  vm_compute in Hm. inversion Hm; subst m; clear Hm.
  refine (proj2 (Hdom _) _).
  - intros [ | | | ]; vm_compute; discriminate.
  - exists FundingAmount. reflexivity.
Defined.

(** ** Ranks see the order of the values only *)

Section OrderOnly.

Variable f : Q -> Q.
Hypothesis order_kept : increasing f.

Lemma increasing_le a b : Qle_bool (f a) (f b) = Qle_bool a b.
Proof.
  destruct order_kept as [Heq Hlt].
  destruct (Qle_bool a b) eqn:E; reflect_Q.
  - apply Qle_bool_iff. destruct (Qlt_le_dec a b) as [L | L].
    + apply Qlt_le_weak. now apply Hlt.
    + assert (a == b) as Hab by lra. rewrite (Heq a b Hab). lra.
  - apply Qle_bool_false. now apply Hlt.
Qed.

Lemma increasing_eq a b : Qeq_bool (f a) (f b) = Qeq_bool a b.
Proof.
  destruct order_kept as [Heq Hlt].
  destruct (Qeq_bool a b) eqn:E; reflect_Q.
  - apply Qeq_bool_iff. now apply Heq.
  - destruct (Qeq_bool (f a) (f b)) eqn:E'; [| reflexivity]. reflect_Q.
    exfalso. destruct (Qlt_le_dec a b) as [L | L].
    + apply Hlt in L. lra.
    + destruct (Qlt_le_dec b a) as [L' | L'].
      * apply Hlt in L'. lra.
      * apply E. lra.
Qed.

Lemma insert_sorted_map x s :
  insert_sorted (f x) (map f s) = map f (insert_sorted x s).
Proof.
  induction s as [|a t IH]; simpl; [reflexivity |].
  rewrite increasing_le. destruct (Qle_bool x a); simpl; congruence.
Qed.

Lemma sort_values_map xs : sort_values (map f xs) = map f (sort_values xs).
Proof.
  induction xs as [|a t IH]; simpl; [reflexivity |].
  now rewrite IH, insert_sorted_map.
Qed.

Lemma tie_ranks_map x k s : tie_ranks (f x) k (map f s) = tie_ranks x k s.
Proof.
  revert k. induction s as [|a t IH]; intros k; simpl; [reflexivity |].
  rewrite increasing_eq. now rewrite !IH.
Qed.

Lemma rank_pct_map xs : rank_pct (map f xs) = rank_pct xs.
Proof.
  unfold rank_pct. rewrite map_map, length_map. apply map_ext. intros x.
  unfold rank_average. now rewrite sort_values_map, tie_ranks_map.
Qed.

End OrderOnly.

(** Columns that agree entry by entry as numbers have the same ranks. *)
Lemma Qle_bool_compat x x' z z' :
  x == x' -> z == z' -> Qle_bool x z = Qle_bool x' z'.
Proof.
  intros E1 E2. destruct (Qle_bool x' z') eqn:B; reflect_Q.
  - apply Qle_bool_iff. lra.
  - apply Qle_bool_false. lra.
Qed.

Lemma Qeq_bool_compat x x' z z' :
  x == x' -> z == z' -> Qeq_bool x z = Qeq_bool x' z'.
Proof.
  intros E1 E2. destruct (Qeq_bool x' z') eqn:B; reflect_Q.
  - apply Qeq_bool_iff. lra.
  - destruct (Qeq_bool x z) eqn:B'; [| reflexivity]. reflect_Q.
    exfalso. apply B. lra.
Qed.

Lemma insert_sorted_Qeq x x' s s' :
  x == x' -> Forall2 Qeq s s' ->
  Forall2 Qeq (insert_sorted x s) (insert_sorted x' s').
Proof.
  intros E H. induction H as [|a a' t t' Ha Ht IH]; simpl.
  - repeat constructor. exact E.
  - rewrite (Qle_bool_compat x x' a a' E Ha).
    destruct (Qle_bool x' a'); repeat constructor; assumption.
Qed.

Lemma sort_values_Qeq xs xs' :
  Forall2 Qeq xs xs' -> Forall2 Qeq (sort_values xs) (sort_values xs').
Proof.
  induction 1 as [|a a' t t' Ha Ht IH]; simpl; [constructor |].
  now apply insert_sorted_Qeq.
Qed.

Lemma tie_ranks_Qeq x x' k s s' :
  x == x' -> Forall2 Qeq s s' -> tie_ranks x k s = tie_ranks x' k s'.
Proof.
  intros E H. revert k. induction H as [|a a' t t' Ha Ht IH]; intros k; simpl.
  - reflexivity.
  - rewrite (Qeq_bool_compat a a' x x' Ha E). now rewrite !IH.
Qed.

Lemma rank_pct_Qeq xs xs' : Forall2 Qeq xs xs' -> rank_pct xs = rank_pct xs'.
Proof.
  intros H. unfold rank_pct. rewrite (Forall2_length H).
  assert (G : forall l l', Forall2 Qeq l l' ->
            map (fun x => rank_average xs x / of_nat (List.length xs')) l
            = map (fun x => rank_average xs' x / of_nat (List.length xs')) l').
  { induction 1 as [|a a' t t' Ha Ht IH]; simpl; [reflexivity |].
    rewrite IH. f_equal. unfold rank_average.
    now rewrite (tie_ranks_Qeq a a' 1 _ _ Ha (sort_values_Qeq _ _ H)). }
  now apply G.
Qed.

(** X4.  The scores depend on the values of a metric through their order
    only: two frames whose metrics are related by order-keeping maps, as
    under a change of currency or of scale, get the same Score and the same
    Top Quality, record by record. *)
Theorem X4_scores_keep_under_rescaling y parse df df' m m' out out'
    (f : metric -> Q -> Q) :
  raw_metrics y parse df = Ok m ->
  raw_metrics y parse df' = Ok m' ->
  (forall k, increasing (f k)) ->
  (forall k, Forall2 Qeq (metric_column k m') (map (f k) (metric_column k m))) ->
  score_companies y parse df = Ok out ->
  score_companies y parse df' = Ok out' ->
  Score out' = Score out /\ Top_Quality out' = Top_Quality out.
Proof.
  intros Hm Hm' Hf Hcols Ho Ho'.
  destruct (score_companies_Ok _ _ _ _ Ho) as (m0 & Hm0 & HS & HT).
  destruct (score_companies_Ok _ _ _ _ Ho') as (m1 & Hm1 & HS' & HT').
  assert (m0 = m) by congruence. assert (m1 = m') by congruence. subst m0 m1.
  assert (E : rank_pct (Funding_Amount m') = rank_pct (Funding_Amount m)
              /\ rank_pct (Rounds m') = rank_pct (Rounds m)
              /\ rank_pct (Age m') = rank_pct (Age m)
              /\ rank_pct (Funding_Type_Count m')
                 = rank_pct (Funding_Type_Count m)).
  { pose proof (Hcols FundingAmount) as C1. pose proof (Hcols RoundsMetric) as C2.
    pose proof (Hcols AgeMetric) as C3.
    pose proof (Hcols FundingTypeCount) as C4. simpl in C1, C2, C3, C4.
    rewrite (rank_pct_Qeq _ _ C1), (rank_pct_Qeq _ _ C2),
      (rank_pct_Qeq _ _ C3), (rank_pct_Qeq _ _ C4).
    now rewrite !rank_pct_map by apply Hf. }
  destruct E as (E1 & E2 & E3 & E4).
  rewrite HS, HS', HT, HT'. unfold Score_column, Top_Quality_column.
  unfold Funding_Score, Rounds_Score, Age_Score, Funding_Type_Score.
  now rewrite E1, E2, E3, E4.
Qed.

(** Counting the funding of the example in thousands changes no score. *)
Lemma X4_scores_keep_under_rescaling_witness :
  exists out',
    score_companies 2026 float_literal acme_beta_thousands = Ok out'
    /\ Score out' = [3080 # 32; 1720 # 32]
    /\ Top_Quality out' = ["Funding"; "Funding"].
Proof.
  eexists. split; [reflexivity |].
  refine (X4_scores_keep_under_rescaling 2026 float_literal
            acme_beta acme_beta_thousands _ _
            {| frame := acme_beta;
               Score := [3080 # 32; 1720 # 32];
               Top_Quality := ["Funding"; "Funding"] |} _
            (fun k x => match k with
                        | FundingAmount => x * (1 # 1000)
                        | _ => x * 1
                        end)
            eq_refl eq_refl _ _ eq_refl eq_refl).
  - intros k. split; intros a b Hab; destruct k; try lra; now rewrite Hab.
  - intros [ | | | ]; repeat constructor.
Defined.

(** ** The scores of a frame add up to a constant *)

Lemma list_sum_plus {A} (c g : A -> nat) l :
  list_sum (map (fun y => (c y + g y)%nat) l)
  = (list_sum (map c l) + list_sum (map g l))%nat.
Proof. induction l as [|a t IH]; simpl; lia. Qed.

Lemma list_sum_indicator {A} (p : A -> bool) l :
  list_sum (map (fun y => if p y then 1%nat else 0%nat) l)
  = List.length (filter p l).
Proof.
  induction l as [|a t IH]; simpl; [reflexivity |].
  destruct (p a); simpl; lia.
Qed.

Lemma filter_complement {A} (p : A -> bool) l :
  (List.length (filter p l) + List.length (filter (fun y => negb (p y)) l)
   = List.length l)%nat.
Proof.
  induction l as [|a t IH]; simpl; [reflexivity |].
  destruct (p a); simpl; lia.
Qed.

(** Of two entries, one is below the other or the other is at or below
    the one: counted over all pairs, this gives the number of pairs. *)
Lemma pair_count xs ys :
  (list_sum (map (count_lt ys) xs) + list_sum (map (count_le xs) ys)
   = List.length xs * List.length ys)%nat.
Proof.
  induction xs as [|a t IH]; simpl.
  - induction ys; simpl; auto.
  - assert (E : map (count_le (a :: t)) ys
                = map (fun y => ((if Qle_bool a y then 1 else 0)
                                 + count_le t y)%nat) ys).
    { apply map_ext. intros y. unfold count_le. simpl.
      destruct (Qle_bool a y); reflexivity. }
    rewrite E, list_sum_plus, list_sum_indicator.
    pose proof (filter_complement (Qle_bool a) ys) as C. cbv beta in C.
    assert (L : count_lt ys a
                = List.length (filter (fun y => negb (Qle_bool a y)) ys))
      by reflexivity.
    lia.
Qed.

Lemma total_ext {A} (g h : A -> Q) l :
  (forall x, In x l -> g x == h x) -> total (map g l) == total (map h l).
Proof.
  induction l as [|a t IH]; simpl; intros H; [reflexivity |].
  rewrite (H a) by now left. rewrite IH; [reflexivity |].
  intros x Hx. apply H. now right.
Qed.

Lemma total_counts {A} (c : A -> nat) (d : Q) l :
  total (map (fun x => (of_nat (c x) + 1) / d) l)
  == (of_nat (list_sum (map c l)) + of_nat (List.length l)) / d.
Proof.
  induction l as [|a t IH]; simpl total; simpl list_sum; simpl List.length.
  - unfold Qdiv. change (of_nat 0) with 0. ring.
  - rewrite IH, of_nat_plus.
    replace (S (List.length t)) with (1 + List.length t)%nat by reflexivity.
    rewrite (of_nat_plus 1). change (of_nat 1) with 1.
    unfold Qdiv. ring.
Qed.

(** The percentile ranks of a column of [n] entries add up to
    [(n + 1) / 2]. *)
Lemma total_rank_pct xs :
  xs <> [] -> total (rank_pct xs) == (of_nat (List.length xs) + 1) / 2.
Proof.
  intros NE. set (n := List.length xs).
  assert (Hn : 0 < of_nat n).
  { apply of_nat_pos. unfold n. destruct xs; [contradiction | simpl; lia]. }
  unfold rank_pct.
  rewrite (total_ext _ (fun x => (of_nat (count_lt xs x + count_le xs x) + 1)
                                 / (2 * of_nat n))).
  - rewrite total_counts, list_sum_plus.
    pose proof (pair_count xs xs) as P. rewrite P. fold n.
    rewrite of_nat_mult. field. lra.
  - intros x Hx. rewrite (rank_average_counts xs x Hx), of_nat_plus.
    fold n. field. lra.
Qed.

Lemma total_series_mul xs w : total (series_mul xs w) == total xs * w.
Proof.
  induction xs as [|a t IH]; simpl; [ring |].
  unfold series_mul in IH. rewrite IH. ring.
Qed.

Lemma total_series_add xs ys :
  List.length xs = List.length ys ->
  total (series_add xs ys) == total xs + total ys.
Proof.
  revert ys. induction xs as [|a t IH]; intros [|b u] H; simpl in *;
    try discriminate; [ring |].
  rewrite IH by congruence. ring.
Qed.

Lemma total_clip_upper u xs :
  Forall (fun x => x <= u) xs -> total (clip_upper u xs) == total xs.
Proof.
  induction 1 as [|a t Ha Ht IH]; simpl; [reflexivity |].
  unfold clip_upper in IH. rewrite IH. unfold cap.
  now rewrite (proj2 (Qle_bool_iff _ _) Ha).
Qed.

Lemma nth_sub_score_sum y parse df m i :
  raw_metrics y parse df = Ok m ->
  (i < List.length (rows df))%nat ->
  nth i (series_add
           (series_add (series_add (Funding_Score m) (Rounds_Score m))
              (Age_Score m))
           (Funding_Type_Score m)) 0
  = sub_score_sum m i.
Proof.
  intros Hm Hi.
  destruct (sub_score_lengths y parse df m Hm) as (H1 & H2 & H3 & H4).
  destruct (partial_sum_lengths y parse df m Hm) as (L1 & L2 & L3).
  rewrite nth_series_add by lia. rewrite nth_series_add by lia.
  rewrite nth_series_add by lia. reflexivity.
Qed.

Lemma scores_total y parse df out :
  score_companies y parse df = Ok out ->
  total (Score out) == 50 * (of_nat (List.length (rows df)) + 1).
Proof.
  intros H. destruct (score_companies_Ok _ _ _ _ H) as (m & Hm & HS & _).
  rewrite HS. unfold Score_column.
  destruct (sub_score_lengths y parse df m Hm) as (H1 & H2 & H3 & H4).
  destruct (partial_sum_lengths y parse df m Hm) as (L1 & L2 & L3).
  pose proof (raw_metrics_nonempty _ _ _ _ Hm) as NE.
  rewrite total_clip_upper.
  - rewrite !total_series_add by congruence.
    unfold Funding_Score, Rounds_Score, Age_Score, Funding_Type_Score.
    rewrite !total_series_mul.
    pose proof (raw_metrics_lengths _ _ _ _ Hm) as L.
    assert (T : forall k, total (rank_pct (metric_column k m))
                          == (of_nat (List.length (rows df)) + 1) / 2).
    { intros k. rewrite <- (L k). apply total_rank_pct.
      intros E. specialize (L k). rewrite E in L. simpl in L. lia. }
    rewrite (T FundingAmount), (T RoundsMetric), (T AgeMetric),
      (T FundingTypeCount). field.
  - apply (proj2 (Forall_nth _ _)). intros i d Hi.
    rewrite (nth_indep _ d 0) by exact Hi.
    rewrite L3 in Hi.
    rewrite (nth_sub_score_sum y parse df m i Hm Hi).
    apply (score_uncapped y parse df m i Hm Hi).
Qed.

(** X5.  Whatever the data, the scores of a frame of [n] records add up to
    [50 (n + 1)]: the mean score is [50 + 50 / n]. *)
Theorem X5_scores_add_up y parse df out :
  score_companies y parse df = Ok out ->
  total (Score out) == 50 * (of_nat (List.length (rows df)) + 1).
Proof. apply scores_total. Qed.

(** The two scores of the example add up to 150. *)
Lemma X5_scores_add_up_witness :
  total [3080 # 32; 1720 # 32] == 150.
Proof.
  exact (X5_scores_add_up 2026 float_literal acme_beta
           {| frame := acme_beta;
              Score := [3080 # 32; 1720 # 32];
              Top_Quality := ["Funding"; "Funding"] |} eq_refl).
Defined.

(** ** When Funding is the Top Quality *)

Lemma binary64_weight q : binary64 (weight q) = weight q.
Proof. destruct q; reflexivity. Qed.

(** Rounding does not take a sub-score above its weight. *)
Lemma computed_at_most_weight y parse df m i q :
  raw_metrics y parse df = Ok m ->
  (i < List.length (rows df))%nat ->
  computed_sub_score m i q <= weight q.
Proof.
  intros Hm Hi. unfold computed_sub_score.
  rewrite <- (binary64_weight q) at 2. apply binary64_monotone.
  assert (P : binary64 (percentile_of m i q) <= 1).
  { change 1 with (binary64 1). apply binary64_monotone.
    rewrite (percentile_of_rank y parse df m i q Hm Hi).
    apply rank_pct_bounds. now rewrite (raw_metrics_lengths _ _ _ _ Hm). }
  assert (0 < weight q) by (destruct q; reflexivity).
  nra.
Qed.

(** X6.  A record whose Funding Amount has a percentile rank of 2/5 or more
    has the Top Quality Funding, whatever its other metrics: its Funding
    sub-score is then 20 at least, which no other sub-score exceeds. *)
Theorem X6_funding_is_top_quality y parse df out i :
  score_companies y parse df = Ok out ->
  (i < List.length (rows df))%nat ->
  exists m,
    raw_metrics y parse df = Ok m
    /\ (2 # 5 <= nth i (rank_pct (Funding_Amount m)) 0 ->
        nth i (Top_Quality out) "" = "Funding").
Proof.
  intros H Hi. destruct (score_companies_Ok _ _ _ _ H) as (m & Hm & _ & HT).
  exists m. split; [exact Hm |]. intros Hr. rewrite HT.
  destruct (top_quality_first_largest y parse df m i Hm Hi)
    as (q & Hq & _ & Hfirst).
  rewrite Hq.
  destruct (Nat.eq_dec (precedence q) 0) as [E | N];
    [destruct q; try discriminate; reflexivity |].
  exfalso.
  assert (P : (precedence QFunding < precedence q)%nat) by (simpl; lia).
  specialize (Hfirst QFunding P).
  pose proof (computed_at_most_weight y parse df m i q Hm Hi) as W.
  assert (G : 20 <= computed_sub_score m i QFunding).
  { unfold computed_sub_score. change 20 with (binary64 20) at 1.
    apply binary64_monotone.
    assert (R : 2 # 5 <= binary64 (percentile_of m i QFunding)).
    { apply Qle_trans with (binary64 (2 # 5)); [vm_compute; discriminate |].
      apply binary64_monotone.
      now rewrite (percentile_of_rank y parse df m i QFunding Hm Hi). }
    simpl weight. lra. }
  assert (weight q <= 20)
    by (destruct q; simpl in N |- *; [contradiction | lra | lra | lra]).
  lra.
Qed.

(** Acme has the larger funding of the example, hence the rank 1. *)
Lemma X6_funding_is_top_quality_witness :
  nth 0 ["Funding"; "Funding"] "" = "Funding".
Proof.
  destruct (X6_funding_is_top_quality 2026 float_literal acme_beta
              {| frame := acme_beta;
                 Score := [3080 # 32; 1720 # 32];
                 Top_Quality := ["Funding"; "Funding"] |} 0%nat eq_refl)
    as (m & Hm & Htop); [simpl; lia |].
  apply Htop. vm_compute in Hm. inversion Hm; subst m.
  vm_compute. discriminate.
Defined.

(** X7.  A frame of one record: the record scores 100 and its Top Quality
    is Funding. *)
Theorem X7_single_record y parse df out :
  List.length (rows df) = 1%nat ->
  score_companies y parse df = Ok out ->
  nth 0 (Score out) 0 == 100
  /\ List.length (Score out) = 1%nat
  /\ Top_Quality out = ["Funding"].
Proof.
  intros L1 H. destruct (score_companies_Ok _ _ _ _ H) as (m & Hm & HS & HT).
  assert (Hi : (0 < List.length (rows df))%nat) by lia.
  pose proof (raw_metrics_lengths _ _ _ _ Hm) as L.
  assert (One : forall k, nth 0 (rank_pct (metric_column k m)) 0 == 1).
  { intros k. apply rank_pct_one; rewrite (L k); [exact Hi |].
    intros j Hj Hne. lia. }
  pose proof (One FundingAmount) as O1. pose proof (One RoundsMetric) as O2.
  pose proof (One AgeMetric) as O3. pose proof (One FundingTypeCount) as O4.
  simpl metric_column in O1, O2, O3, O4.
  pose proof (sub_score_weighted y parse df m Hm 0%nat QFunding Hi) as WF.
  pose proof (sub_score_weighted y parse df m Hm 0%nat QRounds Hi) as WR.
  pose proof (sub_score_weighted y parse df m Hm 0%nat QAge Hi) as WA.
  pose proof (sub_score_weighted y parse df m Hm 0%nat QFundingType Hi) as WT.
  cbn [sub_score] in WF, WR, WA, WT.
  split; [| split].
  - rewrite HS. destruct (score_uncapped y parse df m 0%nat Hm Hi) as [-> _].
    unfold sub_score_sum. cbn [sub_score].
    rewrite WF, WR, WA, WT, O1, O2, O3, O4. reflexivity.
  - rewrite HS, (Score_column_length y parse df m Hm). exact L1.
  - rewrite HT.
    destruct (top_quality_first_largest y parse df m 0%nat Hm Hi)
      as (q & Hq & _ & Hfirst).
    assert (LT : List.length (Top_Quality_column m) = 1%nat)
      by (now rewrite (length_Top_Quality_column y parse df m Hm)).
    destruct (Top_Quality_column m) as [|tq [|tq' rest]]; try discriminate.
    simpl in Hq. f_equal. rewrite Hq.
    destruct (Nat.eq_dec (precedence q) 0) as [E | N];
      [destruct q; try discriminate; reflexivity |].
    exfalso.
    assert (P : (precedence QFunding < precedence q)%nat) by (simpl; lia).
    specialize (Hfirst QFunding P).
    pose proof (computed_at_most_weight y parse df m 0%nat q Hm Hi) as W.
    assert (F : computed_sub_score m 0 QFunding = 50).
    { unfold computed_sub_score.
      rewrite (binary64_compat (percentile_of m 0 QFunding) 1);
        [reflexivity |].
      rewrite (percentile_of_rank y parse df m 0%nat QFunding Hm Hi).
      exact O1. }
    rewrite F in Hfirst.
    assert (weight q <= 20)
      by (destruct q; simpl in N |- *; [contradiction | lra | lra | lra]).
    lra.
Qed.

(** The frame [founded_later] has one record. *)
Lemma X7_single_record_witness :
  exists out,
    score_companies 2026 float_literal founded_later = Ok out
    /\ nth 0 (Score out) 0 == 100 /\ Top_Quality out = ["Funding"].
Proof.
  eexists. split; [reflexivity |].
  destruct (X7_single_record 2026 float_literal founded_later _
              eq_refl eq_refl) as (S100 & _ & TQ).
  split; [exact S100 | exact TQ].
Defined.

(** ** Optional columns *)

Lemma filter_none (p : Q -> bool) xs :
  (forall x, In x xs -> p x = false) -> List.length (filter p xs) = 0%nat.
Proof.
  induction xs as [|a t IH]; simpl; intros H; [reflexivity |].
  rewrite (H a) by now left. apply IH. intros x Hx. apply H. now right.
Qed.

Lemma filter_all (p : Q -> bool) xs :
  (forall x, In x xs -> p x = true) ->
  List.length (filter p xs) = List.length xs.
Proof.
  induction xs as [|a t IH]; simpl; intros H; [reflexivity |].
  rewrite (H a) by now left. simpl. f_equal. apply IH.
  intros x Hx. apply H. now right.
Qed.

(** In a column whose entries are all equal, every entry has the
    percentile rank [(n + 1) / (2 n)]. *)
Lemma rank_pct_constant xs c i :
  (forall x, In x xs -> x == c) -> (i < List.length xs)%nat ->
  nth i (rank_pct xs) 0
  == (of_nat (List.length xs) + 1) / (2 * of_nat (List.length xs)).
Proof.
  intros Hc Hi. rewrite rank_pct_counts by exact Hi.
  set (x := nth i xs 0).
  assert (Hx : x == c) by (apply Hc, nth_In; exact Hi).
  assert (L0 : count_lt xs x = 0%nat).
  { apply filter_none. intros z Hz. apply Qlt_bool_false.
    rewrite (Hc z Hz). lra. }
  assert (L1 : count_le xs x = List.length xs).
  { apply filter_all. intros z Hz. apply Qle_bool_iff.
    rewrite (Hc z Hz). lra. }
  rewrite L0, L1. change (of_nat 0) with 0.
  assert (0 < of_nat (List.length xs)) by (apply of_nat_pos; lia).
  field. lra.
Qed.

Lemma raw_metrics_Funding_Type_Count y parse df m :
  raw_metrics y parse df = Ok m ->
  Funding_Type_Count m
  = map (fun r => of_nat (funding_type_count df r)) (rows df).
Proof.
  unfold raw_metrics. destruct (rows df) eqn:R; [discriminate |].
  destruct (column df "funding_rounds"); [| discriminate].
  destruct (column df "Funding Amount"); [| discriminate].
  destruct (as_floats _); [| discriminate].
  destruct (as_floats _); [| destruct (existsb _ _); discriminate].
  intros H. now inversion H.
Qed.

(** X8.  An optional column that is absent gives every record the same
    sub-score, [15 (n + 1) / (2 n)]: Age without [founded_year], Funding
    Type without any of [seed], [venture] and [angel]. *)
Theorem X8_absent_column_sub_score y parse df m i :
  raw_metrics y parse df = Ok m ->
  (i < List.length (rows df))%nat ->
  let n := of_nat (List.length (rows df)) in
  (column df "founded_year" = None ->
   sub_score m i QAge == 15 * (n + 1) / (2 * n))
  /\ ((forall t, In t funding_types -> mem t (columns df) = false) ->
      sub_score m i QFundingType == 15 * (n + 1) / (2 * n)).
Proof.
  intros Hm Hi n.
  pose proof (raw_metrics_lengths _ _ _ _ Hm AgeMetric) as LA.
  pose proof (raw_metrics_lengths _ _ _ _ Hm FundingTypeCount) as LT.
  simpl in LA, LT.
  assert (Hn : 0 < n) by (apply of_nat_pos; lia).
  split.
  - intros Habs.
    rewrite (sub_score_weighted y parse df m Hm i QAge Hi).
    rewrite (rank_pct_constant (Age m) 0 i).
    + rewrite LA. fold n. field. lra.
    + rewrite (raw_metrics_Age _ _ _ _ Hm). unfold Age_column. rewrite Habs.
      intros x Hx. apply in_map_iff in Hx. destruct Hx as (r & <- & _).
      reflexivity.
    + rewrite LA. exact Hi.
  - intros Habs.
    rewrite (sub_score_weighted y parse df m Hm i QFundingType Hi).
    rewrite (rank_pct_constant (Funding_Type_Count m) 0 i).
    + rewrite LT. fold n. field. lra.
    + rewrite (raw_metrics_Funding_Type_Count _ _ _ _ Hm).
      intros x Hx. apply in_map_iff in Hx. destruct Hx as (r & <- & _).
      assert (N : forall t, In t funding_types ->
                            index_of t (columns df) = None).
      { intros t Ht. apply index_of_None. intros Hin.
        apply mem_In in Hin. rewrite (Habs t Ht) in Hin. discriminate. }
      unfold funding_type_count, funding_types. simpl filter.
      rewrite (N "seed"), (N "venture"), (N "angel")
        by (simpl; tauto).
      reflexivity.
    + rewrite LT. exact Hi.
Qed.

(** The example has none of the three funding type columns. *)
Lemma X8_absent_column_sub_score_witness :
  sub_score {| Funding_Amount := [1000000; 500000]; Rounds := [3; 1];
               Age := [16; 6]; Funding_Type_Count := [0; 0] |} 0 QFundingType
  == 15 * (of_nat 2 + 1) / (2 * of_nat 2).
Proof.
  refine (proj2 (X8_absent_column_sub_score 2026 float_literal acme_beta
                   _ 0%nat eq_refl _) _).
  - simpl. lia.
  - intros t [<- | [<- | [<- | []]]]; reflexivity.
Defined.




(** * Further properties of [clean_data] *)

(** ** What a cleaned frame holds *)

(** The frame of the survivors, before the columns are pruned. *)
Lemma clean_data_Ok df cleaned :
  clean_data df = Ok cleaned ->
  resolved df = true
  /\ nodup_labels (normalized_columns df) = true
  /\ names_are_text df = true
  /\ coerce_funding_amount
       (prune_columns {| columns := normalized_columns df;
                         rows := surviving_rows df |}) = Ok cleaned.
Proof.
  intros H.
  assert (R : resolved df = true).
  { destruct (resolved df) eqn:R; [reflexivity |].
    apply clean_data_KeyError in R. destruct R as (missing & R). congruence. }
  revert H. unfold clean_data.
  rewrite (proj1 (resolved_filter df) R).
  destruct (nodup_labels (normalized_columns df)) eqn:D; simpl negb; cbv iota;
    [| discriminate].
  unfold names_are_text.
  destruct (column _ "Company Name") as [names|]; [| discriminate].
  destruct (numeric_dtype names); [discriminate |].
  destruct (existsb is_number names); [discriminate |].
  intros H. auto.
Qed.

Lemma index_of_app_old name cols extra :
  name <> extra ->
  index_of name (cols ++ [extra])%list = index_of name cols.
Proof.
  intros Hne. induction cols as [|c t IH]; simpl.
  - destruct (String.eqb name extra) eqn:E; [| reflexivity].
    apply String.eqb_eq in E. contradiction.
  - destruct (String.eqb name c); [reflexivity |]. now rewrite IH.
Qed.

Lemma cell_at_app_old (r : list cell) c j :
  (j < List.length r)%nat -> cell_at j (r ++ [c])%list = cell_at j r.
Proof. intros H. unfold cell_at. now apply app_nth1. Qed.

(** The coercion leaves every other column as it is. *)
Lemma coerce_other_column df cleaned name :
  (forall r, In r (rows df) -> List.length r = List.length (columns df)) ->
  coerce_funding_amount df = Ok cleaned ->
  name <> "Funding Amount" ->
  column cleaned name = column df name.
Proof.
  intros Hlen H Hne. unfold coerce_funding_amount in H.
  destruct (index_of "Funding Amount" (columns df)) as [i|] eqn:I.
  - destruct (existsb is_value_error _); [discriminate |].
    destruct (existsb is_non_finite _); [discriminate |].
    inversion H; subst cleaned; clear H. unfold column. cbn [columns rows].
    destruct (index_of name (columns df)) as [j|] eqn:J; [| reflexivity].
    cbn [option_map]. f_equal. rewrite map_map. apply map_ext. intros r.
    apply cell_at_set_at_neq. intros E. subst j.
    now apply (index_of_distinct _ _ _ _ _ Hne J I).
  - inversion H; subst cleaned; clear H. unfold column. cbn [columns rows].
    rewrite (index_of_app_old _ _ _ Hne).
    destruct (index_of name (columns df)) as [j|] eqn:J; [| reflexivity].
    cbn [option_map]. f_equal. rewrite map_map. apply map_ext_in.
    intros r Hr. apply cell_at_app_old. rewrite (Hlen r Hr).
    now apply index_of_nth in J.
Qed.

(** A column other than Funding Amount passes through the cleaning when it
    is on the list and some surviving row has a value in it; its cells are
    those of the surviving rows. *)
Lemma cleaned_column df cleaned name :
  clean_data df = Ok cleaned ->
  name <> "Funding Amount" ->
  column cleaned name
  = match index_of name (normalized_columns df) with
    | Some i =>
        if (mem name relevant_cols || mem name funding_types)
           && existsb (fun r => notnull (cell_at i r)) (surviving_rows df)
        then Some (map (cell_at i) (surviving_rows df))
        else None
    | None => None
    end.
Proof.
  intros H Hne. destruct (clean_data_Ok df cleaned H) as (R & D & T & E).
  set (F := {| columns := normalized_columns df; rows := surviving_rows df |})
    in *.
  assert (DF : NoDup (columns F)) by (now apply nodup_labels_NoDup).
  rewrite (coerce_other_column (prune_columns F) cleaned name
             (prune_row_length F) E Hne).
  unfold column.
  destruct (index_of name (normalized_columns df)) as [i|] eqn:I.
  - destruct (mem name relevant_cols || mem name funding_types) eqn:A.
    + destruct (existsb _ (surviving_rows df)) eqn:V; cbn [andb].
      * destruct (prune_kept F DF name A i I V) as (j & Hj & Hc).
        rewrite Hj. cbn [option_map]. now rewrite Hc.
      * rewrite (prune_dropped F DF name); [reflexivity |].
        intros i' Hi'. assert (i' = i) by (cbn in Hi'; congruence).
        now subst.
    + cbn [andb].
      destruct (index_of name (columns (prune_columns F))) as [j|] eqn:J;
        [| reflexivity].
      exfalso. unfold prune_columns in J.
      assert (D1 : NoDup (columns (select_columns
                    (fun (i : nat) (_ : string) =>
                       existsb (fun r => notnull (cell_at i r)) (rows F)) F)))
        by (now apply select_distinct).
      destruct (select_found _ _ D1 name j J) as (i1 & _ & K & _).
      cbv beta in K. congruence.
  - destruct (index_of name (columns (prune_columns F))) as [j|] eqn:J;
      [| reflexivity].
    exfalso. unfold prune_columns in J.
    assert (D1 : NoDup (columns (select_columns
                  (fun (i : nat) (_ : string) =>
                     existsb (fun r => notnull (cell_at i r)) (rows F)) F)))
      by (now apply select_distinct).
    destruct (select_found _ _ D1 name j J) as (i1 & J1 & _ & _).
    destruct (select_found _ _ DF name i1 J1) as (i0 & J0 & _ & _).
    cbn in J0. congruence.
Qed.

(** ** The surviving rows *)

Lemma key_eqb_eq a b : key_eqb a b = true <-> a = b.
Proof.
  destruct a as [x|], b as [z|]; simpl; try (split; congruence).
  rewrite String.eqb_eq. split; congruence.
Qed.

Lemma seen_In k seen : existsb (key_eqb k) seen = true <-> In k seen.
Proof.
  rewrite existsb_exists. split.
  - intros (x & Hx & E). apply key_eqb_eq in E. now subst.
  - intros H. exists k. split; [exact H | now apply key_eqb_eq].
Qed.

(** A row is kept exactly when its key was not seen and no row before it
    has the same key. *)
Lemma drop_duplicates_In key seen rs r :
  In r (drop_duplicates key seen rs)
  <-> exists before after,
        rs = (before ++ r :: after)%list
        /\ ~ In (key r) seen
        /\ forall r', In r' before -> key r' <> key r.
Proof.
  revert seen. induction rs as [|a t IH]; intros seen; simpl.
  - split; [tauto |]. intros (b & c & E & _). destruct b; discriminate.
  - destruct (existsb (key_eqb (key a)) seen) eqn:S.
    + apply seen_In in S. rewrite IH. split.
      * intros (b & c & -> & N & F). exists (a :: b), c.
        split; [reflexivity |]. split; [exact N |].
        intros r' [<- | Hr']; [congruence | now apply F].
      * intros (b & c & E & N & F). destruct b as [|a' b].
        -- inversion E; subst. contradiction.
        -- inversion E; subst. exists b, c. split; [reflexivity |].
           split; [exact N |]. intros r' Hr'. apply F. now right.
    + assert (NS : ~ In (key a) seen).
      { intros H. apply seen_In in H. congruence. }
      simpl. rewrite IH. split.
      * intros [<- | (b & c & -> & N & F)].
        -- exists [], t. split; [reflexivity |]. split; [exact NS |].
           intros r' [].
        -- exists (a :: b), c. split; [reflexivity |]. split.
           ++ intros H. apply N. now right.
           ++ intros r' [<- | Hr']; [| now apply F].
              intros E. apply N. left. exact E.
      * intros (b & c & E & N & F). destruct b as [|a' b].
        -- inversion E; subst. now left.
        -- inversion E; subst. right. exists b, c.
           split; [reflexivity |]. split.
           ++ intros [H | H]; [| contradiction].
              apply (F a'); [now left | exact H].
           ++ intros r' Hr'. apply F. now right.
Qed.

Lemma drop_duplicates_keys key seen rs :
  NoDup (map key (drop_duplicates key seen rs))
  /\ forall r, In r (drop_duplicates key seen rs) -> ~ In (key r) seen.
Proof.
  revert seen. induction rs as [|a t IH]; intros seen; simpl.
  - split; [constructor | tauto].
  - destruct (existsb (key_eqb (key a)) seen) eqn:S; [apply IH |].
    destruct (IH (key a :: seen)) as [N F]. simpl. split.
    + constructor; [| exact N]. intros H. apply in_map_iff in H.
      destruct H as (r & E & Hr). apply (F r Hr). left. congruence.
    + intros r [<- | Hr].
      * intros H. apply seen_In in H. congruence.
      * intros H. apply (F r Hr). now right.
Qed.

Lemma drop_duplicates_nonempty key rs :
  rs <> [] -> drop_duplicates key [] rs <> [].
Proof. destruct rs; [contradiction | discriminate]. Qed.

Lemma drop_duplicates_same key seen rs :
  NoDup (map key rs) -> (forall r, In r rs -> ~ In (key r) seen) ->
  drop_duplicates key seen rs = rs.
Proof.
  revert seen. induction rs as [|a t IH]; intros seen N F; simpl;
    [reflexivity |].
  inversion N as [|k ks Nk Nt]; subst.
  destruct (existsb (key_eqb (key a)) seen) eqn:S.
  - apply seen_In in S. exfalso. apply (F a); [now left | exact S].
  - f_equal. apply IH; [exact Nt |].
    intros r Hr [E | H].
    + apply Nk. rewrite E. now apply in_map.
    + apply (F r); [now right | exact H].
Qed.

(** The key of a row of the file: its Company Name in lower case. *)
Lemma surviving_rows_In df r :
  In r (surviving_rows df)
  -> In r (rows df) /\ complete (normalized_columns df) r = true.
Proof.
  unfold surviving_rows. intros H. apply drop_duplicates_In in H.
  destruct H as (b & c & E & _).
  apply filter_In. rewrite E. apply in_or_app. right. now left.
Qed.

Lemma key_dec (a b : option string) : {a = b} + {a <> b}.
Proof. decide equality. apply string_dec. Qed.

Lemma drop_duplicates_covers key rs r :
  In r rs ->
  exists r', In r' (drop_duplicates key [] rs) /\ key r' = key r.
Proof.
  revert r. induction rs as [|a t IH] using rev_ind; intros r Hr;
    [destruct Hr |].
  assert (Keep : forall r', In r' (drop_duplicates key [] t) ->
                   In r' (drop_duplicates key [] (t ++ [a]))).
  { intros r' H. apply drop_duplicates_In in H.
    destruct H as (b & c & -> & N & F).
    apply drop_duplicates_In. exists b, (c ++ [a])%list.
    rewrite <- app_assoc. simpl. auto. }
  apply in_app_or in Hr. destruct Hr as [Hr | [<- | []]].
  - destruct (IH r Hr) as (r' & H1 & H2). exists r'. auto.
  - destruct (in_dec key_dec (key a) (map key t)) as [Hin | Hout].
    + apply in_map_iff in Hin. destruct Hin as (r0 & E0 & H0).
      destruct (IH r0 H0) as (r' & H1 & H2). exists r'.
      split; [auto | congruence].
    + exists a. split; [| reflexivity].
      apply drop_duplicates_In. exists t, []. split; [reflexivity |].
      split; [intros [] |]. intros r' Hr' E. apply Hout.
      rewrite <- E. now apply in_map.
Qed.

(** X10.  Of the rows that have the three mandatory fields, the first one
    of each company name, compared without regard to case, survives and
    the later ones are dropped: a row survives exactly when no complete row
    before it has its name; the survivors have different names, and every
    complete row has the name of a survivor. *)
Theorem X10_first_row_of_a_name_survives df :
  let complete_rows := filter (complete (normalized_columns df)) (rows df) in
  (forall r,
     In r (surviving_rows df)
     <-> exists before after,
           complete_rows = (before ++ r :: after)%list
           /\ forall r', In r' before -> name_key df r' <> name_key df r)
  /\ NoDup (map (name_key df) (surviving_rows df))
  /\ (forall r, In r complete_rows ->
                exists r', In r' (surviving_rows df)
                           /\ name_key df r' = name_key df r).
Proof.
  intros complete_rows.
  assert (E : surviving_rows df
              = drop_duplicates (name_key df) [] complete_rows)
    by reflexivity.
  rewrite E. split; [| split].
  - intros r. rewrite drop_duplicates_In. split.
    + intros (b & c & H1 & _ & H2). eauto.
    + intros (b & c & H1 & H2). exists b, c. simpl. tauto.
  - apply drop_duplicates_keys.
  - intros r Hr. now apply drop_duplicates_covers.
Qed.

(** ** The schema of a cleaned frame *)

Lemma select_labels keep df c :
  In c (columns (select_columns keep df)) ->
  exists i, (i < List.length (columns df))%nat
            /\ nth i (columns df) "" = c /\ keep i c = true.
Proof.
  intros H. destruct (In_nth _ _ "" H) as (j & Hj & E).
  rewrite selected_length in Hj.
  destruct (selected_position keep df j Hj) as (Hr & Hk & Hl).
  exists (nth j (kept_positions keep 0 (columns df)) O).
  rewrite Hl in E. rewrite E in Hk. auto.
Qed.

Lemma prune_labels df c :
  In c (columns (prune_columns df)) ->
  mem c relevant_cols || mem c funding_types = true.
Proof.
  unfold prune_columns. intros H.
  destruct (select_labels _ _ c H) as (i & _ & _ & K). exact K.
Qed.

Lemma prune_distinct df :
  NoDup (columns df) -> NoDup (columns (prune_columns df)).
Proof.
  intros D. unfold prune_columns. now apply select_distinct, select_distinct.
Qed.

Lemma length_set_at i c row : List.length (set_at i c row) = List.length row.
Proof.
  revert i. induction row as [|a t IH]; intros [|i]; simpl; auto.
Qed.

Lemma coerce_frame df cleaned :
  coerce_funding_amount df = Ok cleaned ->
  List.length (rows cleaned) = List.length (rows df)
  /\ (In "Funding Amount" (columns df) /\ columns cleaned = columns df
      \/ ~ In "Funding Amount" (columns df)
         /\ columns cleaned = (columns df ++ ["Funding Amount"])%list)
  /\ ((forall r, In r (rows df) -> List.length r = List.length (columns df)) ->
      forall r, In r (rows cleaned) ->
                List.length r = List.length (columns cleaned)).
Proof.
  unfold coerce_funding_amount.
  destruct (index_of "Funding Amount" (columns df)) as [i|] eqn:I.
  - destruct (existsb is_value_error _); [discriminate |].
    destruct (existsb is_non_finite _); [discriminate |].
    intros H. inversion H; subst cleaned; clear H. cbn [columns rows].
    split; [apply length_map |]. split.
    + left. split; [| reflexivity].
      destruct (index_of_nth _ _ _ I) as [<- Hlt]. now apply nth_In.
    + intros Hlen r Hr. apply in_map_iff in Hr. destruct Hr as (r0 & <- & H0).
      rewrite length_set_at. now apply Hlen.
  - intros H. inversion H; subst cleaned; clear H. cbn [columns rows].
    split; [apply length_map |]. split.
    + right. split; [now apply index_of_None | reflexivity].
    + intros Hlen r Hr. apply in_map_iff in Hr. destruct Hr as (r0 & <- & H0).
      rewrite !length_app. simpl. rewrite (Hlen r0 H0). reflexivity.
Qed.

Lemma surviving_rows_length df :
  (List.length (surviving_rows df) <= List.length (rows df))%nat.
Proof.
  unfold surviving_rows.
  assert (G : forall key seen rs,
            (List.length (drop_duplicates key seen rs) <= List.length rs)%nat).
  { intros key seen rs. revert seen.
    induction rs as [|a t IH]; intros seen; simpl; [lia |].
    destruct (existsb _ seen); simpl; [specialize (IH seen) |
                                       specialize (IH (key a :: seen))]; lia. }
  eapply Nat.le_trans; [apply G | apply filter_length_le].
Qed.

Lemma cleaned_schema df cleaned :
  clean_data df = Ok cleaned ->
  NoDup (columns cleaned)
  /\ In "Funding Amount" (columns cleaned)
  /\ (forall c, In c (columns cleaned) ->
                In c relevant_cols \/ In c funding_types)
  /\ (forall r, In r (rows cleaned) ->
                List.length r = List.length (columns cleaned))
  /\ (exists amounts,
        column cleaned "Funding Amount" = Some amounts
        /\ Forall (fun c => is_float c = true) amounts)
  /\ (List.length (rows cleaned) <= List.length (rows df))%nat.
Proof.
  intros H. destruct (clean_data_Ok df cleaned H) as (R & D & T & E).
  set (F := {| columns := normalized_columns df; rows := surviving_rows df |})
    in *.
  assert (DF : NoDup (columns F)) by (now apply nodup_labels_NoDup).
  destruct (coerce_frame _ _ E) as (Lr & Hcols & Hlen).
  pose proof (prune_distinct F DF) as DP.
  assert (Allowed : forall c, In c (columns (prune_columns F)) ->
                      In c relevant_cols \/ In c funding_types).
  { intros c Hc. apply prune_labels in Hc. apply orb_true_iff in Hc.
    now rewrite !mem_In in Hc. }
  split; [| split; [| split; [| split; [| split]]]].
  - destruct Hcols as [[_ ->] | [N ->]]; [exact DP |].
    apply NoDup_app; [exact DP | repeat constructor; intros [] |].
    intros c Hc [<- | []]. contradiction.
  - destruct Hcols as [[I ->] | [_ ->]]; [exact I |].
    apply in_or_app. right. now left.
  - intros c Hc. destruct Hcols as [[_ Ec] | [_ Ec]]; rewrite Ec in Hc.
    + now apply Allowed.
    + apply in_app_or in Hc. destruct Hc as [Hc | [<- | []]];
        [now apply Allowed |].
      left. simpl. tauto.
  - apply Hlen, prune_row_length.
  - pose proof (clean_data_cases df R D T) as C. rewrite H in C.
    destruct C as (V & N & C & _).
    eexists. split; [exact C |].
    pose proof (results_are_values _ V N) as Vals.
    rewrite map_map. apply Forall_map.
    eapply Forall_impl; [| exact Vals].
    intros c (x & Hx). cbv beta. now rewrite Hx.
  - rewrite Lr, prune_rows_length. apply surviving_rows_length.
Qed.

(** C3, as amended.  Cleaning raises [KeyError] exactly when one of
    Company Name, Category and City is not found after the renaming.
    When they are found, on a file whose labels are distinct: a Company
    Name column of numeric dtype raises [AttributeError]; for a Company
    Name column of text the run stops when no record survives, a surviving
    funding text that [float] rejects raises [ValueError], and in the
    remaining cases the surviving records are returned: the frame has one
    row for each of them, its Funding Amount column holds their fundings
    as numbers, and every other column that is kept, a listed column in
    which some surviving record has a value, holds their cells as the
    file gives them. *)
Theorem C3_clean_outcomes df :
  (resolved df = false <-> exists missing, clean df = Raise (KeyError missing))
  /\ (resolved df = true ->
      nodup_labels (normalized_columns df) = true ->
      (numeric_names df = true -> clean df = Raise AttributeError)
      /\ (names_are_text df = true ->
          let results := map coerce_funding (surviving_funding df) in
          (surviving_rows df = [] -> clean df = Raise Stop)
          /\ (surviving_rows df <> [] ->
              existsb is_value_error results = true ->
              clean df = Raise ValueError)
          /\ (surviving_rows df <> [] ->
              existsb is_value_error results = false ->
              existsb is_non_finite results = false ->
              exists cleaned,
                clean df = Ok cleaned
                /\ List.length (rows cleaned)
                   = List.length (surviving_rows df)
                /\ (forall r, In r (rows cleaned) ->
                      List.length r = List.length (columns cleaned))
                /\ column cleaned "Funding Amount"
                   = Some (map float_cell results)
                /\ (forall name, name <> "Funding Amount" ->
                      column cleaned name
                      = match index_of name (normalized_columns df) with
                        | Some i =>
                            if (mem name relevant_cols
                                || mem name funding_types)
                               && existsb (fun r => notnull (cell_at i r))
                                    (surviving_rows df)
                            then Some (map (cell_at i) (surviving_rows df))
                            else None
                        | None => None
                        end)))).
Proof.
  split.
  - rewrite clean_data_KeyError. unfold clean.
    split; intros (missing & H); exists missing.
    + now rewrite H.
    + destruct (clean_data df) as [cleaned|e|]; try congruence.
      destruct (empty cleaned); discriminate.
  - intros R D. split.
    + intros T. unfold clean, clean_data.
      rewrite (proj1 (resolved_filter df) R), D. simpl negb. cbv iota.
      unfold numeric_names in T.
      destruct (column _ "Company Name"); [| discriminate].
      now rewrite T.
    + intros T results.
      pose proof (clean_data_cases df R D T) as H.
      pose proof (results_length df) as L. fold results in H, L.
      unfold clean. split; [| split].
      * intros E. rewrite E in L. destruct results; [| discriminate].
        destruct (clean_data df) as [cleaned|e|];
          [| destruct H; discriminate | destruct H; discriminate].
        destruct H as (_ & _ & _ & Hl & _). rewrite E in Hl.
        unfold empty. destruct (rows cleaned); [| discriminate].
        now destruct (columns cleaned).
      * intros _ V. destruct (clean_data df) as [cleaned|e|].
        -- destruct H as [H _]. congruence.
        -- destruct H as [-> _]. reflexivity.
        -- destruct H as [H _]. congruence.
      * intros NE V N. destruct (clean_data df) as [cleaned|e|] eqn:CD.
        -- destruct H as (_ & _ & HF & Hl & Hc). exists cleaned.
           split; [| split; [exact Hl | split; [| split; [exact HF |]]]].
           ++ unfold empty.
              destruct (columns cleaned); [contradiction |].
              destruct (rows cleaned); [| reflexivity].
              destruct (surviving_rows df); [contradiction | discriminate].
           ++ now destruct (cleaned_schema df cleaned CD) as (_ & _ & _ & RL & _).
           ++ intros name Hne. now apply cleaned_column.
        -- destruct H as [_ H]. congruence.
        -- destruct H as [_ H]. congruence.
Qed.

(** The two companies of the example are returned with their names. *)
Lemma C3_clean_outcomes_witness :
  exists cleaned,
    clean acme_beta_raw = Ok cleaned
    /\ List.length (rows cleaned) = 2%nat
    /\ column cleaned "Funding Amount" = Some [Num 1000000; Num 500000]
    /\ column cleaned "Company Name" = Some [Str "Acme"; Str "Beta"].
Proof.
  destruct (C3_clean_outcomes acme_beta_raw) as [_ H].
  destruct (H eq_refl eq_refl) as [_ H1].
  destruct (H1 eq_refl) as (_ & _ & H2).
  destruct H2 as (cleaned & C & L & _ & F & O);
    [discriminate | reflexivity | reflexivity |].
  exists cleaned. split; [exact C |]. split; [exact L |].
  split; [exact F |]. apply (O "Company Name"). discriminate.
Defined.

(** C3 as stated fails: the three fields of [unparsable_raw] are found
    and its record survives the cleaning, yet no dataset is returned, and
    the error is [ValueError]. *)
Lemma C3_value_error_counterexample :
  resolved unparsable_raw = true
  /\ surviving_rows unparsable_raw <> []
  /\ clean unparsable_raw = Raise ValueError
  /\ ~ exists cleaned, clean unparsable_raw = Ok cleaned.
Proof.
  split; [reflexivity |]. split; [discriminate |]. split; [reflexivity |].
  intros (cleaned & H). discriminate.
Qed.

(** X11.  For a file whose labels are distinct once stripped and renamed
    and whose surviving funding texts are finite numbers, the frame that
    [clean_data] returns has distinct labels, all of them among the six
    relevant columns and the three funding types, and Funding Amount is
    one of them; every row has one cell for each label, every Funding
    Amount is a float, and there are no more rows than in the file. *)
Theorem X11_cleaned_schema df cleaned :
  nodup_labels (normalized_columns df) = true ->
  existsb is_non_finite (map coerce_funding (surviving_funding df)) = false ->
  clean_data df = Ok cleaned ->
  NoDup (columns cleaned)
  /\ In "Funding Amount" (columns cleaned)
  /\ (forall c, In c (columns cleaned) ->
                In c relevant_cols \/ In c funding_types)
  /\ (forall r, In r (rows cleaned) ->
                List.length r = List.length (columns cleaned))
  /\ (exists amounts,
        column cleaned "Funding Amount" = Some amounts
        /\ Forall (fun c => is_float c = true) amounts)
  /\ (List.length (rows cleaned) <= List.length (rows df))%nat.
Proof. intros _ _. apply cleaned_schema. Qed.

(** The cleaned example keeps six labels and both rows. *)
Lemma X11_cleaned_schema_witness :
  NoDup (columns acme_beta) /\ In "Funding Amount" (columns acme_beta).
Proof.
  destruct (X11_cleaned_schema acme_beta_raw acme_beta eq_refl eq_refl eq_refl)
    as (H1 & H2 & _).
  split; assumption.
Defined.

(** ** The records of a cleaned frame *)

Lemma surviving_keys_distinct df :
  NoDup (map (name_key df) (surviving_rows df)).
Proof. apply drop_duplicates_keys. Qed.

Lemma complete_cell df r name i :
  complete (normalized_columns df) r = true ->
  In name mandatory ->
  index_of name (normalized_columns df) = Some i ->
  notnull (cell_at i r) = true.
Proof.
  unfold complete. rewrite forallb_forall. intros H Hn Hi.
  specialize (H name Hn). now rewrite Hi in H.
Qed.

Lemma resolved_index df name :
  resolved df = true -> In name mandatory ->
  exists i, index_of name (normalized_columns df) = Some i.
Proof.
  unfold resolved. rewrite forallb_forall. intros H Hn.
  apply index_of_In, mem_In. now apply H.
Qed.

(** A mandatory column of a cleaned frame that has rows: the cells of the
    survivors, none of them null. *)
Lemma cleaned_mandatory df cleaned name :
  clean_data df = Ok cleaned -> rows cleaned <> [] -> In name mandatory ->
  exists i,
    index_of name (normalized_columns df) = Some i
    /\ column cleaned name = Some (map (cell_at i) (surviving_rows df))
    /\ Forall (fun c => notnull c = true)
         (map (cell_at i) (surviving_rows df)).
Proof.
  intros H NE Hn. destruct (clean_data_Ok df cleaned H) as (R & D & T & E).
  destruct (resolved_index df name R Hn) as (i & Hi). exists i.
  split; [exact Hi |].
  assert (All : Forall (fun c => notnull c = true)
                  (map (cell_at i) (surviving_rows df))).
  { apply Forall_map, Forall_forall. intros r Hr.
    apply surviving_rows_In in Hr. destruct Hr as [_ Hc].
    exact (complete_cell df r name i Hc Hn Hi). }
  split; [| exact All].
  assert (Hne : name <> "Funding Amount").
  { simpl in Hn. intuition (subst; discriminate). }
  rewrite (cleaned_column df cleaned name H Hne), Hi.
  assert (A : mem name relevant_cols || mem name funding_types = true).
  { simpl in Hn. intuition (subst; reflexivity). }
  rewrite A. cbn [andb].
  assert (S : surviving_rows df <> []).
  { intros S. apply NE.
    pose proof (clean_data_cases df R D T) as C. rewrite H in C.
    destruct C as (_ & _ & _ & L & _). rewrite S in L.
    destruct (rows cleaned); [reflexivity | discriminate]. }
  destruct (surviving_rows df) as [|r0 rs] eqn:Sr; [contradiction |].
  inversion All as [|c cs H0 Hs]; subst. simpl. now rewrite H0.
Qed.

Lemma cleaned_records df cleaned :
  clean_data df = Ok cleaned ->
  rows cleaned <> [] ->
  exists names categories cities,
    column cleaned "Company Name" = Some names
    /\ column cleaned "Category" = Some categories
    /\ column cleaned "City" = Some cities
    /\ Forall (fun c => is_text c = true) names
    /\ NoDup (map lower_key names)
    /\ Forall (fun c => notnull c = true) categories
    /\ Forall (fun c => notnull c = true) cities.
Proof.
  intros H NE.
  destruct (cleaned_mandatory df cleaned "Company Name" H NE)
    as (i1 & I1 & C1 & N1); [simpl; tauto |].
  destruct (cleaned_mandatory df cleaned "Category" H NE)
    as (i2 & I2 & C2 & N2); [simpl; tauto |].
  destruct (cleaned_mandatory df cleaned "City" H NE)
    as (i3 & I3 & C3 & N3); [simpl; tauto |].
  do 3 eexists. split; [exact C1 |]. split; [exact C2 |].
  split; [exact C3 |]. split; [| split; [| split; assumption]].
  - destruct (clean_data_Ok df cleaned H) as (_ & _ & T & _).
    unfold names_are_text, column in T. cbn [columns rows] in T.
    rewrite I1 in T. cbn [option_map] in T.
    apply andb_true_iff in T. destruct T as [_ T].
    apply negb_true_iff in T.
    apply Forall_map, Forall_forall. intros r Hr.
    pose proof (proj1 (Forall_map _ _ _) N1) as N1'.
    rewrite Forall_forall in N1'. specialize (N1' r Hr). cbv beta in N1'.
    apply surviving_rows_In in Hr. destruct Hr as [Hr _].
    destruct (is_text (cell_at i1 r)) eqn:C; [reflexivity |].
    exfalso. assert (X : existsb is_number (map (cell_at i1) (rows df)) = true).
    { apply existsb_exists. exists (cell_at i1 r).
      split; [now apply in_map |].
      destruct (cell_at i1 r); try discriminate; reflexivity. }
    congruence.
  - rewrite map_map.
    pose proof (surviving_keys_distinct df) as K.
    unfold name_key in K. rewrite I1 in K. exact K.
Qed.

(** X12.  In a cleaned frame that has rows, no Company Name, Category or
    City is missing; the company names are text, and no two of them are
    equal when case is disregarded. *)
Theorem X12_cleaned_records df cleaned :
  clean_data df = Ok cleaned ->
  rows cleaned <> [] ->
  exists names categories cities,
    column cleaned "Company Name" = Some names
    /\ column cleaned "Category" = Some categories
    /\ column cleaned "City" = Some cities
    /\ Forall (fun c => is_text c = true) names
    /\ NoDup (map lower_key names)
    /\ Forall (fun c => notnull c = true) categories
    /\ Forall (fun c => notnull c = true) cities.
Proof. apply cleaned_records. Qed.


(** The names of the cleaned example differ. *)
Lemma X12_cleaned_records_witness :
  NoDup (map lower_key [Str "Acme"; Str "Beta"]).
Proof.
  destruct (X12_cleaned_records acme_beta_raw acme_beta eq_refl)
    as (names & categories & cities & C1 & _ & _ & _ & N & _);
    [discriminate |].
  vm_compute in C1. inversion C1; subst names. exact N.
Defined.

(** ** Cleaning twice *)

Lemma canonical_label c :
  In c relevant_cols \/ In c funding_types -> rename (Py.strip c) = c.
Proof.
  simpl. intros H. intuition (subst; reflexivity).
Qed.

Lemma canonical_labels cols :
  (forall c, In c cols -> In c relevant_cols \/ In c funding_types) ->
  map rename (map Py.strip cols) = cols.
Proof.
  induction cols as [|c t IH]; simpl; intros H; [reflexivity |].
  rewrite canonical_label by (apply H; now left).
  f_equal. apply IH. intros x Hx. apply H. now right.
Qed.

Lemma kept_positions_all keep k cols :
  (forall i, (i < List.length cols)%nat ->
             keep (k + i)%nat (nth i cols "") = true) ->
  kept_positions keep k cols = seq k (List.length cols).
Proof.
  revert k. induction cols as [|c t IH]; intros k H; simpl; [reflexivity |].
  pose proof (H 0%nat) as H0. simpl in H0. rewrite Nat.add_0_r in H0.
  rewrite H0 by lia. f_equal. apply IH. intros i Hi.
  replace (S k + i)%nat with (k + S i)%nat by lia.
  apply (H (S i)). simpl. lia.
Qed.

Lemma map_nth_seq {A} (l pre : list A) d :
  map (fun i => nth i (pre ++ l) d) (seq (List.length pre) (List.length l)) = l.
Proof.
  revert pre. induction l as [|a t IH]; intros pre; simpl; [reflexivity |].
  f_equal.
  - rewrite app_nth2 by lia. now rewrite Nat.sub_diag.
  - specialize (IH (pre ++ [a])%list).
    rewrite length_app, Nat.add_1_r, <- app_assoc in IH. exact IH.
Qed.

Lemma map_nth_all {A} (l : list A) d :
  map (fun i => nth i l d) (seq 0 (List.length l)) = l.
Proof. exact (map_nth_seq l [] d). Qed.

(** Selecting every column of a frame whose rows have one cell for each
    label gives the frame. *)
Lemma select_columns_all keep df :
  (forall i, (i < List.length (columns df))%nat ->
             keep i (nth i (columns df) "") = true) ->
  (forall r, In r (rows df) -> List.length r = List.length (columns df)) ->
  select_columns keep df = df.
Proof.
  intros Hk Hl. unfold select_columns.
  rewrite (kept_positions_all keep 0 (columns df)) by exact Hk.
  rewrite map_nth_all. destruct df as [cols rs]. cbn [columns rows] in *.
  f_equal. rewrite <- (map_id rs) at 2. apply map_ext_in. intros r Hr.
  rewrite <- (Hl r Hr). apply (map_nth_all r Null).
Qed.

Lemma set_at_same i row :
  (i < List.length row)%nat -> set_at i (cell_at i row) row = row.
Proof.
  unfold cell_at. revert i.
  induction row as [|a t IH]; intros [|i] H; simpl in *; try lia; auto.
  f_equal. apply IH. lia.
Qed.

Lemma filter_same {A} (p : A -> bool) l :
  (forall x, In x l -> p x = true) -> filter p l = l.
Proof.
  induction l as [|a t IH]; simpl; intros H; [reflexivity |].
  rewrite (H a) by now left. f_equal. apply IH.
  intros x Hx. apply H. now right.
Qed.

Lemma column_cells df name cells :
  column df name = Some cells ->
  exists i, index_of name (columns df) = Some i
            /\ cells = map (cell_at i) (rows df).
Proof.
  unfold column. destruct (index_of name (columns df)) as [i|]; simpl;
    intros H; inversion H. eauto.
Qed.

Lemma existsb_map {A B} (p : B -> bool) (g : A -> B) l :
  existsb p (map g l) = existsb (fun a => p (g a)) l.
Proof. induction l as [|a t IH]; simpl; congruence. Qed.

(** No column of a cleaned frame that has rows is empty of values. *)
Lemma cleaned_columns_have_values df cleaned i :
  clean_data df = Ok cleaned -> rows cleaned <> [] ->
  (i < List.length (columns cleaned))%nat ->
  existsb (fun r => notnull (cell_at i r)) (rows cleaned) = true.
Proof.
  intros H NE Hi.
  destruct (cleaned_schema df cleaned H) as (D & _ & _ & _ & FA & _).
  set (c := nth i (columns cleaned) "").
  assert (I : index_of c (columns cleaned) = Some i)
    by (now apply index_of_unique).
  assert (Col : column cleaned c = Some (map (cell_at i) (rows cleaned)))
    by (unfold column; now rewrite I).
  rewrite <- (existsb_map notnull (cell_at i)).
  destruct (string_dec c "Funding Amount") as [E | Hne].
  - destruct FA as (amounts & CA & Nums). rewrite E in Col.
    rewrite Col in CA. inversion CA as [EA]. clear CA.
    destruct (rows cleaned) as [|r0 rs]; [contradiction |].
    simpl in EA |- *. subst amounts. inversion Nums as [|x xs Hx _]; subst.
    destruct (cell_at i r0); try discriminate. reflexivity.
  - rewrite (cleaned_column df cleaned c H Hne) in Col.
    destruct (index_of c (normalized_columns df)) as [i0|]; [| discriminate].
    destruct (mem c relevant_cols || mem c funding_types); [| discriminate].
    destruct (existsb _ (surviving_rows df)) eqn:V; [| discriminate].
    cbn [andb] in Col. inversion Col as [EC].
    now rewrite existsb_map.
Qed.

(** The fundings of a cleaned frame are floats: rounding them again
    changes nothing. *)
Lemma float_fixed s x : Py.float s = Py.FloatValue x -> binary64 x = x.
Proof.
  unfold Py.float. destruct (Py.sign_of (Py.strip s)) as [neg body].
  destruct (_ || _); [discriminate |].
  destruct (Py.number body) as [[[m fk] rest]|]; [| discriminate].
  destruct (Py.exponent rest) as [e [|a t]]; [| discriminate].
  cbv zeta. destruct (_ || _); [discriminate |].
  intros H. inversion H. apply binary64_idempotent.
Qed.

Lemma coerce_funding_fixed c x :
  coerce_funding c = Py.FloatValue x -> binary64 x = x.
Proof.
  destruct c; simpl; intros H.
  - now inversion H.
  - inversion H. apply binary64_idempotent.
  - now apply float_fixed in H.
  - inversion H. apply binary64_idempotent.
Qed.

Lemma cleaned_funding_fixed df cleaned :
  clean_data df = Ok cleaned ->
  exists amounts,
    column cleaned "Funding Amount" = Some amounts
    /\ Forall (fun c => exists x, c = Num x /\ binary64 x = x) amounts.
Proof.
  intros H. destruct (clean_data_Ok df cleaned H) as (R & D & T & _).
  pose proof (clean_data_cases df R D T) as C. rewrite H in C.
  destruct C as (V & N & CA & _).
  eexists. split; [exact CA |].
  pose proof (results_are_values _ V N) as F.
  rewrite map_map. apply Forall_map.
  eapply Forall_impl; [| exact F].
  intros c (x & Hx). exists x. rewrite Hx. split; [reflexivity |].
  now apply coerce_funding_fixed in Hx.
Qed.

(** On a cleaned frame that has rows, [clean_data] changes nothing. *)
Lemma clean_data_twice df cleaned :
  clean_data df = Ok cleaned -> rows cleaned <> [] ->
  clean_data cleaned = Ok cleaned.
Proof.
  intros H NE.
  destruct (cleaned_schema df cleaned H) as (D & InFA & Allowed & Len & _ & _).
  pose proof (cleaned_funding_fixed df cleaned H) as FA.
  destruct (cleaned_records df cleaned H NE)
    as (names & categories & cities & C1 & C2 & C3 & Txt & Keys & N2 & N3).
  assert (Norm : normalized_columns cleaned = columns cleaned)
    by (now apply canonical_labels).
  assert (Eta : {| columns := columns cleaned; rows := rows cleaned |} = cleaned)
    by (now destruct cleaned).
  destruct (column_cells _ _ _ C1) as (i1 & I1 & E1).
  destruct (column_cells _ _ _ C2) as (i2 & I2 & E2).
  destruct (column_cells _ _ _ C3) as (i3 & I3 & E3).
  assert (Res : resolved cleaned = true).
  { unfold resolved, mandatory. rewrite Norm. simpl.
    rewrite !andb_true_iff. repeat split; try reflexivity;
      apply mem_In; [destruct (index_of_nth _ _ _ I1) as [<- ?]
                    | destruct (index_of_nth _ _ _ I2) as [<- ?]
                    | destruct (index_of_nth _ _ _ I3) as [<- ?]];
      now apply nth_In. }
  assert (NotNull1 : Forall (fun c => notnull c = true) names).
  { eapply Forall_impl; [| exact Txt]. intros c Hc.
    now destruct c. }
  assert (Complete : forall r, In r (rows cleaned) ->
                       complete (columns cleaned) r = true).
  { intros r Hr. unfold complete, mandatory. simpl.
    rewrite I1, I2, I3, !andb_true_iff.
    rewrite E1 in NotNull1. rewrite E2 in N2. rewrite E3 in N3.
    rewrite Forall_map, Forall_forall in NotNull1, N2, N3.
    repeat split; auto. }
  assert (Surv : surviving_rows cleaned = rows cleaned).
  { unfold surviving_rows. rewrite Norm, I1.
    rewrite (filter_same _ _ Complete).
    apply drop_duplicates_same; [| intros r _ []].
    rewrite E1, map_map in Keys. exact Keys. }
  assert (Prune : prune_columns cleaned = cleaned).
  { unfold prune_columns.
    rewrite (select_columns_all _ cleaned); [| | exact Len].
    - apply select_columns_all; [| exact Len].
      intros i Hi. cbv beta. apply orb_true_iff.
      rewrite !mem_In. apply Allowed. now apply nth_In.
    - intros i Hi. cbv beta.
      now apply (cleaned_columns_have_values df cleaned i H NE). }
  unfold clean_data. rewrite Norm.
  assert (F0 : filter (fun name => negb (mem name (columns cleaned))) mandatory
               = []).
  { rewrite <- Norm. now apply resolved_filter. }
  rewrite F0, (proj2 (nodup_labels_NoDup _) D). simpl negb. cbv iota.
  rewrite Eta, C1.
  assert (NE1 : names <> []).
  { rewrite E1. destruct (rows cleaned); [contradiction | discriminate]. }
  assert (ND : numeric_dtype names = false).
  { destruct names as [|c t]; [contradiction |].
    inversion Txt as [|c' t' Hc Ht]; subst. simpl. now rewrite Hc. }
  assert (NN : existsb is_number names = false).
  { clear - Txt. induction Txt as [|c t Hc Ht IH]; simpl; [reflexivity |].
    rewrite IH. now destruct c. }
  rewrite ND, NN, Surv, Eta, Prune.
  destruct FA as (amounts & CA & Nums).
  destruct (column_cells _ _ _ CA) as (j & J & EA).
  unfold coerce_funding_amount. rewrite J.
  assert (Cells : forall r, In r (rows cleaned) ->
            exists x, cell_at j r = Num x /\ binary64 x = x).
  { intros r Hr. rewrite EA, Forall_map, Forall_forall in Nums.
    exact (Nums r Hr). }
  assert (NoErr : forall p,
            (forall x, p (Py.FloatValue x) = false) ->
            existsb p (map (fun r => coerce_funding (cell_at j r))
                         (rows cleaned)) = false).
  { intros p Hp. rewrite existsb_map.
    destruct (existsb _ (rows cleaned)) eqn:X; [| reflexivity].
    apply existsb_exists in X. destruct X as (r & Hr & Hx).
    destruct (Cells r Hr) as (x & Ex & _). rewrite Ex in Hx. simpl in Hx.
    now rewrite Hp in Hx. }
  rewrite (NoErr is_value_error), (NoErr is_non_finite) by reflexivity.
  f_equal.
  transitivity {| columns := columns cleaned; rows := rows cleaned |};
    [| exact Eta].
  f_equal.
  transitivity (map (fun r : list cell => r) (rows cleaned));
    [| apply map_id].
  apply map_ext_in. intros r Hr.
  destruct (Cells r Hr) as (x & Ex & Fx).
  replace (float_cell (coerce_funding (cell_at j r))) with (cell_at j r)
    by (rewrite Ex; simpl; now rewrite Fx).
  apply set_at_same. rewrite (Len r Hr). now apply index_of_nth in J.
Qed.

(** X13.  Cleaning is idempotent: a frame with rows that [clean_data]
    returned is returned unchanged when it is cleaned again. *)
Theorem X13_cleaning_is_idempotent df cleaned :
  clean_data df = Ok cleaned -> rows cleaned <> [] ->
  clean_data cleaned = Ok cleaned.
Proof. apply clean_data_twice. Qed.

(** The cleaned example is its own cleaning. *)
Lemma X13_cleaning_is_idempotent_witness :
  clean_data acme_beta = Ok acme_beta.
Proof.
  apply (X13_cleaning_is_idempotent acme_beta_raw acme_beta eq_refl).
  discriminate.
Defined.

(** * From the file to the scores *)

Lemma clean_Ok df cleaned :
  clean df = Ok cleaned -> clean_data df = Ok cleaned /\ rows cleaned <> [].
Proof.
  unfold clean. destruct (clean_data df) as [c|e|]; try discriminate.
  destruct (empty c) eqn:E; [discriminate |].
  intros H. inversion H; subst. split; [reflexivity |].
  unfold empty in E. destruct (columns cleaned), (rows cleaned); discriminate.
Qed.

Lemma as_floats_numbers cells :
  Forall (fun c => is_number c = true) cells -> exists l, as_floats cells = Some l.
Proof.
  induction 1 as [|c t Hc Ht (l & IH)]; simpl; [eauto |].
  destruct c; try discriminate; rewrite IH; simpl; eauto.
Qed.

Lemma floats_are_numbers cells :
  Forall (fun c => is_float c = true) cells ->
  Forall (fun c => is_number c = true) cells.
Proof.
  apply Forall_impl. intros c H. now destruct c.
Qed.

(** The [funding_rounds] column of a cleaned frame. *)
Lemma cleaned_rounds df cleaned :
  clean_data df = Ok cleaned ->
  column cleaned "funding_rounds"
  = if existsb notnull (surviving_rounds df)
    then Some (surviving_rounds df) else None.
Proof.
  intros H. rewrite (cleaned_column df cleaned "funding_rounds" H)
    by discriminate.
  unfold surviving_rounds.
  destruct (index_of "funding_rounds" (normalized_columns df)); [| reflexivity].
  rewrite existsb_map. simpl orb. cbn [andb]. reflexivity.
Qed.

(** X14.  Scoring after cleaning.  When no surviving record of the file
    has a funding round, the [funding_rounds] column is gone from the
    cleaned frame and [score_companies] raises [KeyError]; when some
    record has one and the column holds no text, every surviving record
    gets a Score and a Top Quality. *)
Theorem X14_scoring_a_cleaned_frame y parse df cleaned :
  clean df = Ok cleaned ->
  (existsb notnull (surviving_rounds df) = false ->
   main y parse df = Raise (KeyError ["funding_rounds"]))
  /\ (existsb notnull (surviving_rounds df) = true ->
      existsb is_text (surviving_rounds df) = false ->
      exists out,
        main y parse df = Ok out
        /\ frame out = cleaned
        /\ List.length (Score out) = List.length (rows cleaned)
        /\ List.length (Top_Quality out) = List.length (rows cleaned)).
Proof.
  intros Hc. destruct (clean_Ok df cleaned Hc) as [H NE].
  unfold main. rewrite Hc.
  pose proof (cleaned_rounds df cleaned H) as CR.
  split.
  - intros V. rewrite V in CR.
    apply score_companies_without_rounds; assumption.
  - intros V T. rewrite V in CR.
    destruct (cleaned_schema df cleaned H) as (_ & _ & _ & _ & FA & _).
    destruct FA as (amounts & CA & Nums).
    destruct (as_floats_numbers amounts (floats_are_numbers _ Nums))
      as (fl & Fl).
    assert (RN : Forall (fun c => is_number c = true)
                   (map fillna_cell (surviving_rounds df))).
    { apply Forall_map, Forall_forall. intros c Hin.
      destruct c; try reflexivity. exfalso.
      assert (X : existsb is_text (surviving_rounds df) = true).
      { apply existsb_exists. exists (Str s). auto. }
      congruence. }
    destruct (as_floats_numbers _ RN) as (rl & Rl).
    assert (M : exists m, raw_metrics y parse cleaned = Ok m).
    { unfold raw_metrics. destruct (rows cleaned); [contradiction |].
      rewrite CR, CA, Fl, Rl. eauto. }
    destruct M as (m & Hm).
    exists {| frame := cleaned; Score := Score_column m;
              Top_Quality := Top_Quality_column m |}.
    split; [unfold score_companies; now rewrite Hm |].
    split; [reflexivity |]. cbn [Score Top_Quality]. split.
    + apply (Score_column_length y parse cleaned m Hm).
    + apply (length_Top_Quality_column y parse cleaned m Hm).
Qed.

(** The two companies of the example are cleaned and scored. *)
Lemma X14_scoring_a_cleaned_frame_witness :
  exists out,
    main 2026 float_literal acme_beta_raw = Ok out /\ frame out = acme_beta.
Proof.
  destruct (X14_scoring_a_cleaned_frame 2026 float_literal acme_beta_raw
              acme_beta eq_refl) as [_ H].
  destruct (H eq_refl eq_refl) as (out & H1 & H2 & _).
  exists out. split; assumption.
Defined.

Lemma as_floats_text cells :
  as_floats (map fillna_cell cells) = None -> existsb is_text cells = true.
Proof.
  induction cells as [|c t IH]; [discriminate |].
  destruct c; simpl; try reflexivity;
    destruct (as_floats (map fillna_cell t)); try discriminate;
    intros _; now apply IH.
Qed.

Lemma clean_data_raises df e :
  clean_data df = Raise e ->
  e = AttributeError \/ e = ValueError
  \/ exists missing, e = KeyError missing /\ missing <> []
                     /\ incl missing mandatory.
Proof.
  unfold clean_data.
  destruct (filter _ mandatory) as [|a t] eqn:F.
  - destruct (nodup_labels (normalized_columns df)) eqn:D; simpl negb;
      cbv iota; [| discriminate].
    destruct (column _ "Company Name") as [names|].
    + destruct (numeric_dtype names).
      * intros H. inversion H. auto.
      * destruct (existsb is_number names); [discriminate |].
        pose proof (coerce_pruned {| columns := normalized_columns df;
                                     rows := surviving_rows df |}
                      (proj1 (nodup_labels_NoDup _) D)) as P.
        cbv zeta in P. intros H. rewrite H in P. destruct P as [-> _]. auto.
    + intros H. inversion H. right. right. eexists.
      split; [reflexivity |]. split; [discriminate |].
      intros x [<- | []]. simpl. tauto.
  - intros H. inversion H. right. right. eexists.
    split; [reflexivity |]. split; [discriminate |].
    intros x Hx. rewrite <- F in Hx. now apply filter_In in Hx.
Qed.

(** X15.  The ways in which the run from a file with distinct labels to
    the scores fails: a [KeyError] that names mandatory fields that were
    not found, an [AttributeError], a [ValueError], the stop on an empty
    result, the [KeyError] of [funding_rounds], or the [TypeError] of a
    [funding_rounds] column that mixes text with numbers or missing
    values.  The Funding Amount column is never the one that is
    missing. *)
Theorem X15_failures_of_the_run y parse df e :
  nodup_labels (normalized_columns df) = true ->
  main y parse df = Raise e ->
  (e = AttributeError \/ e = ValueError \/ e = Stop \/ e = TypeError
   \/ e = KeyError ["funding_rounds"]
   \/ exists missing, e = KeyError missing /\ missing <> []
                      /\ incl missing mandatory)
  /\ e <> KeyError ["Funding Amount"]
  /\ (e = TypeError ->
      existsb is_text (surviving_rounds df) = true
      /\ existsb (fun c => negb (is_text c)) (surviving_rounds df) = true).
Proof.
  intros _ H.
  assert (Cases : (e = AttributeError \/ e = ValueError \/ e = Stop
            \/ e = TypeError
            \/ e = KeyError ["funding_rounds"]
            \/ exists missing, e = KeyError missing /\ missing <> []
                               /\ incl missing mandatory)
           /\ (e = TypeError ->
               existsb is_text (surviving_rounds df) = true
               /\ existsb (fun c => negb (is_text c)) (surviving_rounds df)
                  = true)).
  { revert H. unfold main.
    destruct (clean df) as [cleaned|e'|] eqn:C; [| | discriminate].
    - destruct (clean_Ok df cleaned C) as [Hd NE]. intros H.
      unfold score_companies in H.
      destruct (raw_metrics y parse cleaned) as [m|e'|] eqn:R;
        try discriminate.
      inversion H; subst e'; clear H. revert R. unfold raw_metrics.
      destruct (rows cleaned); [discriminate |].
      destruct (column cleaned "funding_rounds") as [rc|] eqn:CR;
        [| intros R; inversion R; split; [tauto | discriminate]].
      destruct (cleaned_schema df cleaned Hd) as (_ & _ & _ & _ & FA & _).
      destruct FA as (amounts & -> & _). intros R.
      destruct (as_floats amounts); [| discriminate].
      destruct (as_floats (map fillna_cell rc)) eqn:AF; [discriminate |].
      destruct (existsb is_number (map fillna_cell rc)) eqn:EN;
        [| discriminate].
      inversion R; subst e. split; [tauto |]. intros _.
      assert (RC : rc = surviving_rounds df).
      { rewrite (cleaned_column df cleaned "funding_rounds" Hd) in CR
          by discriminate.
        unfold surviving_rounds.
        destruct (index_of "funding_rounds" (normalized_columns df));
          [| discriminate].
        destruct (_ && _); [| discriminate]. now inversion CR. }
      rewrite <- RC. split.
      + now apply as_floats_text.
      + apply existsb_exists in EN. destruct EN as (c & Hin & Hc).
        apply in_map_iff in Hin. destruct Hin as (c0 & <- & Hin).
        apply existsb_exists. exists c0. split; [exact Hin |].
        destruct c0; try reflexivity. discriminate.
    - intros H. inversion H; subst e'; clear H. revert C. unfold clean.
      destruct (clean_data df) as [c|e'|] eqn:D; [| | discriminate].
      + destruct (empty c); [| discriminate]. intros C. inversion C.
        split; [tauto | discriminate].
      + intros C. inversion C; subst e'.
        destruct (clean_data_raises df e D) as [-> | [-> | K]];
          (split; [tauto |]); try discriminate.
        intros ->. destruct K as (missing & K & _). discriminate. }
  destruct Cases as [Cases TE].
  split; [exact Cases |]. split; [| exact TE].
  destruct Cases as [-> | [-> | [-> | [-> | [-> | (missing & -> & _ & I)]]]]];
    try discriminate.
  intros E. inversion E; subst missing.
  specialize (I "Funding Amount" (or_introl eq_refl)). simpl in I.
  intuition discriminate.
Qed.

(** The file without funding rounds fails with the [KeyError] of
    [funding_rounds]. *)
Lemma X15_failures_of_the_run_witness :
  (KeyError ["funding_rounds"] = AttributeError
   \/ KeyError ["funding_rounds"] = ValueError
   \/ KeyError ["funding_rounds"] = Stop
   \/ KeyError ["funding_rounds"] = TypeError
   \/ KeyError ["funding_rounds"] = KeyError ["funding_rounds"]
   \/ exists missing, KeyError ["funding_rounds"] = KeyError missing
                      /\ missing <> [] /\ incl missing mandatory)
  /\ KeyError ["funding_rounds"] <> KeyError ["Funding Amount"].
Proof.
  destruct (X15_failures_of_the_run 2026 float_literal no_rounds_raw
              (KeyError ["funding_rounds"]) eq_refl eq_refl) as (A & B & _).
  split; [exact A | exact B].
Defined.

(** * The results table *)

Lemma better_false a b : better b a = false <-> in_order a b.
Proof.
  unfold better, in_order. rewrite orb_false_iff, andb_false_iff. split.
  - intros [L E]. split.
    + apply Qnot_lt_le. intros C. apply Qlt_bool_iff in C. congruence.
    + intros Q. destruct E as [E | E].
      * exfalso. assert (X : Qeq_bool (Funding a) (Funding b) = true)
          by (apply Qeq_bool_iff; now symmetry).
        congruence.
      * apply Qnot_lt_le. intros C. apply Qlt_bool_iff in C. congruence.
  - intros [L E]. split.
    + destruct (Qlt_bool (Funding a) (Funding b)) eqn:C; [| reflexivity].
      apply Qlt_bool_iff in C. lra.
    + destruct (Qeq_bool (Funding a) (Funding b)) eqn:Q; [right | now left].
      apply Qeq_bool_iff in Q.
      destruct (Qlt_bool (Lead_Score a) (Lead_Score b)) eqn:C;
        [| reflexivity].
      apply Qlt_bool_iff in C. symmetry in Q. specialize (E Q). lra.
Qed.

Lemma better_true a b : better b a = true -> in_order b a.
Proof.
  unfold better, in_order. rewrite orb_true_iff, andb_true_iff.
  intros [L | [Q L]].
  - apply Qlt_bool_iff in L. split; [lra |]. intros E. lra.
  - apply Qeq_bool_iff in Q. apply Qlt_bool_iff in L. split; [lra |].
    intros _. lra.
Qed.

Lemma in_order_trans a b c : in_order a b -> in_order b c -> in_order a c.
Proof.
  unfold in_order. intros [F1 S1] [F2 S2]. split; [lra |].
  intros E. assert (E1 : Funding b == Funding a) by lra.
  assert (E2 : Funding c == Funding b) by lra.
  specialize (S1 E1). specialize (S2 E2). lra.
Qed.

Lemma insert_lead_perm a s : Permutation (a :: s) (insert_lead a s).
Proof.
  induction s as [|b t IH]; simpl; [reflexivity |].
  destruct (better b a); [| reflexivity].
  rewrite perm_swap. now constructor.
Qed.

Lemma sort_leads_perm l : Permutation l (sort_leads l).
Proof.
  induction l as [|a t IH]; simpl; [constructor |].
  rewrite <- insert_lead_perm. now constructor.
Qed.

Lemma insert_lead_in_order a s :
  ForallOrdPairs in_order s -> ForallOrdPairs in_order (insert_lead a s).
Proof.
  induction 1 as [|b t Hb Ht IH]; simpl.
  - constructor; constructor.
  - destruct (better b a) eqn:B.
    + constructor; [| exact IH].
      apply (Permutation_Forall (insert_lead_perm a t)).
      constructor; [now apply better_true | exact Hb].
    + apply better_false in B. constructor; [| now constructor].
      constructor; [exact B |].
      eapply Forall_impl; [| exact Hb].
      intros c Hc. now apply in_order_trans with b.
Qed.

Lemma sort_leads_in_order l : ForallOrdPairs in_order (sort_leads l).
Proof.
  induction l as [|a t IH]; simpl; [constructor |].
  now apply insert_lead_in_order.
Qed.

Lemma ordered_split (R : Lead -> Lead -> Prop) n l a b :
  ForallOrdPairs R l -> In a (firstn n l) -> In b (skipn n l) -> R a b.
Proof.
  intros H. revert n. induction H as [|x t Hx Ht IH]; intros n Ha Hb.
  - destruct n; contradiction.
  - destruct n as [|n]; [contradiction |]. simpl in Ha, Hb.
    destruct Ha as [<- | Ha].
    + rewrite Forall_forall in Hx. apply Hx.
      rewrite <- (firstn_skipn n t). apply in_or_app. now right.
    + now apply IH with n.
Qed.

(** X16.  The results table holds the leads of the selected category and
    city, each as often as the scored frame holds it, and it lists them by
    decreasing funding, those of equal funding by decreasing score. *)
Theorem X16_results_table matches category city leads :
  Permutation (filter (selected matches category city) leads)
    (filtered matches category city leads)
  /\ ForallOrdPairs in_order (filtered matches category city leads)
  /\ forall lead,
       In lead (filtered matches category city leads)
       <-> In lead leads
           /\ matches category (Category lead) = true
           /\ Py.lower (City lead) = Py.lower city.
Proof.
  unfold filtered. split; [apply sort_leads_perm |].
  split; [apply sort_leads_in_order |].
  intros lead. split.
  - intros H.
    apply (Permutation_in _ (Permutation_sym (sort_leads_perm _))) in H.
    apply filter_In in H. destruct H as [I S]. split; [exact I |].
    unfold selected in S. apply andb_true_iff in S. destruct S as [M C].
    split; [exact M | now apply String.eqb_eq].
  - intros (I & M & C).
    apply (Permutation_in _ (sort_leads_perm _)).
    apply filter_In. split; [exact I |].
    unfold selected. rewrite M. simpl. now apply String.eqb_eq.
Qed.

(** X17.  When the results table holds a lead that the Top 5 leave out,
    the Top 5 are five leads, and the lead left out has no more funding
    than any of the five and, with the same funding, no larger score. *)
Theorem X17_top5_are_the_best_funded matches category city leads a b :
  In a (top5 (filtered matches category city leads)) ->
  In b (skipn 5 (filtered matches category city leads)) ->
  in_order a b
  /\ List.length (top5 (filtered matches category city leads)) = 5%nat.
Proof.
  intros Ha Hb. split.
  - apply (ordered_split in_order 5 (filtered matches category city leads));
      [| exact Ha | exact Hb].
    unfold filtered. apply sort_leads_in_order.
  - unfold top5. apply firstn_length_le.
    destruct (Nat.le_gt_cases 5
                (List.length (filtered matches category city leads)))
      as [L | L]; [exact L |].
    rewrite skipn_all2 in Hb by lia. contradiction.
Qed.

(** Of the seven leads of the example city, Gamma is left out of the five:
    it has less funding than Delta. *)
Lemma X17_top5_are_the_best_funded_witness :
  in_order (mkLead "Delta" "FinTech" "NYC" 500 95 "Rounds")
    (mkLead "Gamma" "Biotech" "NYC" 100 40 "Age")
  /\ List.length (top5 (filtered contains_ignoring_case "tech" "NYC"
                          six_leads)) = 5%nat.
Proof.
  apply (X17_top5_are_the_best_funded contains_ignoring_case "tech" "NYC"
           six_leads).
  - vm_compute. tauto.
  - vm_compute. tauto.
Defined.

(** ** The company that was selected *)

Lemma leads_of_columns_names ns :
  forall cs ts fs ss qs leads,
    leads_of_columns ns cs ts fs ss qs = Some leads ->
    map (fun lead => Str (Company_Name lead)) leads = ns.
Proof.
  induction ns as [|n ns IH]; intros cs ts fs ss qs leads H.
  - destruct cs, ts, fs, ss, qs; simpl in H; try discriminate.
    inversion H. reflexivity.
  - destruct n as [| |n|], cs as [|[| |c|] cs], ts as [|[| |t|] ts],
      fs as [|[|f| |] fs], ss as [|sc ss], qs as [|q qs];
      simpl in H; try discriminate.
    destruct (leads_of_columns ns cs ts fs ss qs) as [rest|] eqn:E;
      [| discriminate].
    inversion H; subst leads. simpl. f_equal. now apply IH in E.
Qed.

Lemma score_companies_frame y parse df out :
  score_companies y parse df = Ok out -> frame out = df.
Proof.
  unfold score_companies.
  destruct (raw_metrics y parse df); try discriminate.
  intros H. inversion H. reflexivity.
Qed.

Lemma lead_names_distinct y parse df cleaned out leads :
  clean df = Ok cleaned ->
  score_companies y parse cleaned = Ok out ->
  leads_of out = Some leads ->
  NoDup (map (fun lead => Py.lower (Company_Name lead)) leads).
Proof.
  intros C S L. destruct (clean_Ok df cleaned C) as [D NE].
  destruct (cleaned_records df cleaned D NE)
    as (names & categories & cities & C1 & C2 & C3 & _ & N & _).
  unfold leads_of in L. rewrite (score_companies_frame _ _ _ _ S) in L.
  rewrite C1, C2, C3 in L.
  destruct (column cleaned "Funding Amount") as [amounts|]; [| discriminate].
  apply leads_of_columns_names in L. rewrite <- L, map_map in N.
  cbn [lower_key] in N.
  rewrite <- (map_map (fun lead => Py.lower (Company_Name lead)) Some) in N.
  now apply NoDup_map_inv in N.
Qed.

Lemma filter_names_distinct (f : Lead -> bool) leads :
  NoDup (map Company_Name leads) ->
  NoDup (map Company_Name (filter f leads)).
Proof.
  induction leads as [|a t IH]; simpl; [constructor |].
  intros N. inversion N as [|x l Hx Hl]; subst.
  destruct (f a); simpl; [| now apply IH].
  constructor; [| now apply IH].
  intros I. apply Hx. apply in_map_iff in I.
  destruct I as (b & E & I). apply filter_In in I.
  apply in_map_iff. exists b. tauto.
Qed.

Lemma company_data_found leads lead :
  NoDup (map Company_Name leads) ->
  In lead leads ->
  company_data (Company_Name lead) leads = Some lead.
Proof.
  unfold company_data. induction leads as [|a t IH]; [contradiction |].
  intros N I. inversion N as [|x l Hx Hl]; subst. simpl.
  destruct I as [-> | I].
  - now rewrite String.eqb_refl.
  - destruct (String.eqb (Company_Name a) (Company_Name lead)) eqn:E.
    + apply String.eqb_eq in E. exfalso. apply Hx. rewrite E.
      now apply in_map.
    + now apply IH.
Qed.

(** X18.  After cleaning, no two leads have the same name, also when case
    is disregarded: the row that is read for the company selected in the
    results table is the row of the table that bears the name. *)
Theorem X18_selected_company_row y parse df cleaned out leads
    matches category city lead :
  clean df = Ok cleaned ->
  score_companies y parse cleaned = Ok out ->
  leads_of out = Some leads ->
  In lead (filtered matches category city leads) ->
  NoDup (map (fun lead => Py.lower (Company_Name lead)) leads)
  /\ company_data (Company_Name lead) (filtered matches category city leads)
     = Some lead.
Proof.
  intros C S L I.
  pose proof (lead_names_distinct y parse df cleaned out leads C S L) as N.
  split; [exact N |].
  apply company_data_found; [| exact I].
  rewrite <- (map_map Company_Name Py.lower) in N.
  apply NoDup_map_inv in N.
  unfold filtered.
  apply (Permutation_NoDup
           (Permutation_map Company_Name (sort_leads_perm _))).
  now apply filter_names_distinct.
Qed.

(** In the example, the row read for Beta is the row of Beta. *)
Lemma X18_selected_company_row_witness :
  NoDup (map (fun lead => Py.lower (Company_Name lead))
           [mkLead "Acme" "Tech" "NYC" 1000000 (3080 # 32) "Funding";
            mkLead "Beta" "Tech" "NYC" 500000 (1720 # 32) "Funding"])
  /\ company_data "Beta"
       (filtered contains_ignoring_case "tech" "nyc"
          [mkLead "Acme" "Tech" "NYC" 1000000 (3080 # 32) "Funding";
           mkLead "Beta" "Tech" "NYC" 500000 (1720 # 32) "Funding"])
     = Some (mkLead "Beta" "Tech" "NYC" 500000 (1720 # 32) "Funding").
Proof.
  apply (X18_selected_company_row 2026 float_literal acme_beta_raw acme_beta
           {| frame := acme_beta;
              Score := [3080 # 32; 1720 # 32];
              Top_Quality := ["Funding"; "Funding"] |}
           [mkLead "Acme" "Tech" "NYC" 1000000 (3080 # 32) "Funding";
            mkLead "Beta" "Tech" "NYC" 500000 (1720 # 32) "Funding"]
           contains_ignoring_case "tech" "nyc"
           (mkLead "Beta" "Tech" "NYC" 500000 (1720 # 32) "Funding")
           eq_refl eq_refl eq_refl).
  vm_compute. tauto.
Defined.

(** ** The advice *)

(** X19.  The card of a suggestion and the two answers of the assistant
    sort a score alike: above 80, above 50 up to 80, and up to 50. *)
Theorem X19_advice_agrees score :
  (80 < score
   /\ card score = HighlyRecommended
   /\ growth_potential score = "high"
   /\ sales_recommendation score = "Prioritize outreach")
  \/ (50 < score <= 80
      /\ card score = MonitorGrowth
      /\ growth_potential score = "moderate"
      /\ sales_recommendation score = "Nurture with follow-ups")
  \/ (score <= 50
      /\ card score = ProceedWithCaution
      /\ growth_potential score = "low"
      /\ sales_recommendation score = "Validate further").
Proof.
  unfold card, growth_potential, sales_recommendation.
  destruct (Qlt_bool 80 score) eqn:H.
  - left. apply Qlt_bool_iff in H. tauto.
  - right.
    assert (H' : score <= 80).
    { apply Qnot_lt_le. intros C. apply Qlt_bool_iff in C. congruence. }
    destruct (Qlt_bool 50 score) eqn:L.
    + left. apply Qlt_bool_iff in L. tauto.
    + right. split; [| tauto].
      apply Qnot_lt_le. intros C. apply Qlt_bool_iff in C. congruence.
Qed.

Lemma of_nat_S n : of_nat (S n) == of_nat n + 1.
Proof.
  replace (S n) with (n + 1)%nat by lia. rewrite of_nat_plus. reflexivity.
Qed.

Lemma some_above xs c :
  of_nat (List.length xs) * c < total xs ->
  exists i, (i < List.length xs)%nat /\ c < nth i xs 0.
Proof.
  induction xs as [|x t IH]; intros H.
  - exfalso. simpl in H. change (of_nat 0) with 0 in H. lra.
  - cbn [List.length total fold_right] in H. fold (total t) in H.
    rewrite of_nat_S in H.
    destruct (Qlt_le_dec c x) as [L | L].
    + exists 0%nat. simpl. split; [lia | exact L].
    + destruct IH as (i & Hi & Hc); [lra |].
      exists (S i). simpl. split; [lia | exact Hc].
Qed.

Lemma some_below xs c :
  total xs < of_nat (List.length xs) * c ->
  exists i, (i < List.length xs)%nat /\ nth i xs 0 < c.
Proof.
  induction xs as [|x t IH]; intros H.
  - exfalso. simpl in H. change (of_nat 0) with 0 in H. lra.
  - cbn [List.length total fold_right] in H. fold (total t) in H.
    rewrite of_nat_S in H.
    destruct (Qlt_le_dec x c) as [L | L].
    + exists 0%nat. simpl. split; [lia | exact L].
    + destruct IH as (i & Hi & Hc); [lra |].
      exists (S i). simpl. split; [lia | exact Hc].
Qed.

(** X20.  In every scored frame some record scores above 50, so that its
    card does not read "proceed with caution"; and in a frame of two
    records or more some record scores below 80, so that not every lead
    is highly recommended. *)
Theorem X20_advice_is_never_uniform y parse df out :
  score_companies y parse df = Ok out ->
  (exists i, (i < List.length (rows df))%nat
             /\ 50 < nth i (Score out) 0
             /\ card (nth i (Score out) 0) <> ProceedWithCaution)
  /\ ((2 <= List.length (rows df))%nat ->
      exists j, (j < List.length (rows df))%nat
                /\ nth j (Score out) 0 < 80
                /\ card (nth j (Score out) 0) <> HighlyRecommended).
Proof.
  intros H. pose proof (scores_total y parse df out H) as T.
  destruct (score_companies_Ok _ _ _ _ H) as (m & Hm & HS & _).
  pose proof (Score_column_length y parse df m Hm) as L.
  rewrite <- HS in L. rewrite <- L. split.
  - destruct (some_above (Score out) 50) as (i & Hi & Hc).
    + rewrite T, L. lra.
    + exists i. split; [exact Hi |]. split; [exact Hc |].
      unfold card. destruct (Qlt_bool 80 (nth i (Score out) 0));
        [discriminate |].
      destruct (Qlt_bool 50 (nth i (Score out) 0)) eqn:E; [discriminate |].
      exfalso. apply Qlt_bool_iff in Hc. congruence.
  - intros Two. destruct (some_below (Score out) 80) as (j & Hj & Hc).
    + rewrite T, L.
      assert (X : 2 <= of_nat (List.length (rows df)))
        by (change 2 with (of_nat 2); apply of_nat_le; now rewrite <- L).
      lra.
    + exists j. split; [exact Hj |]. split; [exact Hc |].
      unfold card. destruct (Qlt_bool 80 (nth j (Score out) 0)) eqn:E.
      * apply Qlt_bool_iff in E. lra.
      * destruct (Qlt_bool 50 (nth j (Score out) 0)); discriminate.
Qed.

(** Of the two records of the example, Acme scores above 50 and Beta
    below 80. *)
Lemma X20_advice_is_never_uniform_witness :
  (exists i, (i < 2)%nat
             /\ 50 < nth i [3080 # 32; 1720 # 32] 0
             /\ card (nth i [3080 # 32; 1720 # 32] 0) <> ProceedWithCaution)
  /\ ((2 <= 2)%nat ->
      exists j, (j < 2)%nat
                /\ nth j [3080 # 32; 1720 # 32] 0 < 80
                /\ card (nth j [3080 # 32; 1720 # 32] 0)
                   <> HighlyRecommended).
Proof.
  exact (X20_advice_is_never_uniform 2026 float_literal acme_beta
           {| frame := acme_beta;
              Score := [3080 # 32; 1720 # 32];
              Top_Quality := ["Funding"; "Funding"] |} eq_refl).
Defined.

(** ** The questions put to the assistant *)

Lemma lower_append a b : Py.lower (a ++ b) = (Py.lower a ++ Py.lower b)%string.
Proof.
  induction a as [|c a IH]; simpl; [reflexivity | now rewrite IH].
Qed.

Lemma prefix_append needle rest : String.prefix needle (needle ++ rest) = true.
Proof.
  induction needle as [|c n IH]; simpl; [now destruct rest |].
  destruct (ascii_dec c c); [exact IH | contradiction].
Qed.

Lemma contains_prefix needle text :
  String.prefix needle text = true -> contains needle text = true.
Proof.
  intros H. destruct text; cbn [contains]; rewrite H; reflexivity.
Qed.

Lemma contains_append needle before rest :
  contains needle (before ++ needle ++ rest) = true.
Proof.
  induction before as [|c b IH]; simpl.
  - apply contains_prefix, prefix_append.
  - rewrite IH. apply orb_true_r.
Qed.

(** X21.  A question that holds the word funding, in whatever case and
    whatever else it holds, is answered with the funding amount of the
    company. *)
Theorem X21_funding_question money fixed2 company before word rest :
  Py.lower word = "funding" ->
  investigate_company money fixed2 company (before ++ word ++ rest)
  = (Company_Name company ++ " has a funding amount of $"
     ++ money (Funding company) ++ ".")%string.
Proof.
  intros W. unfold investigate_company.
  rewrite !lower_append, W, contains_append. reflexivity.
Qed.

(** A question about the funding and the growth of Acme. *)
Lemma X21_funding_question_witness :
  investigate_company (fun _ => "1,000,000.00") (fun _ => "96.25")
    (mkLead "Acme" "Tech" "NYC" 1000000 (3080 # 32) "Funding")
    "Growth and FUNDING of Acme?"
  = "Acme has a funding amount of $1,000,000.00.".
Proof.
  exact (X21_funding_question (fun _ => "1,000,000.00") (fun _ => "96.25")
           (mkLead "Acme" "Tech" "NYC" 1000000 (3080 # 32) "Funding")
           "Growth and " "FUNDING" " of Acme?" eq_refl).
Defined.
